(** * The ANTLR4 JavaScript runtime front end: character cursor, tokens,
      lexer recovery, buffered token streams and hash-consing containers.

    The JavaScript sources are embedded shallowly.  A method becomes a Rocq
    function over an explicit record of the object's fields; a method that
    can throw returns an outcome that is either a value or the exception;
    loops whose trip count is not bounded by their arguments take fuel. *)

From Stdlib Require Import ZArith Lia Ascii String.
From stdpp Require Import base option list strings gmap pretty.

Open Scope Z_scope.

(** ** JavaScript values and exceptions *)

Module Js.

(** Strings are sequences of 16-bit code units. *)
Definition jsstring := list Z.

(** A source literal made of ASCII characters. *)
Definition lit (s : string) : jsstring :=
  map (fun a => Z.of_N (N_of_ascii a)) (list_ascii_of_string s).

(** The primitive values that reach the fields modelled here. *)
Inductive Val :=
| VUndefined
| VNull
| VBool (b : bool)
| VNum (z : Z)
| VStr (s : jsstring).

#[global] Instance Val_eq_dec : EqDecision Val.
Proof. solve_decision. Defined.

(** [a === b] on primitives. *)
Definition strict_eq (a b : Val) : bool := bool_decide (a = b).

(** [v == null] holds for [null] and [undefined] only. *)
Definition loose_null (v : Val) : bool :=
  match v with VUndefined | VNull => true | _ => false end.

(** Truthiness, as tested by [if] and [!]. *)
Definition truthy (v : Val) : bool :=
  match v with
  | VUndefined | VNull => false
  | VBool b => b
  | VNum z => negb (z =? 0)
  | VStr s => negb (bool_decide (s = []))
  end.

(** What a [throw] carries. *)
Inductive Exn :=
| ReferenceError (ident : string)
| TypeError (what : string)
| RangeError (what : string)
| Error (message : string)
| RecognitionException (lexerNoViableAlt : bool).

#[global] Instance Exn_eq_dec : EqDecision Exn.
Proof. solve_decision. Defined.

(** Outcome of an expression without side effects on modelled state. *)
Inductive Res (A : Type) :=
| Ok (a : A)
| Raise (e : Exn).
Arguments Ok {A} a.
Arguments Raise {A} e.

Definition rbind {A B} (m : Res A) (k : A -> Res B) : Res B :=
  match m with Ok a => k a | Raise e => Raise e end.

(** [arr[i]] for a dense array: [undefined] ([None]) out of range. *)
Definition at_index {A} (l : list A) (i : Z) : option A :=
  if i <? 0 then None else l !! Z.to_nat i.

(** [arr.length]. *)
Definition len {A} (l : list A) : Z := Z.of_nat (length l).

End Js.
Import Js.

Notation "'let!' x ':=' m 'in' k" := (rbind m (fun x => k))
  (at level 10, x name, m at level 100, k at level 200, only parsing).

(** ** InputStream.js *)

Module InputStream.

(** A binding of the file, as far as the two decoders can observe one:
    its conversion to a number, [None] being NaN.  No value bound in
    the file has a [strdata] property. *)
Definition Scope := list (string * option Z).

(** The top-level bindings of InputStream.js: its three imports
    ([Token], [isBrowser], [EMPTY]) and its three declarations.  The
    file binds no other name, and neither [stream] nor [streamSize] is
    a global of the language or of its hosts. *)
Definition module_scope (isBrowser : bool) : Scope :=
  [ ("Token"%string, None);
    ("isBrowser"%string, Some (if isBrowser then 1 else 0));
    ("EMPTY"%string, None);
    ("decodeUnicodeCodePoints"%string, None);
    ("decodeCharacterCodes"%string, None);
    ("InputStream"%string, None) ].

Fixpoint assoc (sc : Scope) (x : string) : option (option Z) :=
  match sc with
  | [] => None
  | (y, b) :: sc' => if String.eqb x y then Some b else assoc sc' x
  end.

(** Reading an identifier that is not a local of the function: an
    unbound name throws. *)
Definition ident (outer : Scope) (x : string) : Res (option Z) :=
  match assoc outer x with
  | Some b => Ok b
  | None => Raise (ReferenceError x)
  end.

(** [i < v]: false when [v] converts to NaN. *)
Definition lt_num (i : Z) (v : option Z) : bool :=
  match v with Some z => i <? z | None => false end.

Definition is_high (u : Z) : bool := (0xD800 <=? u) && (u <=? 0xDBFF).
Definition is_low (u : Z) : bool := (0xDC00 <=? u) && (u <=? 0xDFFF).

(** [s.codePointAt(i)]; [None] stands for [undefined]. *)
Definition codePointAt (s : jsstring) (i : Z) : option Z :=
  match at_index s i with
  | None => None
  | Some hi =>
      if is_high hi then
        match at_index s (i + 1) with
        | Some lo =>
            if is_low lo
            then Some ((hi - 0xD800) * 0x400 + (lo - 0xDC00) + 0x10000)
            else Some hi
        | None => Some hi
        end
      else Some hi
  end.

Section Decoders.
(** The scope enclosing the two decoder functions. *)
Variable outer : Scope.

(** [decodeUnicodeCodePoints(string)].  The loop test is
    [i < stringSize] with [i = 0]; the first statement of the body
    evaluates [stream.strdata.codePointAt(i)], which reads the
    identifier [stream], then the property [strdata] that no binding
    has, then calls a method on [undefined].  No iteration
    completes. *)
Definition decodeUnicodeCodePoints (string : jsstring) : Res (list Z) :=
  let data : list Z := [] in
  let stringSize := len string in
  let i := 0 in
  if i <? stringSize then
    let! stream := ident outer "stream" in
    Raise (TypeError "Cannot read properties of undefined (reading 'codePointAt')")
  else Ok data.

(** [decodeCharacterCodes(string)].  The loop test is
    [i < streamSize] with [i = 0]; the body evaluates
    [stream.strdata.charCodeAt(i)] as above. *)
Definition decodeCharacterCodes (string : jsstring) : Res (list Z) :=
  let data : list Z := [] in
  let stringSize := len string in
  let i := 0 in
  let! streamSize := ident outer "streamSize" in
  if lt_num i streamSize then
    let! stream := ident outer "stream" in
    Raise (TypeError "Cannot read properties of undefined (reading 'charCodeAt')")
  else Ok data.
End Decoders.

(** What the decoders are documented to return: the 16-bit code units
    of the string, and its Unicode code points. *)
Definition code_units (string : jsstring) : list Z := string.

Fixpoint code_points_from (n : nat) (string : jsstring) (i : Z) : list Z :=
  match n with
  | O => []
  | S n' =>
      match codePointAt string i with
      | None => []
      | Some c =>
          c :: code_points_from n' string (i + (if c <=? 0xFFFF then 1 else 2))
      end
  end.

Definition code_points (string : jsstring) : list Z :=
  code_points_from (length string) string 0.

(** The fields of an [InputStream] object. *)
Record t := mk {
  name : jsstring;
  _index : Z;
  strdata : jsstring;
  decodeToUnicodeCodePoints : bool;
  data : list Z;
  _size : Z
}.

(** [new InputStream(data, decodeToUnicodeCodePoints)]. *)
Definition new (isBrowser : bool) (input : jsstring) (decode : bool)
    : Res t :=
  let outer := module_scope isBrowser in
  let! d := (if decode then decodeUnicodeCodePoints outer input
             else decodeCharacterCodes outer input) in
  Ok {| name := lit "<empty>"; _index := 0; strdata := input;
        decodeToUnicodeCodePoints := decode; data := d; _size := len d |}.

Definition index (s : t) : Z := _index s.
Definition size (s : t) : Z := _size s.

(** [consume()]: throws at or past the end, otherwise steps by one. *)
Definition consume (s : t) : Res t :=
  if size s <=? index s then Raise (Error "cannot consume EOF")
  else Ok {| name := name s; _index := _index s + 1; strdata := strdata s;
             decodeToUnicodeCodePoints := decodeToUnicodeCodePoints s;
             data := data s; _size := _size s |}.

(** [Token.EOF]. *)
Definition EOF : Z := -1.

(** [LA(offset)].  Inside the bounds the element exists, [_size] being
    the length of [data]. *)
Definition LA (s : t) (offset : Z) : Z :=
  if offset =? 0 then 0
  else
    let offset := if offset <? 0 then offset + 1 else offset in
    let pos := index s + offset - 1 in
    if (pos <? 0) || (size s <=? pos) then EOF
    else match at_index (data s) pos with Some c => c | None => EOF end.

(** [mark()] and [release(marker)] keep no state. *)
Definition mark (s : t) : Z := -1.

(** [seek(index)]. *)
Definition seek (s : t) (i : Z) : t :=
  {| name := name s;
     _index := if i <=? index s then i else Z.min i (size s);
     strdata := strdata s;
     decodeToUnicodeCodePoints := decodeToUnicodeCodePoints s;
     data := data s; _size := _size s |}.

(** [s.slice(from, to)] with its treatment of negative and overlong
    bounds. *)
Definition slice (s : jsstring) (from to : Z) : jsstring :=
  let n := len s in
  let clamp k := if k <? 0 then Z.max (n + k) 0 else Z.min k n in
  let a := clamp from in
  let b := clamp to in
  take (Z.to_nat (b - a)) (drop (Z.to_nat a) s).

(** [String.fromCodePoint(c)], [c] being an array element that may be
    [undefined]. *)
Definition fromCodePoint (c : option Z) : Res jsstring :=
  match c with
  | None => Raise (RangeError "Invalid code point undefined")
  | Some cp =>
      if (cp <? 0) || (0x10FFFF <? cp)
      then Raise (RangeError "Invalid code point")
      else if cp <=? 0xFFFF then Ok [cp]
      else Ok [ (cp - 0x10000) / 0x400 + 0xD800;
                (cp - 0x10000) mod 0x400 + 0xDC00 ]
  end.

Fixpoint getText_loop (n : nat) (d : list Z) (i : Z) (result : jsstring)
    : Res jsstring :=
  match n with
  | O => Ok result
  | S n' =>
      let! c := fromCodePoint (at_index d i) in
      getText_loop n' d (i + 1) (result ++ c)
  end.

(** [getText(start, stop)]. *)
Definition getText (s : t) (start stop : Z) : Res jsstring :=
  let stop := if size s <=? stop then size s - 1 else stop in
  if size s <=? start then Ok []
  else if decodeToUnicodeCodePoints s
  then getText_loop (Z.to_nat (stop - start + 1)) (data s) start []
  else Ok (slice (strdata s) start (stop + 1)).

(** [reset()]. *)
Definition reset (s : t) : t :=
  {| name := name s; _index := 0; strdata := strdata s;
     decodeToUnicodeCodePoints := decodeToUnicodeCodePoints s;
     data := data s; _size := _size s |}.

(** [consume()] called [n] times in a row. *)
Fixpoint consume_times (n : nat) (s : t) : Res t :=
  match n with
  | O => Ok s
  | S n' => let! s' := consume s in consume_times n' s'
  end.

End InputStream.

(** ** tokens/Token.js: Token and CommonToken *)

Module Token.

Definition INVALID_TYPE : Z := 0.
Definition EPSILON : Z := -2.
Definition MIN_USER_TOKEN_TYPE : Z := 1.
Definition EOF : Z := -1.
Definition DEFAULT_CHANNEL : Z := 0.
Definition HIDDEN_CHANNEL : Z := 1.

(** The pair [[tokenSource, inputStream]] a token keeps.  Of the token
    source only [line] and [column] are ever read through the pair. *)
Record SourcePair := mkPair {
  pair_lexer : option (Z * Z);
  pair_input : option InputStream.t
}.

(** [CommonToken.EMPTY_SOURCE]. *)
Definition EMPTY_SOURCE : SourcePair :=
  {| pair_lexer := None; pair_input := None |}.

(** The fields assigned by the [Token] constructor.  [channel] is kept
    as a raw value because callers store non-numbers in it; [line] and
    [column] are [null] until assigned. *)
Record t := mk {
  source : SourcePair;
  type : Z;
  channel : Val;
  start : Z;
  stop : Z;
  tokenIndex : Z;
  line : option Z;
  column : option Z;
  _text : option jsstring
}.

(** [new CommonToken(source, type, channel, start, stop)]: the line and
    column read from the token source are computed and then dropped,
    the call to [super] passing six arguments. *)
Definition CommonToken (source : SourcePair) (type : Z) (channel : Val)
    (start stop : Z) : t :=
  let line := match pair_lexer source with Some (l, _) => l | None => -1 end in
  let column := match pair_lexer source with Some (_, c) => c | None => -1 end in
  {| source := source; type := type; channel := channel;
     start := start; stop := stop; tokenIndex := -1;
     line := None; column := None; _text := None |}.

Definition set_line (tk : t) (v : Z) : t :=
  {| source := source tk; type := type tk; channel := channel tk;
     start := start tk; stop := stop tk; tokenIndex := tokenIndex tk;
     line := Some v; column := column tk; _text := _text tk |}.

Definition set_column (tk : t) (v : Z) : t :=
  {| source := source tk; type := type tk; channel := channel tk;
     start := start tk; stop := stop tk; tokenIndex := tokenIndex tk;
     line := line tk; column := Some v; _text := _text tk |}.

Definition set_tokenIndex (tk : t) (v : Z) : t :=
  {| source := source tk; type := type tk; channel := channel tk;
     start := start tk; stop := stop tk; tokenIndex := v;
     line := line tk; column := column tk; _text := _text tk |}.

(** [token.text = v] on a [CommonToken].  The class declares [get text]
    alone, which hides the accessor pair of [Token]; assigning through
    a getter-only accessor throws in strict code, and module code is
    strict. *)
Definition set_text (tk : t) (v : option jsstring) : Res t :=
  Raise (TypeError "Cannot set property text which has only a getter").

(** [token.text] on a [CommonToken]; [None] is [null]. *)
Definition text (tk : t) : Res (option jsstring) :=
  match _text tk with
  | Some s => Ok (Some s)
  | None =>
      match pair_input (source tk) with
      | None => Ok None
      | Some input =>
          let size := InputStream.size input in
          if (start tk <? size) && (stop tk <? size)
          then let! s := InputStream.getText input (start tk) (stop tk) in
               Ok (Some s)
          else Ok (Some (lit "<EOF>"))
      end
  end.

(** [CommonToken.FromObject({source, type, channel, start, stop})]. *)
Definition FromObject (tk : t) : t :=
  CommonToken (source tk) (type tk) (channel tk) (start tk) (stop tk).

(** [clone()]: the destructuring reads [this.text] through the getter;
    the copy gets the index, line and column and then its [text] is
    assigned. *)
Definition clone (tk : t) : Res t :=
  let! text := text tk in
  let token := FromObject tk in
  let token :=
    {| source := source token; type := type token; channel := channel token;
       start := start token; stop := stop token; tokenIndex := tokenIndex tk;
       line := line tk; column := column tk; _text := _text token |} in
  set_text token text.

(** [new CommonToken(source, type)] where [source] may be [null]: the
    constructor reads [source[0]] first. *)
Definition CommonToken_of (source : option SourcePair) (type : Z) : Res t :=
  match source with
  | None => Raise (TypeError "Cannot read properties of null (reading '0')")
  | Some sp => Ok (CommonToken sp type (VNum DEFAULT_CHANNEL) (-1) (-1))
  end.

End Token.

(** ** CommonTokenFactory.js *)

Module CommonTokenFactory.

Record t := mk { copyText : bool }.

(** [new CommonTokenFactory()], the value [DEFAULT] is declared with. *)
Definition DEFAULT : t := {| copyText := false |}.

Definition of_text (text : option jsstring) : Val :=
  match text with Some s => VStr s | None => VNull end.

(** [create(source, type, text, channel, start, stop, line, column)].
    The constructor is called with [text] where it takes the channel,
    [channel] where it takes the start and [stop] where it takes the
    stop; further arguments are ignored by it. *)
Definition create (f : t) (source : Token.SourcePair) (type : Z)
    (text : option jsstring) (channel start stop line column : Z)
    : Res Token.t :=
  let token := Token.CommonToken source type (of_text text) channel stop in
  let token := Token.set_line token line in
  let token := Token.set_column token column in
  match text with
  | Some _ => Token.set_text token text
  | None =>
      match copyText f, Token.pair_input source with
      | true, Some input =>
          let! copied := InputStream.getText input start stop in
          Token.set_text token (Some copied)
      | _, _ => Ok token
      end
  end.

(** [createThin(type, text)]. *)
Definition createThin (f : t) (type : Z) (text : option jsstring)
    : Res Token.t :=
  let! token := Token.CommonToken_of None type in
  Token.set_text token text.

End CommonTokenFactory.

(** ** Methods that mutate their object: state passing with exceptions *)

Module St.

(** How a call ends: normally with a value, by a [throw], or with the
    model's loop budget used up.  The state at that point is kept in
    the first two cases. *)
Inductive Outcome (S A : Type) :=
| Done (a : A) (s : S)
| Thrown (e : Exn) (s : S)
| OutOfFuel.
Arguments Done {S A} a s.
Arguments Thrown {S A} e s.
Arguments OutOfFuel {S A}.

Definition M (S A : Type) : Type := S -> Outcome S A.

Definition ret {S A} (a : A) : M S A := fun s => Done a s.

Definition bind {S A B} (m : M S A) (k : A -> M S B) : M S B :=
  fun s =>
    match m s with
    | Done a s' => k a s'
    | Thrown e s' => Thrown e s'
    | OutOfFuel => OutOfFuel
    end.

Definition throw {S A} (e : Exn) : M S A := fun s => Thrown e s.
Definition get {S} : M S S := fun s => Done s s.
Definition gets {S A} (f : S -> A) : M S A := fun s => Done (f s) s.
Definition put {S} (s : S) : M S unit := fun _ => Done tt s.
Definition modify {S} (f : S -> S) : M S unit := fun s => Done tt (f s).
Definition spent {S A} : M S A := fun _ => OutOfFuel.

(** An expression that may throw but changes nothing. *)
Definition lift {S A} (r : Res A) : M S A :=
  fun s => match r with Ok a => Done a s | Raise e => Thrown e s end.

Definition when {S} (c : bool) (m : M S unit) : M S unit :=
  if c then m else ret tt.

End St.
Import St.

Notation "'let*' x ':=' m 'in' k" := (St.bind m (fun x => k))
  (at level 10, x name, m at level 100, k at level 200, only parsing).
Notation "m ';;' k" := (St.bind m (fun _ => k))
  (at level 100, k at level 200, right associativity, only parsing).

(** ** Lexer.js *)

Module Lexer.

Definition DEFAULT_MODE : Z := 0.
Definition MORE : Z := -2.
Definition SKIP : Z := -3.
Definition DEFAULT_TOKEN_CHANNEL : Z := Token.DEFAULT_CHANNEL.
Definition HIDDEN : Z := Token.HIDDEN_CHANNEL.

(** One call of [listener.syntaxError(this, null, line, column, msg, e)]. *)
Record SyntaxError := mkSyntaxError {
  se_line : Z;
  se_column : Z;
  se_msg : jsstring;
  se_exn : Exn
}.

(** The fields of a lexer.  [line] and [column] are those of [_interp];
    [reported] lists the calls received by the listener dispatch.  The
    class declares neither [_interp] nor [getErrorListenerDispatch]:
    both come with the instance, the first as the matcher below, the
    second as this log. *)
Record t := mk {
  _input : option InputStream.t;
  _factory : CommonTokenFactory.t;
  line : Z;
  column : Z;
  _token : option Token.t;
  _tokenStartCharIndex : Z;
  _tokenStartLine : Z;
  _tokenStartColumn : Z;
  _hitEOF : bool;
  _channel : Z;
  _type : Z;
  _modeStack : list Z;
  _mode : Z;
  _text : option jsstring;
  reported : list SyntaxError
}.

Definition set_input (v : option InputStream.t) (l : t) : t :=
  mk v (_factory l) (line l) (column l) (_token l) (_tokenStartCharIndex l)
     (_tokenStartLine l) (_tokenStartColumn l) (_hitEOF l) (_channel l)
     (_type l) (_modeStack l) (_mode l) (_text l) (reported l).

Definition set_token (v : option Token.t) (l : t) : t :=
  mk (_input l) (_factory l) (line l) (column l) v (_tokenStartCharIndex l)
     (_tokenStartLine l) (_tokenStartColumn l) (_hitEOF l) (_channel l)
     (_type l) (_modeStack l) (_mode l) (_text l) (reported l).

(** The assignments that open an attempt in [nextToken]. *)
Definition begin_token (l : t) (charIndex : Z) : t :=
  mk (_input l) (_factory l) (line l) (column l) None charIndex
     (line l) (column l) (_hitEOF l) Token.DEFAULT_CHANNEL
     (_type l) (_modeStack l) (_mode l) None (reported l).

Definition set_hitEOF (v : bool) (l : t) : t :=
  mk (_input l) (_factory l) (line l) (column l) (_token l)
     (_tokenStartCharIndex l) (_tokenStartLine l) (_tokenStartColumn l) v
     (_channel l) (_type l) (_modeStack l) (_mode l) (_text l) (reported l).

Definition set_type (v : Z) (l : t) : t :=
  mk (_input l) (_factory l) (line l) (column l) (_token l)
     (_tokenStartCharIndex l) (_tokenStartLine l) (_tokenStartColumn l)
     (_hitEOF l) (_channel l) v (_modeStack l) (_mode l) (_text l)
     (reported l).

Definition add_report (r : SyntaxError) (l : t) : t :=
  mk (_input l) (_factory l) (line l) (column l) (_token l)
     (_tokenStartCharIndex l) (_tokenStartLine l) (_tokenStartColumn l)
     (_hitEOF l) (_channel l) (_type l) (_modeStack l) (_mode l) (_text l)
     (reported l ++ [r]).

(** [this._input] where a property of it is read next. *)
Definition input : M t InputStream.t :=
  let* l := get in
  match _input l with
  | Some i => ret i
  | None => throw (TypeError "Cannot read properties of null")
  end.

(** [getCharIndex()]. *)
Definition getCharIndex : M t Z :=
  let* i := input in ret (InputStream.index i).

(** [this._tokenFactorySourcePair], the pair [[this, this._input]]. *)
Definition sourcePair (l : t) : Token.SourcePair :=
  {| Token.pair_lexer := Some (line l, column l);
     Token.pair_input := _input l |}.

(** [emitToken(token)]. *)
Definition emitToken (token : Token.t) : M t unit :=
  modify (set_token (Some token)).

(** [emit()]. *)
Definition emit : M t Token.t :=
  let* l := get in
  let* charIndex := getCharIndex in
  let* token := lift (CommonTokenFactory.create (_factory l) (sourcePair l)
                        (_type l) (_text l) (_channel l)
                        (_tokenStartCharIndex l) (charIndex - 1)
                        (_tokenStartLine l) (_tokenStartColumn l)) in
  emitToken token ;;
  ret token.

(** [emitEOF()]. *)
Definition emitEOF : M t Token.t :=
  let* l := get in
  let* i := input in
  let* eof := lift (CommonTokenFactory.create (_factory l) (sourcePair l)
                      Token.EOF None Token.DEFAULT_CHANNEL
                      (InputStream.index i) (InputStream.index i - 1)
                      (line l) (column l)) in
  emitToken eof ;;
  ret eof.

(** [getErrorDisplay(string)] pushes each unit of the string and joins
    them again. *)
Definition getErrorDisplay (s : jsstring) : jsstring :=
  concat (map (fun c => [c]) s).

(** [notifyListeners(e)]. *)
Definition notifyListeners (e : Exn) : M t unit :=
  let* l := get in
  let start := _tokenStartCharIndex l in
  let* i := input in
  let stop := InputStream.index i in
  let* text := lift (InputStream.getText i start stop) in
  let msg := lit "token recognition error at: " ++ getErrorDisplay text in
  modify (add_report {| se_line := _tokenStartLine l;
                        se_column := _tokenStartColumn l;
                        se_msg := msg; se_exn := e |}).

(** [e instanceof RecognitionException] and
    [e instanceof LexerNoViableAltException]. *)
Definition isRecognitionException (e : Exn) : bool :=
  match e with RecognitionException _ => true | _ => false end.
Definition isLexerNoViableAlt (e : Exn) : bool :=
  match e with RecognitionException b => b | _ => false end.

Section WithMatcher.
(** The matching engine [_interp]: [match(input, mode)] returns a
    token type or throws, and may move the cursor, update the line
    and column and run lexer actions; [consume(input)] advances the
    cursor by one symbol. *)
Variable interp_match : M t Z.
Variable interp_consume : M t unit.

(** [recover(re)]. *)
Definition recover (re : Exn) : M t unit :=
  let* i := input in
  if InputStream.LA i 1 =? Token.EOF then
    let* i' := lift (InputStream.consume i) in
    modify (set_input (Some i'))
  else if isLexerNoViableAlt re then interp_consume
  else ret tt.

(** The [try]/[catch] around the call of the matcher; [ttype] is
    [SKIP] unless the matcher returns. *)
Definition try_match : M t Z :=
  fun l =>
    match interp_match l with
    | Done ttype l' => Done ttype l'
    | Thrown e l' =>
        if isRecognitionException e
        then (notifyListeners e ;; recover e ;; ret SKIP) l'
        else Thrown e l'
    | OutOfFuel => OutOfFuel
    end.

(** How the inner [while (true)] is left. *)
Inductive Exit := ContinueOuter | Break.

Fixpoint match_loop (fuel : nat) : M t Exit :=
  match fuel with
  | O => spent
  | S fuel' =>
      modify (set_type Token.INVALID_TYPE) ;;
      let* ttype := try_match in
      let* i := input in
      when (InputStream.LA i 1 =? Token.EOF) (modify (set_hitEOF true)) ;;
      let* l := get in
      when (_type l =? Token.INVALID_TYPE) (modify (set_type ttype)) ;;
      let* l := get in
      if _type l =? SKIP then ret ContinueOuter
      else if _type l =? MORE then ret Break
      else match_loop fuel'
  end.

Fixpoint scan_loop (fuel : nat) : M t (option Token.t) :=
  match fuel with
  | O => spent
  | S fuel' =>
      let* l := get in
      if _hitEOF l then
        emitEOF ;;
        gets _token
      else
        let* i := input in
        modify (fun l => begin_token l (InputStream.index i)) ;;
        let* exit := match_loop fuel' in
        match exit with
        | ContinueOuter => scan_loop fuel'
        | Break =>
            let* l := get in
            match _token l with
            | None => emit ;; gets _token
            | Some tk => ret (Some tk)
            end
        end
  end.

(** [nextToken()].  [mark] and [release] of the cursor keep no
    state, so the [finally] clause changes nothing. *)
Definition nextToken (fuel : nat) : M t (option Token.t) :=
  let* l := get in
  match _input l with
  | None => throw (Error "nextToken requires a non-null input stream")
  | Some _ => scan_loop fuel
  end.
End WithMatcher.

(** [skip()], [more()] and [mode(mode)]. *)
Definition skip : M t unit := modify (set_type SKIP).
Definition more : M t unit := modify (set_type MORE).

Definition set_modes (stack : list Z) (m : Z) (l : t) : t :=
  mk (_input l) (_factory l) (line l) (column l) (_token l)
     (_tokenStartCharIndex l) (_tokenStartLine l) (_tokenStartColumn l)
     (_hitEOF l) (_channel l) (_type l) stack m (_text l) (reported l).

Definition mode (m : Z) : M t unit :=
  modify (fun l => set_modes (_modeStack l) m l).

(** [pushMode(mode)] on a lexer whose matcher [_interp] is set, as
    the generated lexers set it; the message logged when the matcher's
    [debug] flag is set changes nothing. *)
Definition pushMode (m : Z) : M t unit :=
  modify (fun l => set_modes (_modeStack l ++ [_mode l]) (_mode l) l) ;;
  mode m.

(** [popMode()]: [Array.prototype.pop] removes and returns the last
    element. *)
Definition popMode : M t Z :=
  let* l := get in
  if len (_modeStack l) =? 0 then throw (Error "Empty Stack")
  else
    match last (_modeStack l) with
    | None => throw (Error "Empty Stack")
    | Some top =>
        modify (fun l => set_modes (removelast (_modeStack l)) (_mode l) l) ;;
        mode top ;;
        gets _mode
    end.

Section AllTokens.
Variable interp_match : M t Z.
Variable interp_consume : M t unit.

(** The test [token.isPrototypeOf !== Token.EOF] of [getAllTokens]:
    reading the property of [null] throws; on a token it yields the
    method inherited from [Object.prototype], which is not the number
    [Token.EOF]. *)
Definition not_EOF_test (token : option Token.t) : M t bool :=
  match token with
  | None => throw (TypeError "Cannot read properties of null (reading 'isPrototypeOf')")
  | Some _ => ret true
  end.

Fixpoint getAllTokens_loop (fuel : nat) (tokens : list Token.t)
    (token : option Token.t) : M t (list Token.t) :=
  match fuel with
  | O => spent
  | S fuel' =>
      let* go := not_EOF_test token in
      if go then
        let tokens :=
          match token with Some tk => tokens ++ [tk] | None => tokens end in
        let* next := nextToken interp_match interp_consume fuel' in
        getAllTokens_loop fuel' tokens next
      else ret tokens
  end.

(** [getAllTokens()]. *)
Definition getAllTokens (fuel : nat) : M t (list Token.t) :=
  let* token := nextToken interp_match interp_consume fuel in
  getAllTokens_loop fuel [] token.
End AllTokens.

End Lexer.

(** ** tokens/BufferedTokenStream.js, and the CommonTokenStream that
       extends it *)

Module TokenStream.

(** The class of the object; method calls through [this] dispatch on
    it. *)
Inductive Kind := Buffered | Common.

(** The fields of a stream.  The token source is seen through the
    tokens its successive [nextToken()] calls return, [pulled] counting
    the calls made: a call that throws or does not return is not
    represented, and a statement that lets the stream call its source
    says what the calls it relies on return.  [channel] is
    [this.channel], which a BufferedTokenStream does not define. *)
Record t := mk {
  kind : Kind;
  tokenSource : nat -> Token.t;
  pulled : nat;
  tokens : list Token.t;
  index : Z;
  fetchedEOF : bool;
  channel : Val
}.

(** [new BufferedTokenStream(tokenSource)]. *)
Definition BufferedTokenStream (src : nat -> Token.t) : t :=
  {| kind := Buffered; tokenSource := src; pulled := O; tokens := [];
     index := -1; fetchedEOF := false; channel := VUndefined |}.

(** [new CommonTokenStream(lexer, channel)]. *)
Definition CommonTokenStream (src : nat -> Token.t) (channel : Z) : t :=
  {| kind := Common; tokenSource := src; pulled := O; tokens := [];
     index := -1; fetchedEOF := false; channel := VNum channel |}.

Definition set_index (v : Z) (s : t) : t :=
  mk (kind s) (tokenSource s) (pulled s) (tokens s) v (fetchedEOF s)
     (channel s).

Definition set_fetchedEOF (v : bool) (s : t) : t :=
  mk (kind s) (tokenSource s) (pulled s) (tokens s) (index s) v (channel s).

(** [token = this.tokenSource.nextToken(); token.tokenIndex =
    this.tokens.length; this.tokens.push(token)]. *)
Definition pull (s : t) : Token.t * t :=
  let token :=
    Token.set_tokenIndex (tokenSource s (pulled s)) (len (tokens s)) in
  (token,
   mk (kind s) (tokenSource s) (S (pulled s)) (tokens s ++ [token])
      (index s) (fetchedEOF s) (channel s)).

(** [setTokenSource(tokenSource)]. *)
Definition setTokenSource (src : nat -> Token.t) (s : t) : t :=
  mk (kind s) src O [] (-1) false (channel s).

(** A value that is a token, [null] or [undefined]. *)
Inductive Slot :=
| SNull
| SUndefined
| STok (tk : Token.t).

Definition slot_at (l : list Token.t) (i : Z) : Slot :=
  match at_index l i with Some tk => STok tk | None => SUndefined end.

(** Reading a property of a slot. *)
Definition deref {S} (what : string) (x : Slot) : M S Token.t :=
  match x with
  | STok tk => ret tk
  | _ => throw (TypeError what)
  end.

(** The body of the [for] of [fetch]: [Some r] when the loop returns
    [r] from inside, [None] when it runs to completion. *)
Fixpoint fetch_loop (todo : nat) (i : Z) : M t (option Z) :=
  match todo with
  | O => ret None
  | S todo' =>
      let* s := get in
      let (token, s') := pull s in
      put s' ;;
      if Token.type token =? Token.EOF then
        modify (set_fetchedEOF true) ;;
        ret (Some (i + 1))
      else fetch_loop todo' (i + 1)
  end.

(** [fetch(elementsToBuffer)]. *)
Definition fetch (elementsToBuffer : Z) : M t Z :=
  let* s := get in
  if fetchedEOF s then ret 0
  else
    let* r := fetch_loop (Z.to_nat elementsToBuffer) 0 in
    match r with
    | Some n => ret n
    | None => ret elementsToBuffer
    end.

(** [sync(index)]. *)
Definition sync (i : Z) : M t bool :=
  let* s := get in
  let elementsNeeded := i - len (tokens s) + 1 in
  if 0 <? elementsNeeded then
    let* fetched := fetch elementsNeeded in
    ret (elementsNeeded <=? fetched)
  else ret true.

(** The [while] of [nextTokenOnChannel]. *)
Fixpoint nextTokenOnChannel_loop (fuel : nat) (i : Z) (token : Slot)
    : M t Z :=
  match fuel with
  | O => spent
  | S fuel' =>
      let* tk := deref "token.channel" token in
      let* s := get in
      if negb (strict_eq (Token.channel tk) (channel s)) then
        if Token.type tk =? Token.EOF then ret (-1)
        else
          let i := i + 1 in
          sync i ;;
          let* s := get in
          nextTokenOnChannel_loop fuel' i (slot_at (tokens s) i)
      else ret i
  end.

(** [nextTokenOnChannel(index, channel)].  The loop test compares with
    [this.channel], not with the parameter. *)
Definition nextTokenOnChannel (fuel : nat) (i : Z) (chan : Val) : M t Z :=
  sync i ;;
  let* s := get in
  if len (tokens s) <=? i then ret (-1)
  else nextTokenOnChannel_loop fuel i (slot_at (tokens s) i).

(** The [while] of [previousTokenOnChannel], at most [n] steps. *)
Fixpoint previousTokenOnChannel_loop (n : nat) (l : list Token.t) (i : Z)
    (chan : Val) : Res Z :=
  if 0 <=? i then
    match at_index l i with
    | None => Raise (TypeError "tokens[index].channel")
    | Some tk =>
        if negb (strict_eq (Token.channel tk) chan) then
          match n with
          | O => Ok (i - 1)
          | S n' => previousTokenOnChannel_loop n' l (i - 1) chan
          end
        else Ok i
    end
  else Ok i.

(** [previousTokenOnChannel(index, channel)]. *)
Definition previousTokenOnChannel (i : Z) (chan : Val) : M t Z :=
  let* s := get in
  lift (previousTokenOnChannel_loop (Z.to_nat i) (tokens s) i chan).

(** [adjustSeekIndex(index)]: the identity, overridden by
    CommonTokenStream. *)
Definition adjustSeekIndex (fuel : nat) (i : Z) : M t Z :=
  let* s := get in
  match kind s with
  | Buffered => ret i
  | Common => nextTokenOnChannel fuel i (channel s)
  end.

(** [setup()]. *)
Definition setup (fuel : nat) : M t unit :=
  sync 0 ;;
  let* i := adjustSeekIndex fuel 0 in
  modify (set_index i).

(** [lazyInit()]. *)
Definition lazyInit (fuel : nat) : M t unit :=
  let* s := get in
  if index s =? -1 then setup fuel else ret tt.

(** [seek(index)]. *)
Definition seek (fuel : nat) (i : Z) : M t unit :=
  lazyInit fuel ;;
  let* i' := adjustSeekIndex fuel i in
  modify (set_index i').

(** [get(index)]. *)
Definition get_ (fuel : nat) (i : Z) : M t Slot :=
  lazyInit fuel ;;
  let* s := get in
  ret (slot_at (tokens s) i).

(** The [while (n <= k)] of [CommonTokenStream.LB]. *)
Fixpoint LB_loop (todo : nat) (i : Z) : M t Z :=
  match todo with
  | O => ret i
  | S todo' =>
      let* s := get in
      let* i' := previousTokenOnChannel (i - 1) (channel s) in
      LB_loop todo' i'
  end.

(** [LB(k)]. *)
Definition LB (k : Z) : M t Slot :=
  let* s := get in
  match kind s with
  | Buffered =>
      if index s - k <? 0 then ret SNull
      else ret (slot_at (tokens s) (index s - k))
  | Common =>
      if (k =? 0) || (index s - k <? 0) then ret SNull
      else
        let* i := LB_loop (Z.to_nat k) (index s) in
        if i <? 0 then ret SNull
        else
          let* s := get in
          ret (slot_at (tokens s) i)
  end.

(** The [while (n < k)] of [CommonTokenStream.LT]. *)
Fixpoint LT_loop (fuel : nat) (todo : nat) (i : Z) : M t Z :=
  match todo with
  | O => ret i
  | S todo' =>
      let* resident := sync (i + 1) in
      let* s := get in
      let* i' := (if resident
                  then nextTokenOnChannel fuel (i + 1) (channel s)
                  else ret i) in
      LT_loop fuel todo' i'
  end.

(** [LT(k)]. *)
Definition LT (fuel : nat) (k : Z) : M t Slot :=
  lazyInit fuel ;;
  let* s := get in
  match kind s with
  | Buffered =>
      if k =? 0 then LB (- k)
      else
        let i := index s + k - 1 in
        sync i ;;
        let* s := get in
        if len (tokens s) <=? i
        then ret (slot_at (tokens s) (len (tokens s) - 1))
        else ret (slot_at (tokens s) i)
  | Common =>
      if k =? 0 then ret SNull
      else if k <? 0 then LB (- k)
      else
        let* i := LT_loop fuel (Z.to_nat (k - 1)) (index s) in
        let* s := get in
        ret (slot_at (tokens s) i)
  end.

(** [LA(index)]. *)
Definition LA (fuel : nat) (i : Z) : M t Z :=
  let* x := LT fuel i in
  let* tk := deref "LT(index).type" x in
  ret (Token.type tk).

(** [consume()].  [isEOF - 1] is the number 0 when [isEOF] is [true]
    and -1 when it is [false]. *)
Definition consume (fuel : nat) : M t unit :=
  let* s := get in
  let skipEOFCheck :=
    if 0 <=? index s then
      let isEOF := index s <? len (tokens s) in
      if fetchedEOF s then VNum ((if isEOF then 1 else 0) - 1)
      else VBool isEOF
    else VBool false in
  let* atEOF := (if negb (truthy skipEOFCheck)
                 then let* la := LA fuel 1 in ret (la =? Token.EOF)
                 else ret false) in
  if atEOF then throw (Error "cannot consume EOF")
  else
    let* s := get in
    let* resident := sync (index s + 1) in
    if resident then
      let* s := get in
      let* i := adjustSeekIndex fuel (index s + 1) in
      modify (set_index i)
    else ret tt.

(** The [for] of [filterForChannel]. *)
Fixpoint filterForChannel_loop (todo : nat) (l : list Token.t) (i : Z)
    (chan : Val) (hidden : list Token.t) : Res (list Token.t) :=
  match todo with
  | O => Ok hidden
  | S todo' =>
      match at_index l i with
      | None => Raise (TypeError "token.channel")
      | Some token =>
          let keep :=
            if strict_eq chan (VNum (-1))
            then negb (strict_eq (Token.channel token)
                         (VNum Lexer.DEFAULT_TOKEN_CHANNEL))
            else strict_eq (Token.channel token) chan in
          filterForChannel_loop todo' l (i + 1) chan
            (if keep then hidden ++ [token] else hidden)
      end
  end.

(** [filterForChannel(left, right, channel)]; [None] is [null]. *)
Definition filterForChannel (left right : Z) (chan : Val)
    : M t (option (list Token.t)) :=
  let* s := get in
  let* hidden := lift (filterForChannel_loop (Z.to_nat (right + 1 - left))
                         (tokens s) left chan []) in
  if len hidden =? 0 then ret None else ret (Some hidden).

(** The message of the bounds error of the hidden-token queries. *)
Definition not_in_range (tokenIndex : Z) (s : t) : string :=
  (pretty tokenIndex ++ " not in 0.." ++ pretty (len (tokens s) - 1))%string.

(** [getHiddenTokensToLeft(tokenIndex, channel)]. *)
Definition getHiddenTokensToLeft (fuel : nat) (tokenIndex : Z) (chan : Val)
    : M t (option (list Token.t)) :=
  let chan := if loose_null chan then VNum (-1) else chan in
  lazyInit fuel ;;
  let* s := get in
  if (tokenIndex <? 0) || (len (tokens s) <=? tokenIndex)
  then throw (Error (not_in_range tokenIndex s))
  else
    let* prevOnChannel :=
      previousTokenOnChannel (tokenIndex - 1)
        (VNum Lexer.DEFAULT_TOKEN_CHANNEL) in
    if negb (truthy (VNum prevOnChannel)) then ret None
    else
      let from := prevOnChannel + 1 in
      let to := tokenIndex - 1 in
      filterForChannel from to chan.

(** [getHiddenTokensToRigh(tokenIndex, channel)]. *)
Definition getHiddenTokensToRigh (fuel : nat) (tokenIndex : Z) (chan : Val)
    : M t (option (list Token.t)) :=
  let chan := if loose_null chan then VNum (-1) else chan in
  lazyInit fuel ;;
  let* s := get in
  if (tokenIndex <? 0) || (len (tokens s) <=? tokenIndex)
  then throw (Error (not_in_range tokenIndex s))
  else
    let* nextOnChannel :=
      nextTokenOnChannel fuel (tokenIndex + 1)
        (VNum Lexer.DEFAULT_TOKEN_CHANNEL) in
    let from := tokenIndex + 1 in
    let* s := get in
    let to := if nextOnChannel =? -1 then len (tokens s) - 1
              else nextOnChannel in
    filterForChannel from to chan.

(** The [while (this.fetch(fillValue) === fillValue) {}] of [fill]. *)
Fixpoint fill_loop (fuel : nat) : M t unit :=
  match fuel with
  | O => spent
  | S fuel' =>
      let* n := fetch 1000 in
      if n =? 1000 then fill_loop fuel' else ret tt
  end.

(** [fill()]. *)
Definition fill (fuel : nat) : M t unit :=
  lazyInit fuel ;;
  fill_loop fuel.

(** [tokenText += token.text], [null] being appended as its name. *)
Definition append_text (tokenText : jsstring) (text : option jsstring)
    : jsstring :=
  tokenText ++ match text with Some x => x | None => lit "null" end.

(** The [for] of [getText]. *)
Fixpoint getText_loop (todo : nat) (l : list Token.t) (i : Z)
    (tokenText : jsstring) : Res jsstring :=
  match todo with
  | O => Ok tokenText
  | S todo' =>
      match at_index l i with
      | None => Raise (TypeError "token.type")
      | Some token =>
          if Token.type token =? Token.EOF then Ok tokenText
          else
            let! text := Token.text token in
            getText_loop todo' l (i + 1) (append_text tokenText text)
      end
  end.

(** [getText(interval)], the interval being absent or a pair of
    numbers. *)
Definition getText (fuel : nat) (interval : option (Z * Z)) : M t jsstring :=
  lazyInit fuel ;;
  fill fuel ;;
  let* s := get in
  let (start, stop) :=
    match interval with
    | Some p => p
    | None => (0, len (tokens s) - 1)
    end in
  if (start <? 0) || (stop <? 0) then ret []
  else
    let stop := if len (tokens s) <=? stop then len (tokens s) - 1
                else stop in
    lift (getText_loop (Z.to_nat (stop + 1 - start)) (tokens s) start []).

(** What [this.tokens] can hold once [getTokens] has assigned to it:
    the array, one of its tokens, or [undefined]. *)
Inductive TokensField :=
| FArray (l : list Token.t)
| FToken (tk : Token.t)
| FUndefined.

(** [this.tokens[i]]: a token object has no indexed property. *)
Definition field_at (f : TokensField) (i : Z) : option Token.t :=
  match f with
  | FArray l => at_index l i
  | _ => None
  end.

(** The [for] of [getTokens], whose first statement is
    [const token = this.tokens = this.tokens[i]].  Returns the outcome
    together with the final value of [this.tokens]. *)
Fixpoint getTokens_loop (todo : nat) (i : Z) (types : option (Z -> bool))
    (f : TokensField) (subset : list Token.t)
    : Res (list Token.t) * TokensField :=
  match todo with
  | O => (Ok subset, f)
  | S todo' =>
      match field_at f i with
      | None => (Raise (TypeError "token.type"), FUndefined)
      | Some token =>
          if Token.type token =? Token.EOF then (Ok subset, FToken token)
          else
            let keep :=
              match types with
              | None => true
              | Some contains => contains (Token.type token)
              end in
            getTokens_loop todo' (i + 1) types (FToken token)
              (if keep then subset ++ [token] else subset)
      end
  end.

(** [getTokens(start, stop, types)].  The result pairs what the call
    returns ([None] is [null]) or throws with the value of
    [this.tokens] afterwards; the state holds the other fields. *)
Definition getTokens (fuel : nat) (start stop : Z)
    (types : option (Z -> bool))
    : M t (Res (option (list Token.t)) * TokensField) :=
  if (start <? 0) || (stop <? 0)
  then let* s := get in ret (Ok None, FArray (tokens s))
  else
    lazyInit fuel ;;
    let* s := get in
    let stop := if len (tokens s) <=? stop then len (tokens s) - 1
                else stop in
    let (r, f) := getTokens_loop (Z.to_nat (stop - start)) start types
                    (FArray (tokens s)) [] in
    ret (match r with Ok l => Ok (Some l) | Raise e => Raise e end, f).

(** [reset()]. *)
Definition reset (fuel : nat) : M t unit := seek fuel 0.

(** The [for] of [getNumberOfOnChannelTokens]. *)
Fixpoint count_loop (todo : nat) (l : list Token.t) (i : Z) (chan : Val)
    (n : Z) : Res Z :=
  match todo with
  | O => Ok n
  | S todo' =>
      match at_index l i with
      | None => Raise (TypeError "token.channel")
      | Some token =>
          let n := if strict_eq (Token.channel token) chan then n + 1 else n in
          if Token.type token =? Token.EOF then Ok n
          else count_loop todo' l (i + 1) chan n
      end
  end.

(** [getNumberOfOnChannelTokens()] of a CommonTokenStream. *)
Definition getNumberOfOnChannelTokens (fuel : nat) : M t Z :=
  fill fuel ;;
  let* s := get in
  lift (count_loop (length (tokens s)) (tokens s) 0 (channel s) 0).

End TokenStream.

(** ** Utils.js: the hash-consing Set *)

Module HashSet.

Section WithFunctions.
Context {V : Type}.
(** The two functions given to the constructor. *)
Variable hashFunction : V -> Z.
Variable equalsFunction : V -> V -> bool.

(** [`hash_${hash}`]. *)
Definition key (value : V) : string :=
  ("hash_" ++ pretty (hashFunction value))%string.

(** The linear scan of a bucket: the first entry [values[i]] with
    [equalsFunction(value, values[i])]. *)
Fixpoint scan (value : V) (values : list V) : option V :=
  match values with
  | [] => None
  | x :: rest => if equalsFunction value x then Some x else scan value rest
  end.

(** [add(value)] on [this.data]: the value returned and the data
    afterwards. *)
Definition add (value : V) (data : gmap string (list V))
    : V * gmap string (list V) :=
  match data !! key value with
  | Some values =>
      match scan value values with
      | Some found => (found, data)
      | None => (value, <[key value := values ++ [value]]> data)
      end
  | None => (value, <[key value := [value]]> data)
  end.

(** [get(value)]; [None] is [null]. *)
Definition get (value : V) (data : gmap string (list V)) : option V :=
  match data !! key value with
  | Some values => scan value values
  | None => None
  end.

(** [contains(value)]. *)
Definition contains (value : V) (data : gmap string (list V)) : bool :=
  match get value data with Some _ => true | None => false end.

(** [value] is an entry of some bucket. *)
Definition stored (data : gmap string (list V)) (value : V) : Prop :=
  exists k values, data !! k = Some values /\ value ∈ values.

(** The bucket a value hashes to, empty when the key is absent. *)
Definition bucket (value : V) (data : gmap string (list V)) : list V :=
  default [] (data !! key value).

(** The data of a Set after any sequence of [add] calls on a new
    Set. *)
Inductive reachable : gmap string (list V) -> Prop :=
| reach_new : reachable ∅
| reach_add value data :
    reachable data -> reachable (snd (add value data)).

(** Later entries of a bucket differ from earlier ones. *)
Definition distinct (values : list V) : Prop :=
  forall i j x y,
    (i < j)%nat -> values !! i = Some x -> values !! j = Some y ->
    equalsFunction y x = false.

(** Every bucket sits under the key of its entries and holds no two
    equal entries. *)
Definition well_formed (data : gmap string (list V)) : Prop :=
  forall k values,
    data !! k = Some values ->
    (forall x, x ∈ values -> key x = k) /\ distinct values.
End WithFunctions.

End HashSet.

(** ** Utils.js: BitSet *)

Module BitSet.

(** The values that reach [add]: the non-negative integers callers
    pass (array indices, below the limit of the language), and the
    elements that iterating a data array yields. *)
Inductive Elt :=
| ENum (n : nat)
| ETrue
| EUndefined.

#[global] Instance Elt_eq_dec : EqDecision Elt.
Proof. solve_decision. Defined.

(** [this.data], an array: its indexed slots, [true] where an element
    is present and [false] where there is a hole, and the names of its
    other own properties, each holding [true]. *)
Record t := mk {
  slots : list bool;
  named : list string
}.

(** [new BitSet()]. *)
Definition new : t := {| slots := []; named := [] |}.

(** [arr[n] = true]: the array grows to length [n + 1] when needed. *)
Definition set_slot (n : nat) (l : list bool) : list bool :=
  if decide (n < length l)%nat then <[n := true]> l
  else l ++ replicate (n - length l) false ++ [true].

Definition set_named (x : string) (l : list string) : list string :=
  if decide (x ∈ l) then l else l ++ [x].

(** [add(value)], that is [this.data[value] = true]: an integer
    addresses a slot, any other value the property of its name. *)
Definition add (value : Elt) (s : t) : t :=
  match value with
  | ENum n => {| slots := set_slot n (slots s); named := named s |}
  | ETrue => {| slots := slots s; named := set_named "true" (named s) |}
  | EUndefined =>
      {| slots := slots s; named := set_named "undefined" (named s) |}
  end.

(** [remove(value)], that is [delete this.data[value]]: the length of
    the array is kept. *)
Definition remove (value : Elt) (s : t) : t :=
  match value with
  | ENum n => {| slots := <[n := false]> (slots s); named := named s |}
  | ETrue =>
      {| slots := slots s;
         named := filter (fun x => x ≠ "true"%string) (named s) |}
  | EUndefined =>
      {| slots := slots s;
         named := filter (fun x => x ≠ "undefined"%string) (named s) |}
  end.

(** [contains(value)], that is [this.data[value] === true]. *)
Definition contains (s : t) (value : Elt) : bool :=
  match value with
  | ENum n => default false (slots s !! n)
  | ETrue => bool_decide ("true"%string ∈ named s)
  | EUndefined => bool_decide ("undefined"%string ∈ named s)
  end.

(** What [for (let alt of set.data)] binds [alt] to at a slot: the
    element, or [undefined] at a hole. *)
Definition element (slot : bool) : Elt :=
  if slot then ETrue else EUndefined.

(** [this.or(set)]: [this.add(alt)] for each [alt] of [set.data], in
    index order.  Adding a named property does not change the length
    being iterated, also when [set] is [this]. *)
Definition or (this set : t) : t :=
  fold_left (fun acc slot => add (element slot) acc) (slots set) this.

(** [values()], that is [Object.keys(this.data)]: the indices of the
    present slots in ascending order, then the names. *)
Definition values (s : t) : list string :=
  map (fun n : nat => pretty n)
      (filter (fun n => default false (slots s !! n) = true)
              (seq 0 (length (slots s))))
  ++ named s.

End BitSet.

(** ** Utils.js: Map, AltDict, Hash, escapeWhitespace *)

Module HashMap.

Section WithFunctions.
Context {K V : Type}.
(** The two functions given to the constructor. *)
Variable hashFunction : K -> Z.
Variable equalsFunction : K -> K -> bool.

(** [`hash_${this.hashFunction(key)}`]. *)
Definition hashKey (key : K) : string :=
  ("hash_" ++ pretty (hashFunction key))%string.

(** The scan of [put]: at the first entry whose key equals [key], the
    old value and the bucket with the value replaced. *)
Fixpoint replace (key : K) (value : V) (entries : list (K * V))
    : option (V * list (K * V)) :=
  match entries with
  | [] => None
  | (k, v) :: rest =>
      if equalsFunction key k then Some (v, (k, value) :: rest)
      else
        match replace key value rest with
        | Some (old, rest') => Some (old, (k, v) :: rest')
        | None => None
        end
  end.

(** [put(key, value)]: the value returned and the data afterwards. *)
Definition put (key : K) (value : V) (data : gmap string (list (K * V)))
    : V * gmap string (list (K * V)) :=
  match data !! hashKey key with
  | Some entries =>
      match replace key value entries with
      | Some (oldValue, entries') =>
          (oldValue, <[hashKey key := entries']> data)
      | None => (value, <[hashKey key := entries ++ [(key, value)]]> data)
      end
  | None => (value, <[hashKey key := [(key, value)]]> data)
  end.

(** The scan of [get]. *)
Fixpoint find (key : K) (entries : list (K * V)) : option V :=
  match entries with
  | [] => None
  | (k, v) :: rest => if equalsFunction key k then Some v else find key rest
  end.

(** [get(key)]; [None] is [null]. *)
Definition get (key : K) (data : gmap string (list (K * V))) : option V :=
  match data !! hashKey key with
  | Some entries => find key entries
  | None => None
  end.

(** [this.entries.length] in [containsKey]: [entries] is the method of
    that name, declared without parameters, and the length of a
    function is the number of its parameters. *)
Definition entries_length : Z := 0.

(** [containsKey(key)]: the scan runs over the first
    [this.entries.length] entries of the bucket. *)
Definition containsKey (key : K) (data : gmap string (list (K * V))) : bool :=
  match data !! hashKey key with
  | Some entries =>
      match find key (take (Z.to_nat entries_length) entries) with
      | Some _ => true
      | None => false
      end
  | None => false
  end.
End WithFunctions.

End HashMap.

Module AltDict.

Section WithValues.
Context {V : Type}.

(** [get(key)] reads the property [`k-${key}`]; [None] is [null]. *)
Definition get (key : string) (data : gmap string V) : option V :=
  data !! ("k-" ++ key)%string.

(** [put(key, value)] computes [`k-${key}`] and then assigns
    [this.data[key]]. *)
Definition put (key : string) (value : V) (data : gmap string V)
    : gmap string V :=
  let kKey := ("k-" ++ key)%string in
  <[key := value]> data.
End WithValues.

End AltDict.

Module Hash.

(** Numbers are IEEE doubles.  The ones met here hold integers; a
    product is the exact product rounded to 53 significant bits, ties
    to even. *)
Definition round53 (z : Z) : Z :=
  let a := Z.abs z in
  if a <? 2 ^ 53 then z
  else
    let e := Z.log2 a - 52 in
    let q := a / 2 ^ e in
    let r := a mod 2 ^ e in
    let half := 2 ^ (e - 1) in
    let q' := if (half <? r) || ((r =? half) && Z.odd q) then q + 1 else q in
    Z.sgn z * (q' * 2 ^ e).

Definition mul (a b : Z) : Z := round53 (a * b).

(** The conversions the bitwise operators apply to their operands. *)
Definition to_uint32 (z : Z) : Z := z mod 2 ^ 32.
Definition to_int32 (z : Z) : Z := (z + 2 ^ 31) mod 2 ^ 32 - 2 ^ 31.

(** [a ^ b], [a | b], [a << n] and [a >>> n]. *)
Definition xor (a b : Z) : Z := Z.lxor (to_int32 a) (to_int32 b).
Definition or (a b : Z) : Z := Z.lor (to_int32 a) (to_int32 b).
Definition shl (a n : Z) : Z := to_int32 (to_int32 a * 2 ^ n).
Definition shr (a n : Z) : Z := to_uint32 a / 2 ^ n.

(** The fields of a [Hash]. *)
Record t := mk { count : Z; hash : Z }.

(** [new Hash()]. *)
Definition new : t := {| count := 0; hash := 0 |}.

(** An argument of [update]: [null] or [undefined], a function, a
    number holding an integer, a boolean, a string, an array with its
    elements or an object with its [updateHashCode] method. *)
#[warnings="-register-all"] Inductive Arg :=
| ANull
| AFunction
| ANum (z : Z)
| ABool (b : bool)
| AStr (s : jsstring)
| AArray (elements : list Arg)
| AObject (updateHashCode : t -> t).

(** The mixing step of [update] for the number [k]. *)
Definition mix (k : Z) (h : t) : t :=
  let k := mul k 0xCC9E2D51 in
  let k := or (shl k 15) (shr k (32 - 15)) in
  let k := mul k 0x1B873593 in
  let count := count h + 1 in
  let hash := xor (hash h) k in
  let hash := or (shl hash 13) (shr hash (32 - 13)) in
  let hash := hash * 5 + 0xE6546B64 in
  {| count := count; hash := hash |}.

Section WithStringHash.
(** [String.prototype.hashCode], which depends on a seed drawn at
    random when the module is loaded. *)
Variable string_hashCode : jsstring -> Z.

(** One turn of the loop of [update].  For an array the method calls
    [this.update.apply(value)], that is [update] with the array as
    [this] and no argument: the loop of that call does not run, and
    neither the elements nor the hash are touched. *)
Definition update_one (value : Arg) (h : t) : t :=
  match value with
  | ANull => h
  | AArray elements => h
  | AFunction => h
  | ANum z => mix z h
  | ABool b => mix (if b then 1 else 0) h
  | AStr s => mix (string_hashCode s) h
  | AObject updateHashCode => updateHashCode h
  end.

(** [update(...arguments)]. *)
Definition update (arguments : list Arg) (h : t) : t :=
  fold_left (fun acc value => update_one value acc) arguments h.
End WithStringHash.

(** [finish()]. *)
Definition finish (h : t) : Z :=
  let hash := xor (hash h) (count h * 4) in
  let hash := xor hash (shr hash 16) in
  let hash := mul hash 0x85EBCA6B in
  let hash := xor hash (shr hash 13) in
  let hash := mul hash 0xC2B2AE35 in
  let hash := xor hash (shr hash 16) in
  hash.

End Hash.

Module BitSetHash.

Section WithStringHash.
Variable string_hashCode : jsstring -> Z.

(** [hashCode()] of a BitSet: [hash.update(this.values())] passes one
    argument, the array of the keys. *)
Definition hashCode (s : BitSet.t) : Z :=
  let hash := Hash.new in
  let hash :=
    Hash.update string_hashCode
      [Hash.AArray (map (fun k => Hash.AStr (lit k)) (BitSet.values s))]
      hash in
  Hash.finish hash.

(** [equals(other)]; [None] is a value that is not a BitSet. *)
Definition equals (s : BitSet.t) (other : option BitSet.t) : bool :=
  match other with
  | None => false
  | Some o => hashCode s =? hashCode o
  end.
End WithStringHash.

(** [length], that is [this.values().length]. *)
Definition length (s : BitSet.t) : Z := len (BitSet.values s).

End BitSetHash.

Module Text.

(** [string.replace(/c/g, by)] for a one-unit pattern. *)
Definition replace_all (c : Z) (by_ : jsstring) (s : jsstring) : jsstring :=
  flat_map (fun u => if u =? c then by_ else [u]) s.

(** [escapeWhitespace(string, escapeSpaces)]. *)
Definition escapeWhitespace (s : jsstring) (escapeSpaces : bool) : jsstring :=
  let s := replace_all 9 (lit "\t") s in
  let s := replace_all 10 (lit "\n") s in
  let s := replace_all 13 (lit "\r") s in
  if escapeSpaces then replace_all 32 [0xB7] s else s.

End Text.

(** ** What the documentation asks of the stream queries *)

Module Documented.

(** The buffer invariant: no end-of-file token before one is fetched,
    and afterwards exactly one, in last position. *)
Definition is_EOF (tk : Token.t) : bool := Token.type tk =? Token.EOF.

Definition buffer_ok (l : list Token.t) (fetchedEOF : bool) : Prop :=
  if fetchedEOF
  then exists front e, l = front ++ [e] /\ is_EOF e = true /\
                       forallb (fun tk => negb (is_EOF tk)) front = true
  else forallb (fun tk => negb (is_EOF tk)) l = true.

Definition stream_ok (s : TokenStream.t) : Prop :=
  buffer_ok (TokenStream.tokens s) (TokenStream.fetchedEOF s).

(** A call keeps the buffer invariant however it ends. *)
Definition keeps_buffer {A} (m : M TokenStream.t A) : Prop :=
  forall s,
    stream_ok s ->
    match m s with
    | Done _ s' => stream_ok s'
    | Thrown _ s' => stream_ok s'
    | OutOfFuel => True
    end.

(** The same, of whatever [this.tokens] holds. *)
Definition field_ok (f : TokenStream.TokensField) (fetchedEOF : bool) : Prop :=
  match f with
  | TokenStream.FArray l => buffer_ok l fetchedEOF
  | _ => False
  end.

(** At most one token of the buffer has the end-of-file type. *)
Definition at_most_one_EOF (l : list Token.t) : Prop :=
  (length (filter (fun tk => is_EOF tk = true) l) <= 1)%nat.

(** "Get all tokens in a range from start to stop inclusively": the
    tokens at the indices [start..stop], up to the end-of-file token,
    whose type the filter accepts. *)
Fixpoint up_to_EOF (l : list Token.t) : list Token.t :=
  match l with
  | [] => []
  | tk :: rest => if is_EOF tk then [] else tk :: up_to_EOF rest
  end.

Definition accepts (types : option (Z -> bool)) (tk : Token.t) : bool :=
  match types with
  | None => true
  | Some contains => contains (Token.type tk)
  end.

Definition tokens_in_range (l : list Token.t) (start stop : Z)
    (types : option (Z -> bool)) : list Token.t :=
  filter (fun tk => accepts types tk = true)
         (up_to_EOF (take (Z.to_nat (stop + 1 - start))
                          (drop (Z.to_nat start) l))).

(** "Collect all tokens on specified channel to the left of the current
    token up until we see a token on DEFAULT_TOKEN_CHANNEL": walking left
    from [tokenIndex - 1], the tokens met before the first one on the
    default channel, in buffer order, that are on [chan], or off the
    default channel when [chan] is -1. *)
Definition on_default (tk : Token.t) : bool :=
  strict_eq (Token.channel tk) (VNum Lexer.DEFAULT_TOKEN_CHANNEL).

Fixpoint take_hidden (rev_left : list Token.t) : list Token.t :=
  match rev_left with
  | [] => []
  | tk :: rest => if on_default tk then [] else tk :: take_hidden rest
  end.

Definition wanted (chan : Val) (tk : Token.t) : bool :=
  if strict_eq chan (VNum (-1)) then negb (on_default tk)
  else strict_eq (Token.channel tk) chan.

Definition hidden_to_left (l : list Token.t) (tokenIndex : Z) (chan : Val)
    : option (list Token.t) :=
  let between := rev (take_hidden (rev (take (Z.to_nat tokenIndex) l))) in
  let kept := filter (fun tk => wanted chan tk = true) between in
  match kept with [] => None | _ => Some kept end.

(** [part] occurs in [text]. *)
Definition occurs_in (part text : jsstring) : Prop :=
  exists before after, text = before ++ part ++ after.

End Documented.

(** ** Shapes of well-formed objects *)

Module Shape.

(** A cursor as the constructor leaves it and [consume] and [seek] keep
    it: the index inside the data, [_size] the length of [data]. *)
Definition cursor_ok (s : InputStream.t) : Prop :=
  0 <= InputStream.index s <= InputStream.size s /\
  InputStream.size s = len (InputStream.data s).

(** A raw-unit cursor: its data are the units of its string. *)
Definition raw_cursor (s : InputStream.t) : Prop :=
  InputStream.decodeToUnicodeCodePoints s = false /\
  InputStream.data s = InputStream.strdata s /\
  InputStream.size s = len (InputStream.data s).

(** A stream that has read its source to the end. *)
Definition loaded_stream (s : TokenStream.t) : Prop :=
  TokenStream.fetchedEOF s = true /\ Documented.stream_ok s.

(** The next [n] tokens of the source of [s] as [fetch] stores them,
    each with its position in the buffer as its index. *)
Definition incoming (s : TokenStream.t) (n : nat) : list Token.t :=
  map (fun j : nat =>
         Token.set_tokenIndex
           (TokenStream.tokenSource s (TokenStream.pulled s + j))
           (len (TokenStream.tokens s) + Z.of_nat j))
      (seq 0 n).

(** [s] once [n] further tokens are fetched. *)
Definition advance (s : TokenStream.t) (n : nat) (fetchedEOF : bool)
    : TokenStream.t :=
  TokenStream.mk (TokenStream.kind s) (TokenStream.tokenSource s)
    (TokenStream.pulled s + n) (TokenStream.tokens s ++ incoming s n)
    (TokenStream.index s) fetchedEOF (TokenStream.channel s).

(** The source of [s] returns [d] other tokens and then its first
    end-of-file token. *)
Definition first_EOF (s : TokenStream.t) (d : nat) : Prop :=
  (forall j, (j < d)%nat ->
     Documented.is_EOF
       (TokenStream.tokenSource s (TokenStream.pulled s + j)) = false) /\
  Documented.is_EOF
    (TokenStream.tokenSource s (TokenStream.pulled s + d)) = true.

(** [s] after [sync(i)] when the calls [sync] makes to the source
    return, the first end-of-file token coming after [d] other tokens:
    nothing is fetched once the end was fetched; otherwise the missing
    tokens up to index [i] are fetched, or the [d + 1] tokens up to
    the end-of-file token when that comes first. *)
Definition synced (s : TokenStream.t) (i : Z) (d : nat) : TokenStream.t :=
  let need := Z.to_nat (i + 1 - len (TokenStream.tokens s)) in
  if TokenStream.fetchedEOF s then s
  else advance s (Nat.min need (S d)) (bool_decide (d < need)%nat).

(** Every token of the buffer carries its position as its index. *)
Definition indexed (l : list Token.t) : Prop :=
  forall i tk, at_index l i = Some tk -> Token.tokenIndex tk = i.

(** A token on the channel of the stream. *)
Definition on_channel (s : TokenStream.t) (tk : Token.t) : bool :=
  strict_eq (Token.channel tk) (TokenStream.channel s).

(** Reading [token.text] does not throw. *)
Definition readable (tk : Token.t) : bool :=
  match Token.text tk with
  | Ok _ => true
  | Raise _ => false
  end.

(** What [tokenText += token.text] appends for a token whose [text]
    does not throw. *)
Definition shown (tk : Token.t) : jsstring :=
  match Token.text tk with
  | Ok (Some x) => x
  | _ => lit "null"
  end.

End Shape.

(** ** Inputs used in the examples *)

Module Samples.

(** A token as a lexer hands it over: not yet in a buffer, with its own
    text. *)
Definition token (type channel : Z) (text : string) : Token.t :=
  {| Token.source := Token.EMPTY_SOURCE; Token.type := type;
     Token.channel := VNum channel; Token.start := -1; Token.stop := -1;
     Token.tokenIndex := -1; Token.line := Some 1; Token.column := Some 0;
     Token._text := Some (lit text) |}.

Definition tokA : Token.t := token 1 Token.DEFAULT_CHANNEL "A".
Definition tokComment : Token.t := token 2 Token.HIDDEN_CHANNEL "#comment".
Definition tokB : Token.t := token 1 Token.DEFAULT_CHANNEL "B".
Definition tokEOF : Token.t := token Token.EOF Token.DEFAULT_CHANNEL "<EOF>".

(** A token source returning the given tokens and then end-of-file
    tokens for ever. *)
Definition source_of (l : list Token.t) : nat -> Token.t :=
  fun n => nth n l tokEOF.

(** The lexer output [A], [#comment] (hidden), [B], end of file. *)
Definition commented : nat -> Token.t := source_of [tokA; tokComment; tokB].

(** A stream whose buffer already holds everything its source returns
    up to the end-of-file token, with the cursor at [index]. *)
Definition loaded (kind : TokenStream.Kind) (l : list Token.t) (index : Z)
    : TokenStream.t :=
  let buffered :=
    imap (fun i tk => Token.set_tokenIndex tk (Z.of_nat i)) (l ++ [tokEOF]) in
  {| TokenStream.kind := kind; TokenStream.tokenSource := source_of l;
     TokenStream.pulled := length buffered; TokenStream.tokens := buffered;
     TokenStream.index := index; TokenStream.fetchedEOF := true;
     TokenStream.channel :=
       match kind with
       | TokenStream.Buffered => VUndefined
       | TokenStream.Common => VNum Token.DEFAULT_CHANNEL
       end |}.

(** A cursor over [text] in raw-unit mode, as the constructor is
    documented to build it, placed at [index]. *)
Definition cursor (text : string) (index : Z) : InputStream.t :=
  {| InputStream.name := lit "<empty>"; InputStream._index := index;
     InputStream.strdata := lit text;
     InputStream.decodeToUnicodeCodePoints := false;
     InputStream.data := InputStream.code_units (lit text);
     InputStream._size := len (lit text) |}.

(** A lexer about to scan [text] from its start, with the fields its
    constructor assigns and the line and column of a new matcher. *)
Definition lexer (text : string) : Lexer.t :=
  {| Lexer._input := Some (cursor text 0);
     Lexer._factory := CommonTokenFactory.DEFAULT;
     Lexer.line := 1; Lexer.column := 0; Lexer._token := None;
     Lexer._tokenStartCharIndex := -1; Lexer._tokenStartLine := -1;
     Lexer._tokenStartColumn := -1; Lexer._hitEOF := false;
     Lexer._channel := Token.DEFAULT_CHANNEL;
     Lexer._type := Token.INVALID_TYPE; Lexer._modeStack := [];
     Lexer._mode := Lexer.DEFAULT_MODE; Lexer._text := None;
     Lexer.reported := [] |}.

(** A matcher for a rule that never closes: it reads every remaining
    symbol, keeping the column up to date, and then reports that no
    alternative is viable. *)
Definition unterminated : M Lexer.t Z :=
  fun l =>
    match Lexer._input l with
    | None => Thrown (TypeError "Cannot read properties of null") l
    | Some i =>
        let rest := InputStream.size i - InputStream.index i in
        let i' := InputStream.seek i (InputStream.size i) in
        Thrown (RecognitionException true)
          (Lexer.mk (Some i') (Lexer._factory l) (Lexer.line l)
             (Lexer.column l + rest) (Lexer._token l)
             (Lexer._tokenStartCharIndex l) (Lexer._tokenStartLine l)
             (Lexer._tokenStartColumn l) (Lexer._hitEOF l) (Lexer._channel l)
             (Lexer._type l) (Lexer._modeStack l) (Lexer._mode l)
             (Lexer._text l) (Lexer.reported l))
    end.

(** The matching engine's [consume(input)] on these cursors. *)
Definition step_cursor : M Lexer.t unit :=
  let* i := Lexer.input in
  let* i' := lift (InputStream.consume i) in
  modify (Lexer.set_input (Some i')).

(** Values with an identity and a structure, equal when their
    structures are, hashed by structure. *)
Definition same_structure (a b : Z * Z) : bool := snd a =? snd b.
Definition structure_hash (a : Z * Z) : Z := snd a.

(** A hash by identity, which structurally equal values do not share;
    a hash that all values share; an equality that is symmetric and
    not transitive; an equality that is transitive and not
    symmetric. *)
Definition identity_hash (a : Z * Z) : Z := fst a.
Definition constant_hash (a : Z) : Z := 0.
Definition near (a b : Z) : bool := Z.abs (a - b) <=? 1.
Definition at_most (a b : Z) : bool := a <=? b.

End Samples.

(** * Properties *)

Import Samples.

(** Unfolds the plumbing of state and exceptions. *)
Ltac run :=
  cbv [St.bind St.get St.gets St.put St.modify St.ret St.throw St.lift
       St.when St.spent].
Ltac run_in H :=
  cbv [St.bind St.get St.gets St.put St.modify St.ret St.throw St.lift
       St.when St.spent] in H.

(** ** The character cursor *)

(** In raw-unit mode the loop test reads an unbound name before anything
    else, whatever the string. *)
Lemma decodeCharacterCodes_raises (isBrowser : bool) (string : jsstring) :
  InputStream.decodeCharacterCodes (InputStream.module_scope isBrowser) string
  = Raise (ReferenceError "streamSize").
Proof. destruct isBrowser; reflexivity. Qed.

(** In code-point mode the body of the loop reads an unbound name as
    soon as the string has a first symbol. *)
Lemma decodeUnicodeCodePoints_raises (isBrowser : bool) (string : jsstring) :
  string <> [] ->
  InputStream.decodeUnicodeCodePoints (InputStream.module_scope isBrowser)
    string
  = Raise (ReferenceError "stream").
Proof.
  intros Hne. unfold InputStream.decodeUnicodeCodePoints.
  destruct string as [|c rest]; [congruence|].
  replace (0 <? len (c :: rest)) with true.
  - destruct isBrowser; reflexivity.
  - symmetry. apply Z.ltb_lt. unfold len. cbn [length]. lia.
Qed.

Lemma new_raw_raises (isBrowser : bool) (string : jsstring) :
  InputStream.new isBrowser string false = Raise (ReferenceError "streamSize").
Proof.
  unfold InputStream.new. cbv zeta.
  now rewrite decodeCharacterCodes_raises.
Qed.

Lemma new_code_points_raises (isBrowser : bool) (string : jsstring) :
  string <> [] ->
  InputStream.new isBrowser string true = Raise (ReferenceError "stream").
Proof.
  intros Hne. unfold InputStream.new. cbv zeta.
  now rewrite decodeUnicodeCodePoints_raises.
Qed.

(** C1.  Constructing an InputStream over the one-letter string "a"
    does not succeed in either decoding mode: the constructor throws a
    ReferenceError, where the documented decoding of "a" is the single
    symbol 97 in both modes. *)
Theorem InputStream_constructor_throws (isBrowser : bool) :
  InputStream.new isBrowser (lit "a") false
    = Raise (ReferenceError "streamSize") /\
  InputStream.new isBrowser (lit "a") true
    = Raise (ReferenceError "stream") /\
  InputStream.code_units (lit "a") = [97] /\
  InputStream.code_points (lit "a") = [97].
Proof.
  split; [apply new_raw_raises|].
  split; [now apply new_code_points_raises|].
  split; reflexivity.
Qed.

(** A pair of surrogates is one code point and two code units. *)
Example code_points_surrogates :
  InputStream.code_points [0xD83D; 0xDE00; 97] = [0x1F600; 97] /\
  InputStream.code_units [0xD83D; 0xDE00; 97] = [0xD83D; 0xDE00; 97].
Proof. split; reflexivity. Qed.

(** ** Tokens and their factory *)

(** Without a text override and without eager copying, [create] returns
    a token whose channel is the text argument and whose start is the
    channel argument. *)
Lemma create_fields (source : Token.SourcePair) (type channel start stop
    line column : Z) :
  CommonTokenFactory.create CommonTokenFactory.DEFAULT source type None
    channel start stop line column
  = Ok {| Token.source := source; Token.type := type;
          Token.channel := VNull; Token.start := channel;
          Token.stop := stop; Token.tokenIndex := -1;
          Token.line := Some line; Token.column := Some column;
          Token._text := None |}.
Proof. reflexivity. Qed.

(** With a text override, [create] ends in the assignment to the
    getter-only [text]. *)
Lemma create_with_text_throws (f : CommonTokenFactory.t)
    (source : Token.SourcePair) (text : jsstring)
    (type channel start stop line column : Z) :
  exists e,
    CommonTokenFactory.create f source type (Some text) channel start stop
      line column = Raise e.
Proof. eexists. reflexivity. Qed.

(** C2.  [create(source, 5, null, 1, 3, 7, 1, 0)] returns a token with
    tokenIndex -1, type 5, stop 7, line 1 and column 0, but with channel
    [null] (the text argument) and start 1 (the channel argument), not
    channel 1 and start 3. *)
Theorem create_misplaces_channel_and_start :
  exists tk,
    CommonTokenFactory.create CommonTokenFactory.DEFAULT Token.EMPTY_SOURCE
      5 None 1 3 7 1 0 = Ok tk /\
    Token.tokenIndex tk = -1 /\ Token.type tk = 5 /\
    Token.stop tk = 7 /\ Token.line tk = Some 1 /\
    Token.column tk = Some 0 /\
    Token.channel tk = VNull /\ Token.channel tk <> VNum 1 /\
    Token.start tk = 1 /\ Token.start tk <> 3.
Proof.
  eexists. split; [reflexivity|]. cbn.
  repeat split; try reflexivity; discriminate.
Qed.

(** ** Recovery in the lexer *)

Lemma LA_at_end (i : InputStream.t) :
  InputStream.size i <= InputStream.index i ->
  InputStream.LA i 1 = Token.EOF.
Proof.
  intros Hend. unfold InputStream.LA. cbn.
  replace (InputStream.index i + 1 - 1) with (InputStream.index i) by lia.
  replace (InputStream.size i <=? InputStream.index i) with true
    by (symmetry; now apply Z.leb_le).
  now rewrite orb_true_r.
Qed.

(** With the cursor at the end of the input, [recover] asks the cursor
    to consume, which the cursor refuses. *)
Lemma recover_at_end (interp_consume : M Lexer.t unit) (re : Exn)
    (l : Lexer.t) (i : InputStream.t) :
  Lexer._input l = Some i ->
  InputStream.size i <= InputStream.index i ->
  Lexer.recover interp_consume re l = Thrown (Error "cannot consume EOF") l.
Proof.
  intros Hin Hend. unfold Lexer.recover, Lexer.input, St.bind, St.get.
  rewrite Hin. cbn -[InputStream.LA InputStream.consume].
  rewrite LA_at_end by assumption. cbn -[InputStream.consume].
  unfold InputStream.consume.
  replace (InputStream.size i <=? InputStream.index i) with true
    by (symmetry; now apply Z.leb_le).
  reflexivity.
Qed.

(** Away from the end, a recognition failure of another kind than
    [LexerNoViableAltException] leaves the cursor where it is. *)
Lemma recover_other_failure (interp_consume : M Lexer.t unit)
    (l : Lexer.t) (i : InputStream.t) :
  Lexer._input l = Some i ->
  InputStream.LA i 1 <> Token.EOF ->
  Lexer.recover interp_consume (RecognitionException false) l = Done tt l.
Proof.
  intros Hin Hla. unfold Lexer.recover, Lexer.input, St.bind, St.get.
  rewrite Hin. cbn -[InputStream.LA].
  now rewrite (proj2 (Z.eqb_neq _ _) Hla).
Qed.

(** C3.  On the input [/*ab], whose comment never closes, the matcher
    reads to the end and signals that no alternative is viable; the
    lexer reports the failure to its listener, and then [nextToken]
    throws "cannot consume EOF" to its caller instead of recovering. *)
Theorem nextToken_throws_at_end_of_input (fuel : nat) :
  exists l',
    Lexer.nextToken unterminated step_cursor (S (S fuel)) (lexer "/*ab")
      = Thrown (Error "cannot consume EOF") l' /\
    length (Lexer.reported l') = 1%nat /\
    Lexer._input l' = Some (cursor "/*ab" 4).
Proof. eexists. split; [reflexivity|]. split; reflexivity. Qed.

(** The same for every matcher and every input: when the matcher
    signals a recognition failure with the cursor at the end of the
    input, [nextToken] throws. *)
Lemma nextToken_failure_at_end_propagates
    (interp_match : M Lexer.t Z) (interp_consume : M Lexer.t unit)
    (fuel : nat) (l l1 : Lexer.t) (i i1 : InputStream.t) (b : bool) :
  Lexer._input l = Some i ->
  Lexer._hitEOF l = false ->
  interp_match (Lexer.set_type Token.INVALID_TYPE
                  (Lexer.begin_token l (InputStream.index i)))
    = Thrown (RecognitionException b) l1 ->
  Lexer._input l1 = Some i1 ->
  InputStream.size i1 <= InputStream.index i1 ->
  exists e l',
    Lexer.nextToken interp_match interp_consume (S (S fuel)) l = Thrown e l'.
Proof.
  intros Hin Hhit Hmatch Hin1 Hend.
  unfold Lexer.nextToken, St.bind, St.get. rewrite Hin.
  cbn [Lexer.scan_loop]. unfold St.bind at 1, St.get at 1. rewrite Hhit.
  unfold St.bind at 1, Lexer.input at 1, St.bind at 1, St.get at 1.
  rewrite Hin. unfold St.ret at 1.
  unfold St.bind at 1, St.modify at 1.
  unfold St.bind at 1.
  cbn [Lexer.match_loop].
  unfold St.bind at 1, St.bind at 1, St.modify at 1.
  unfold St.bind at 1, Lexer.try_match at 1.
  rewrite Hmatch. cbn [Lexer.isRecognitionException].
  unfold St.bind at 1.
  destruct (Lexer.notifyListeners (RecognitionException b) l1)
    as [u l2|e l2|] eqn:Hnotify.
  - assert (Hin2 : Lexer._input l2 = Some i1).
    { unfold Lexer.notifyListeners, Lexer.input in Hnotify. run_in Hnotify.
      rewrite Hin1 in Hnotify.
      destruct (InputStream.getText i1 _ _); inversion Hnotify.
      exact Hin1. }
    unfold St.bind at 1.
    rewrite (recover_at_end interp_consume (RecognitionException b) l2 i1)
      by assumption.
    eauto.
  - eauto.
  - unfold Lexer.notifyListeners, Lexer.input in Hnotify. run_in Hnotify.
    rewrite Hin1 in Hnotify.
    destruct (InputStream.getText i1 _ _); discriminate.
Qed.

(** ** The buffered token stream *)

Lemma at_index_range {A} (l : list A) (i : Z) (x : A) :
  at_index l i = Some x -> 0 <= i < len l.
Proof.
  unfold at_index, len. intros H.
  destruct (i <? 0) eqn:Hneg; [discriminate|].
  apply Z.ltb_ge in Hneg. apply lookup_lt_Some in H. lia.
Qed.

Lemma is_EOF_set_tokenIndex (tk : Token.t) (n : Z) :
  Documented.is_EOF (Token.set_tokenIndex tk n) = Documented.is_EOF tk.
Proof. reflexivity. Qed.

Lemma no_EOF_filter (l : list Token.t) :
  forallb (fun tk => negb (Documented.is_EOF tk)) l = true ->
  filter (fun tk => Documented.is_EOF tk = true) l = [].
Proof.
  induction l as [|tk l IH]; [reflexivity|].
  cbn [forallb]. intros H. apply andb_true_iff in H as [Hhd Htl].
  rewrite filter_cons. destruct (decide (Documented.is_EOF tk = true)) as [E|E].
  - rewrite E in Hhd. discriminate.
  - now apply IH.
Qed.

(** The buffer invariant implies that the buffer holds at most one
    end-of-file token. *)
Lemma buffer_ok_at_most_one_EOF (l : list Token.t) (fetched : bool) :
  Documented.buffer_ok l fetched -> Documented.at_most_one_EOF l.
Proof.
  unfold Documented.buffer_ok, Documented.at_most_one_EOF.
  destruct fetched.
  - intros (front & e & -> & He & Hfront).
    rewrite filter_app, no_EOF_filter by assumption.
    rewrite filter_cons, filter_nil.
    destruct (decide _); cbn; lia.
  - intros H. rewrite no_EOF_filter by assumption. cbn. lia.
Qed.

(** The loop of [fetch], started before any end-of-file token was
    fetched: it appends at most [todo] tokens, stops right after an
    end-of-file token, and keeps the buffer invariant. *)
Lemma fetch_loop_spec (todo : nat) :
  forall (i : Z) (s : TokenStream.t),
    TokenStream.fetchedEOF s = false ->
    Documented.buffer_ok (TokenStream.tokens s) false ->
    exists r s' added,
      TokenStream.fetch_loop todo i s = Done r s' /\
      TokenStream.tokens s' = TokenStream.tokens s ++ added /\
      (length added <= todo)%nat /\
      TokenStream.index s' = TokenStream.index s /\
      Documented.buffer_ok (TokenStream.tokens s') (TokenStream.fetchedEOF s') /\
      match r with
      | Some n => TokenStream.fetchedEOF s' = true /\ n = i + len added
      | None => TokenStream.fetchedEOF s' = false /\ length added = todo
      end.
Proof.
  induction todo as [|todo IH]; intros i s Hfetched Hok.
  - exists None, s, []. cbn. rewrite app_nil_r, Hfetched. auto 10.
  - cbn [TokenStream.fetch_loop]. unfold St.bind at 1, St.get at 1.
    unfold TokenStream.pull.
    set (token := Token.set_tokenIndex _ _).
    unfold St.bind at 1, St.put at 1.
    destruct (Token.type token =? Token.EOF) eqn:Htype.
    + eexists (Some (i + 1)), _, [token]. run.
      split; [reflexivity|]. cbn.
      split; [reflexivity|]. split; [lia|]. split; [reflexivity|].
      split; [|split; [reflexivity|unfold len; cbn; lia]].
      exists (TokenStream.tokens s), token. auto.
    + set (s1 := TokenStream.mk _ _ _ _ _ _ _).
      destruct (IH (i + 1) s1) as (r & s' & added & Hrun & Htok & Hlen & Hidx
                                   & Hok' & Hr).
      * exact Hfetched.
      * cbn. rewrite forallb_app. cbn in Hok. rewrite Hok. cbn.
        unfold Documented.is_EOF. now rewrite Htype.
      * exists r, s', (token :: added). rewrite Hrun.
        split; [reflexivity|]. split.
        { rewrite Htok. cbn. now rewrite <- app_assoc. }
        split; [cbn; lia|]. split; [exact Hidx|]. split; [exact Hok'|].
        destruct r as [n|]; destruct Hr as [Hf Hn]; split; try assumption.
        -- subst n. unfold len. cbn [length]. lia.
        -- cbn. lia.
Qed.

(** [fetch(n)] keeps the buffer invariant and appends at most [n]
    tokens, none after an end-of-file token; for a count that is not
    negative it returns how many it appended. *)
Lemma fetch_spec (n : Z) (s : TokenStream.t) :
  Documented.buffer_ok (TokenStream.tokens s) (TokenStream.fetchedEOF s) ->
  exists r s' added,
    TokenStream.fetch n s = Done r s' /\
    TokenStream.tokens s' = TokenStream.tokens s ++ added /\
    len added <= Z.max 0 n /\
    (0 <= n -> r = len added) /\
    TokenStream.index s' = TokenStream.index s /\
    Documented.buffer_ok (TokenStream.tokens s') (TokenStream.fetchedEOF s').
Proof.
  intros Hok. unfold TokenStream.fetch. unfold St.bind at 1, St.get at 1.
  destruct (TokenStream.fetchedEOF s) eqn:Hfetched.
  - exists 0, s, []. run. rewrite app_nil_r, Hfetched.
    repeat split; try assumption. unfold len. cbn. lia.
  - destruct (fetch_loop_spec (Z.to_nat n) 0 s Hfetched Hok)
      as (r & s' & added & Hrun & Htok & Hlen & Hidx & Hok' & Hr).
    unfold St.bind at 1. rewrite Hrun.
    assert (Hbound : len added <= Z.max 0 n) by (unfold len; lia).
    destruct r as [k|]; destruct Hr as [Hf Hk]; run.
    + exists k, s', added. subst k. rewrite Z.add_0_l. auto 10.
    + exists n, s', added. repeat split; try assumption.
      intros Hpos. unfold len. lia.
Qed.

(** Once the end-of-file token is fetched, [fetch] returns 0 and
    changes nothing. *)
Lemma fetch_after_EOF (n : Z) (s : TokenStream.t) :
  TokenStream.fetchedEOF s = true -> TokenStream.fetch n s = Done 0 s.
Proof.
  intros Hfetched. unfold TokenStream.fetch. run. now rewrite Hfetched.
Qed.

(** A new stream satisfies the buffer invariant. *)
Lemma new_stream_ok (src : nat -> Token.t) :
  Documented.buffer_ok
    (TokenStream.tokens (TokenStream.BufferedTokenStream src))
    (TokenStream.fetchedEOF (TokenStream.BufferedTokenStream src)).
Proof. reflexivity. Qed.

Lemma lazyInit_started (fuel : nat) (s : TokenStream.t) :
  TokenStream.index s <> -1 -> TokenStream.lazyInit fuel s = Done tt s.
Proof.
  intros Hne. unfold TokenStream.lazyInit. run.
  now rewrite (proj2 (Z.eqb_neq _ _) Hne).
Qed.

Lemma sync_resident (i : Z) (s : TokenStream.t) :
  i < len (TokenStream.tokens s) -> TokenStream.sync i s = Done true s.
Proof.
  intros Hlt. unfold TokenStream.sync. run.
  replace (0 <? i - len (TokenStream.tokens s) + 1) with false
    by (symmetry; apply Z.ltb_ge; lia).
  reflexivity.
Qed.

(** [LT(1)] on a started stream whose cursor is inside the buffer is the
    token under the cursor, for both classes. *)
Lemma LT_1_at_cursor (fuel : nat) (s : TokenStream.t) :
  0 <= TokenStream.index s < len (TokenStream.tokens s) ->
  TokenStream.LT fuel 1 s
  = Done (TokenStream.slot_at (TokenStream.tokens s) (TokenStream.index s)) s.
Proof.
  intros [Hlo Hhi]. unfold TokenStream.LT.
  unfold St.bind at 1. rewrite lazyInit_started by lia.
  unfold St.bind at 1, St.get at 1.
  destruct (TokenStream.kind s).
  - cbn [Z.eqb].
    replace (TokenStream.index s + 1 - 1) with (TokenStream.index s) by lia.
    unfold St.bind at 1. rewrite sync_resident by lia.
    run.
    replace (len (TokenStream.tokens s) <=? TokenStream.index s) with false
      by (symmetry; apply Z.leb_gt; lia).
    reflexivity.
  - reflexivity.
Qed.

(** The streams of the examples are those that reading a source to its
    end produces. *)
Example loaded_by_fill :
  TokenStream.fill 1 (TokenStream.BufferedTokenStream (source_of [tokA]))
    = Done tt (loaded TokenStream.Buffered [tokA] 0) /\
  TokenStream.fill 1 (TokenStream.BufferedTokenStream (source_of [tokA; tokB]))
    = Done tt (loaded TokenStream.Buffered [tokA; tokB] 0) /\
  TokenStream.fill 1
    (TokenStream.BufferedTokenStream (source_of [tokA; tokComment; tokB]))
    = Done tt (loaded TokenStream.Buffered [tokA; tokComment; tokB] 0).
Proof. repeat split. Qed.

Example loaded_at_EOF_by_consume :
  TokenStream.consume 1 (loaded TokenStream.Buffered [tokA] 0)
  = Done tt (loaded TokenStream.Buffered [tokA] 1).
Proof. reflexivity. Qed.

(** C5.  When the end-of-file token has been fetched and the cursor
    rests on it, [consume()] throws "cannot consume EOF" and leaves the
    stream, its cursor included, as it was; this holds for the buffered
    stream and for the channel-filtering one. *)
Theorem consume_on_EOF_throws (fuel : nat) (s : TokenStream.t)
    (e : Token.t) :
  TokenStream.fetchedEOF s = true ->
  at_index (TokenStream.tokens s) (TokenStream.index s) = Some e ->
  Token.type e = Token.EOF ->
  TokenStream.consume fuel s = Thrown (Error "cannot consume EOF") s.
Proof.
  intros Hfetched Hat Htype.
  pose proof (at_index_range _ _ _ Hat) as [Hlo Hhi].
  unfold TokenStream.consume.
  unfold St.bind at 1, St.get at 1.
  rewrite Hfetched.
  replace (0 <=? TokenStream.index s) with true
    by (symmetry; apply Z.leb_le; lia).
  replace (TokenStream.index s <? len (TokenStream.tokens s)) with true
    by (symmetry; apply Z.ltb_lt; lia).
  replace (negb (truthy (VNum ((if true then 1 else 0) - 1)))) with true
    by reflexivity.
  unfold St.bind at 1, St.bind at 1, TokenStream.LA at 1, St.bind at 1.
  rewrite LT_1_at_cursor by lia.
  unfold TokenStream.slot_at. rewrite Hat.
  cbn [TokenStream.deref]. run. rewrite Htype. reflexivity.
Qed.

Lemma consume_on_EOF_throws_witness :
  TokenStream.consume 3 (loaded TokenStream.Buffered [tokA] 1)
  = Thrown (Error "cannot consume EOF") (loaded TokenStream.Buffered [tokA] 1).
Proof.
  apply (consume_on_EOF_throws 3 (loaded TokenStream.Buffered [tokA] 1)
           (Token.set_tokenIndex tokEOF 1)); reflexivity.
Defined.

(** *** Every operation but [getTokens] keeps the buffer invariant *)

Lemma keeps_ret {A} (a : A) : Documented.keeps_buffer (St.ret a).
Proof. intros s Hs. exact Hs. Qed.

Lemma keeps_throw {A} (e : Exn) : Documented.keeps_buffer (@St.throw _ A e).
Proof. intros s Hs. exact Hs. Qed.

Lemma keeps_spent {A} : Documented.keeps_buffer (@St.spent _ A).
Proof. intros s Hs. exact I. Qed.

Lemma keeps_lift {A} (r : Res A) : Documented.keeps_buffer (St.lift r).
Proof. intros s Hs. unfold St.lift. now destruct r. Qed.

Lemma keeps_bind {A B} (m : M TokenStream.t A) (k : A -> M TokenStream.t B) :
  Documented.keeps_buffer m ->
  (forall a, Documented.keeps_buffer (k a)) ->
  Documented.keeps_buffer (St.bind m k).
Proof.
  intros Hm Hk s Hs. unfold St.bind. specialize (Hm s Hs).
  destruct (m s) as [a s'|e s'|]; try assumption. now apply Hk.
Qed.

Lemma keeps_get : Documented.keeps_buffer St.get.
Proof. intros s Hs. exact Hs. Qed.

Lemma keeps_set_index (i : Z) :
  Documented.keeps_buffer (St.modify (TokenStream.set_index i)).
Proof. intros s Hs. exact Hs. Qed.

Lemma keeps_if {A} (c : bool) (m1 m2 : M TokenStream.t A) :
  Documented.keeps_buffer m1 -> Documented.keeps_buffer m2 ->
  Documented.keeps_buffer (if c then m1 else m2).
Proof. now destruct c. Qed.

Lemma keeps_deref (what : string) (x : TokenStream.Slot) :
  Documented.keeps_buffer (TokenStream.deref what x).
Proof. destruct x; [apply keeps_throw|apply keeps_throw|apply keeps_ret]. Qed.

(** Closes the goals that follow the shape of the code. *)
Ltac keeps :=
  repeat first
    [ apply keeps_ret | apply keeps_throw | apply keeps_spent
    | apply keeps_lift | apply keeps_get | apply keeps_set_index
    | apply keeps_deref | assumption
    | match goal with H : forall _, _ |- _ => apply H end
    | apply keeps_bind; [|intros ?] | apply keeps_if
    | match goal with
      | |- Documented.keeps_buffer (match ?x with _ => _ end) => destruct x
      end ].

Lemma keeps_fetch (n : Z) : Documented.keeps_buffer (TokenStream.fetch n).
Proof.
  intros s Hs.
  destruct (fetch_spec n s Hs) as (r & s' & added & Hrun & _ & _ & _ & _ & Hok).
  now rewrite Hrun.
Qed.

Lemma keeps_sync (i : Z) : Documented.keeps_buffer (TokenStream.sync i).
Proof. unfold TokenStream.sync. pose proof keeps_fetch. keeps. Qed.

Lemma keeps_nextTokenOnChannel_loop (fuel : nat) :
  forall i token,
    Documented.keeps_buffer (TokenStream.nextTokenOnChannel_loop fuel i token).
Proof.
  pose proof keeps_sync.
  induction fuel as [|fuel IH]; intros i token;
    cbn [TokenStream.nextTokenOnChannel_loop]; keeps.
Qed.

Lemma keeps_nextTokenOnChannel (fuel : nat) (i : Z) (chan : Val) :
  Documented.keeps_buffer (TokenStream.nextTokenOnChannel fuel i chan).
Proof.
  unfold TokenStream.nextTokenOnChannel.
  pose proof keeps_sync. pose proof keeps_nextTokenOnChannel_loop. keeps.
Qed.

Lemma keeps_previousTokenOnChannel (i : Z) (chan : Val) :
  Documented.keeps_buffer (TokenStream.previousTokenOnChannel i chan).
Proof. unfold TokenStream.previousTokenOnChannel. keeps. Qed.

Lemma keeps_adjustSeekIndex (fuel : nat) (i : Z) :
  Documented.keeps_buffer (TokenStream.adjustSeekIndex fuel i).
Proof.
  unfold TokenStream.adjustSeekIndex. pose proof keeps_nextTokenOnChannel.
  keeps.
Qed.

Lemma keeps_setup (fuel : nat) :
  Documented.keeps_buffer (TokenStream.setup fuel).
Proof.
  unfold TokenStream.setup.
  pose proof keeps_sync. pose proof keeps_adjustSeekIndex. keeps.
Qed.

Lemma keeps_lazyInit (fuel : nat) :
  Documented.keeps_buffer (TokenStream.lazyInit fuel).
Proof. unfold TokenStream.lazyInit. pose proof keeps_setup. keeps. Qed.

Lemma keeps_seek (fuel : nat) (i : Z) :
  Documented.keeps_buffer (TokenStream.seek fuel i).
Proof.
  unfold TokenStream.seek.
  pose proof keeps_lazyInit. pose proof keeps_adjustSeekIndex. keeps.
Qed.

Lemma keeps_get_ (fuel : nat) (i : Z) :
  Documented.keeps_buffer (TokenStream.get_ fuel i).
Proof. unfold TokenStream.get_. pose proof keeps_lazyInit. keeps. Qed.

Lemma keeps_LB_loop (todo : nat) :
  forall i, Documented.keeps_buffer (TokenStream.LB_loop todo i).
Proof.
  pose proof keeps_previousTokenOnChannel.
  induction todo as [|todo IH]; intros i; cbn [TokenStream.LB_loop]; keeps.
Qed.

Lemma keeps_LB (k : Z) : Documented.keeps_buffer (TokenStream.LB k).
Proof. unfold TokenStream.LB. pose proof keeps_LB_loop. keeps. Qed.

Lemma keeps_LT_loop (fuel todo : nat) :
  forall i, Documented.keeps_buffer (TokenStream.LT_loop fuel todo i).
Proof.
  pose proof keeps_sync. pose proof keeps_nextTokenOnChannel.
  induction todo as [|todo IH]; intros i; cbn [TokenStream.LT_loop]; keeps.
Qed.

Lemma keeps_LT (fuel : nat) (k : Z) :
  Documented.keeps_buffer (TokenStream.LT fuel k).
Proof.
  unfold TokenStream.LT.
  pose proof keeps_lazyInit. pose proof keeps_LB. pose proof keeps_sync.
  pose proof keeps_LT_loop. keeps.
Qed.

Lemma keeps_LA (fuel : nat) (i : Z) :
  Documented.keeps_buffer (TokenStream.LA fuel i).
Proof. unfold TokenStream.LA. pose proof keeps_LT. keeps. Qed.

Lemma keeps_consume (fuel : nat) :
  Documented.keeps_buffer (TokenStream.consume fuel).
Proof.
  unfold TokenStream.consume.
  pose proof keeps_LA. pose proof keeps_sync. pose proof keeps_adjustSeekIndex.
  keeps.
Qed.

Lemma keeps_filterForChannel (left right : Z) (chan : Val) :
  Documented.keeps_buffer (TokenStream.filterForChannel left right chan).
Proof. unfold TokenStream.filterForChannel. keeps. Qed.

Lemma keeps_getHiddenTokensToLeft (fuel : nat) (tokenIndex : Z) (chan : Val) :
  Documented.keeps_buffer
    (TokenStream.getHiddenTokensToLeft fuel tokenIndex chan).
Proof.
  unfold TokenStream.getHiddenTokensToLeft.
  pose proof keeps_lazyInit. pose proof keeps_previousTokenOnChannel.
  pose proof keeps_filterForChannel. keeps.
Qed.

Lemma keeps_getHiddenTokensToRigh (fuel : nat) (tokenIndex : Z) (chan : Val) :
  Documented.keeps_buffer
    (TokenStream.getHiddenTokensToRigh fuel tokenIndex chan).
Proof.
  unfold TokenStream.getHiddenTokensToRigh.
  pose proof keeps_lazyInit. pose proof keeps_nextTokenOnChannel.
  pose proof keeps_filterForChannel. keeps.
Qed.

Lemma keeps_fill_loop (fuel : nat) :
  Documented.keeps_buffer (TokenStream.fill_loop fuel).
Proof.
  pose proof keeps_fetch.
  induction fuel as [|fuel IH]; cbn [TokenStream.fill_loop]; keeps.
Qed.

Lemma keeps_fill (fuel : nat) :
  Documented.keeps_buffer (TokenStream.fill fuel).
Proof.
  unfold TokenStream.fill.
  pose proof keeps_lazyInit. pose proof keeps_fill_loop. keeps.
Qed.

Lemma keeps_getText (fuel : nat) (interval : option (Z * Z)) :
  Documented.keeps_buffer (TokenStream.getText fuel interval).
Proof.
  unfold TokenStream.getText.
  pose proof keeps_lazyInit. pose proof keeps_fill. keeps.
Qed.

Lemma keeps_setTokenSource (src : nat -> Token.t) :
  Documented.keeps_buffer (St.modify (TokenStream.setTokenSource src)).
Proof. intros s Hs. reflexivity. Qed.

(** C6.  On a stream whose buffer holds the token [A] and the
    end-of-file token, both fetched, the buffer invariant holds; after
    [getTokens(0, 1)], [this.tokens] is the token [A] itself and no
    longer a buffer ending in the end-of-file token, although
    [fetchedEOF] is still true.  ([fetch_spec] and [fetch_after_EOF] show
    that [fetch] does what is asked of it, and the lemmas above that
    every other operation keeps the invariant.) *)
Theorem getTokens_breaks_buffer_invariant :
  let s := loaded TokenStream.Buffered [tokA] 0 in
  Documented.buffer_ok (TokenStream.tokens s) (TokenStream.fetchedEOF s) /\
  exists r s',
    TokenStream.getTokens 3 0 1 None s
      = Done (r, TokenStream.FToken (Token.set_tokenIndex tokA 0)) s' /\
    TokenStream.fetchedEOF s' = true /\
    ~ Documented.field_ok (TokenStream.FToken (Token.set_tokenIndex tokA 0))
        (TokenStream.fetchedEOF s').
Proof.
  split.
  - exists [Token.set_tokenIndex tokA 0], (Token.set_tokenIndex tokEOF 1).
    repeat split.
  - eexists _, _. split; [reflexivity|]. split; [reflexivity|].
    cbn. tauto.
Qed.

(** C9.  On a stream whose buffer holds [A], [B] and the end-of-file
    token, [getTokens(0, 1)] returns [A] alone, where the tokens of the
    inclusive range are [A] and [B], and it leaves the token [A] in
    [this.tokens] in place of the buffer. *)
Theorem getTokens_drops_stop_and_overwrites_buffer :
  let s := loaded TokenStream.Buffered [tokA; tokB] 0 in
  let A := Token.set_tokenIndex tokA 0 in
  let B := Token.set_tokenIndex tokB 1 in
  TokenStream.getTokens 3 0 1 None s
    = Done (Ok (Some [A]), TokenStream.FToken A) s /\
  TokenStream.FToken A <> TokenStream.FArray (TokenStream.tokens s) /\
  Documented.tokens_in_range (TokenStream.tokens s) 0 1 None = [A; B].
Proof. split; [reflexivity|]. split; [discriminate|reflexivity]. Qed.

(** Once [this.tokens] holds something else than the array, the loop
    never puts an array back. *)
Lemma getTokens_loop_not_array (todo : nat) :
  forall i types f subset,
    (forall l, f <> TokenStream.FArray l) ->
    forall l,
      snd (TokenStream.getTokens_loop todo i types f subset)
      <> TokenStream.FArray l.
Proof.
  induction todo as [|todo IH]; intros i types f subset Hf l;
    cbn [TokenStream.getTokens_loop]; [apply Hf|].
  destruct (TokenStream.field_at f i) as [token|]; [|discriminate].
  destruct (Token.type token =? Token.EOF); [discriminate|].
  apply IH. discriminate.
Qed.

(** Whenever the body of the loop runs, the buffer is overwritten. *)
Lemma getTokens_loop_overwrites (todo : nat) (i : Z)
    (types : option (Z -> bool)) (l l' : list Token.t)
    (subset : list Token.t) :
  snd (TokenStream.getTokens_loop (S todo) i types (TokenStream.FArray l)
         subset)
  <> TokenStream.FArray l'.
Proof.
  cbn [TokenStream.getTokens_loop].
  destruct (TokenStream.field_at _ i) as [token|]; [|discriminate].
  destruct (Token.type token =? Token.EOF); [discriminate|].
  apply getTokens_loop_not_array. discriminate.
Qed.

(** A range of three tokens or more makes the second iteration index
    the token left by the first, and the call throws. *)
Example getTokens_wider_range_throws :
  exists s',
    TokenStream.getTokens 3 0 2 None
      (loaded TokenStream.Buffered [tokA; tokB] 0)
    = Done (Raise (TypeError "token.type"), TokenStream.FUndefined) s'.
Proof. eexists. reflexivity. Qed.

(** An index outside the buffer of a started stream is refused. *)
Lemma getHiddenTokensToLeft_out_of_range (fuel : nat) (s : TokenStream.t)
    (tokenIndex : Z) (chan : Val) :
  TokenStream.index s <> -1 ->
  tokenIndex < 0 \/ len (TokenStream.tokens s) <= tokenIndex ->
  TokenStream.getHiddenTokensToLeft fuel tokenIndex chan s
  = Thrown (Error (TokenStream.not_in_range tokenIndex s)) s.
Proof.
  intros Hstarted Hout. unfold TokenStream.getHiddenTokensToLeft.
  cbv zeta. unfold St.bind at 1. rewrite lazyInit_started by assumption.
  unfold St.bind at 1, St.get at 1.
  replace ((tokenIndex <? 0) || (len (TokenStream.tokens s) <=? tokenIndex))
    with true; [reflexivity|].
  symmetry. apply orb_true_iff.
  destruct Hout; [left; apply Z.ltb_lt|right; apply Z.leb_le]; lia.
Qed.

(** *** Where [getHiddenTokensToLeft] agrees with its documentation *)

Lemma at_index_nat {A} (l : list A) (n : nat) :
  at_index l (Z.of_nat n) = l !! n.
Proof.
  unfold at_index. replace (Z.of_nat n <? 0) with false
    by (symmetry; apply Z.ltb_ge; lia).
  now rewrite Nat2Z.id.
Qed.

(** The walk to the left stops after as many tokens as the documented
    scan collects. *)
Lemma previousTokenOnChannel_loop_spec (l : list Token.t) (m : nat) :
  forall i : Z,
    Z.to_nat (i + 1) = m -> -1 <= i < len l ->
    TokenStream.previousTokenOnChannel_loop (Z.to_nat i) l i
      (VNum Lexer.DEFAULT_TOKEN_CHANNEL)
    = Ok (i - len (Documented.take_hidden (rev (take m l)))).
Proof.
  induction m as [|m IH]; intros i Hm Hi.
  - assert (i = -1) by lia. subst i. reflexivity.
  - assert (Hi' : i = Z.of_nat m) by lia. subst i.
    rewrite Nat2Z.id.
    destruct (lookup_lt_is_Some_2 l m) as [tk Htk]; [unfold len in Hi; lia|].
    rewrite (take_S_r _ _ _ Htk), rev_app_distr. cbn [rev app].
    cbn [Documented.take_hidden]. unfold Documented.on_default.
    destruct m as [|m'].
    + cbn [TokenStream.previousTokenOnChannel_loop].
      change (0 <=? Z.of_nat 0) with true. cbv iota.
      rewrite at_index_nat, Htk.
      destruct (strict_eq (Token.channel tk) _); reflexivity.
    + cbn [TokenStream.previousTokenOnChannel_loop].
      replace (0 <=? Z.of_nat (S m')) with true
        by (symmetry; apply Z.leb_le; lia).
      rewrite at_index_nat, Htk.
      destruct (strict_eq (Token.channel tk) _); cbn [negb].
      * unfold len; cbn [length]; f_equal; lia.
      * replace m' with (Z.to_nat (Z.of_nat (S m') - 1)) at 1 by lia.
        rewrite IH by (unfold len in *; lia).
        unfold len; cbn [length]; f_equal; lia.
Qed.

Lemma filterForChannel_loop_spec (chan : Val) (l : list Token.t) (todo : nat) :
  forall (n : nat) (hidden : list Token.t),
    (n + todo <= length l)%nat ->
    TokenStream.filterForChannel_loop todo l (Z.of_nat n) chan hidden
    = Ok (hidden ++ filter (fun tk => Documented.wanted chan tk = true)
                      (take todo (drop n l))).
Proof.
  induction todo as [|todo IH]; intros n hidden Hlen.
  - cbn. now rewrite app_nil_r.
  - cbn [TokenStream.filterForChannel_loop]. rewrite at_index_nat.
    destruct (lookup_lt_is_Some_2 l n) as [tk Htk]; [lia|]. rewrite Htk.
    replace (Z.of_nat n + 1) with (Z.of_nat (S n)) by lia.
    rewrite IH by lia.
    rewrite (drop_S _ _ _ Htk). cbn [take]. rewrite filter_cons.
    fold (Documented.on_default tk). fold (Documented.wanted chan tk).
    destruct (Documented.wanted chan tk) eqn:Hw.
    + rewrite decide_True by reflexivity. now rewrite <- app_assoc.
    + rewrite decide_False by discriminate. reflexivity.
Qed.

Lemma take_hidden_prefix (l : list Token.t) :
  Documented.take_hidden l = take (length (Documented.take_hidden l)) l.
Proof.
  induction l as [|tk l IH]; [reflexivity|]. cbn [Documented.take_hidden].
  destruct (Documented.on_default tk); [reflexivity|].
  cbn [length take]. now rewrite <- IH.
Qed.

Lemma take_hidden_length (l : list Token.t) :
  (length (Documented.take_hidden l) <= length l)%nat.
Proof.
  induction l as [|tk l IH]; [reflexivity|]. cbn [Documented.take_hidden].
  destruct (Documented.on_default tk); cbn [length]; lia.
Qed.

(** The tokens the documented scan collects, as a slice of the
    buffer. *)
Lemma hidden_slice (l : list Token.t) (k : nat) :
  (k <= length l)%nat ->
  let h := length (Documented.take_hidden (rev (take k l))) in
  rev (Documented.take_hidden (rev (take k l))) = take h (drop (k - h) l).
Proof.
  intros Hk h.
  assert (Hh : (h <= k)%nat).
  { unfold h. etransitivity; [apply take_hidden_length|].
    rewrite length_rev, length_take. lia. }
  rewrite take_hidden_prefix. fold h.
  rewrite List.firstn_rev, rev_involutive, length_take.
  replace (k `min` length l)%nat with k by lia.
  rewrite List.skipn_firstn_comm. f_equal. lia.
Qed.

(** On a started stream and an index of its buffer, the call returns
    what the documentation asks, unless the nearest default-channel
    token to the left sits at index 0. *)
Lemma getHiddenTokensToLeft_agrees (fuel : nat) (s : TokenStream.t)
    (tokenIndex : Z) (chan : Val) :
  TokenStream.index s <> -1 ->
  0 <= tokenIndex < len (TokenStream.tokens s) ->
  TokenStream.previousTokenOnChannel (tokenIndex - 1)
    (VNum Lexer.DEFAULT_TOKEN_CHANNEL) s <> Done 0 s ->
  TokenStream.getHiddenTokensToLeft fuel tokenIndex chan s
  = Done (Documented.hidden_to_left (TokenStream.tokens s) tokenIndex
            (if loose_null chan then VNum (-1) else chan)) s.
Proof.
  intros Hstarted Hrange Hprev.
  unfold TokenStream.getHiddenTokensToLeft. cbv zeta.
  unfold St.bind at 1. rewrite lazyInit_started by assumption.
  unfold St.bind at 1, St.get at 1.
  replace ((tokenIndex <? 0) || (len (TokenStream.tokens s) <=? tokenIndex))
    with false.
  2:{ symmetry. apply orb_false_iff.
      split; [apply Z.ltb_ge|apply Z.leb_gt]; lia. }
  set (l := TokenStream.tokens s) in *.
  set (k := Z.to_nat tokenIndex).
  set (h := length (Documented.take_hidden (rev (take k l)))).
  assert (Hloop : TokenStream.previousTokenOnChannel (tokenIndex - 1)
                    (VNum Lexer.DEFAULT_TOKEN_CHANNEL) s
                  = Done (tokenIndex - 1 - Z.of_nat h) s).
  { unfold TokenStream.previousTokenOnChannel. run. fold l.
    rewrite (previousTokenOnChannel_loop_spec l k)
      by (unfold k; lia).
    reflexivity. }
  rewrite Hloop in Hprev.
  unfold St.bind at 1. rewrite Hloop.
  assert (Hne : tokenIndex - 1 - Z.of_nat h <> 0) by congruence.
  replace (negb (truthy (VNum (tokenIndex - 1 - Z.of_nat h)))) with false.
  2:{ cbn [truthy]. rewrite negb_involutive. symmetry.
      now apply Z.eqb_neq. }
  assert (Hh : (h <= k)%nat).
  { unfold h. etransitivity; [apply take_hidden_length|].
    rewrite length_rev, length_take. lia. }
  unfold TokenStream.filterForChannel. unfold St.bind at 1, St.get at 1.
  fold l.
  replace (tokenIndex - 1 - Z.of_nat h + 1) with (Z.of_nat (k - h))
    by (unfold k; lia).
  replace (Z.to_nat (tokenIndex - 1 + 1 - Z.of_nat (k - h))) with h
    by (unfold k; lia).
  rewrite filterForChannel_loop_spec by (unfold k, len in *; lia).
  unfold St.bind at 1, St.lift at 1. rewrite app_nil_l.
  unfold Documented.hidden_to_left. cbv zeta. fold k.
  rewrite (hidden_slice l k) by (unfold k, len in *; lia). fold h.
  destruct (filter _ (take h (drop (k - h) l))) as [|x rest]; reflexivity.
Qed.

(** When that token sits at index 0, the call returns [null] whatever
    lies between. *)
Lemma getHiddenTokensToLeft_null_at_zero (fuel : nat) (s : TokenStream.t)
    (tokenIndex : Z) (chan : Val) :
  TokenStream.index s <> -1 ->
  0 <= tokenIndex < len (TokenStream.tokens s) ->
  TokenStream.previousTokenOnChannel (tokenIndex - 1)
    (VNum Lexer.DEFAULT_TOKEN_CHANNEL) s = Done 0 s ->
  TokenStream.getHiddenTokensToLeft fuel tokenIndex chan s = Done None s.
Proof.
  intros Hstarted Hrange Hprev.
  unfold TokenStream.getHiddenTokensToLeft. cbv zeta.
  unfold St.bind at 1. rewrite lazyInit_started by assumption.
  unfold St.bind at 1, St.get at 1.
  replace ((tokenIndex <? 0) || (len (TokenStream.tokens s) <=? tokenIndex))
    with false.
  2:{ symmetry. apply orb_false_iff.
      split; [apply Z.ltb_ge|apply Z.leb_gt]; lia. }
  unfold St.bind at 1. rewrite Hprev. reflexivity.
Qed.

(** C7.  In the buffer [A] (default channel), [#comment] (hidden), [B]
    (default channel), the nearest default-channel token to the left of
    index 2 sits at index 0; [getHiddenTokensToLeft(2, -1)] returns
    [null], where the hidden token between them is [#comment]. *)
Theorem getHiddenTokensToLeft_boundary_at_zero :
  let s := loaded TokenStream.Buffered [tokA; tokComment; tokB] 0 in
  TokenStream.getHiddenTokensToLeft 3 2 (VNum (-1)) s = Done None s /\
  TokenStream.previousTokenOnChannel 1 (VNum Lexer.DEFAULT_TOKEN_CHANNEL) s
    = Done 0 s /\
  Documented.hidden_to_left (TokenStream.tokens s) 2 (VNum (-1))
    = Some [Token.set_tokenIndex tokComment 1].
Proof. split; [reflexivity|]. split; reflexivity. Qed.

(** With no default-channel token at all to the left, the hidden tokens
    are returned. *)
Example getHiddenTokensToLeft_no_boundary :
  let s := loaded TokenStream.Buffered [tokComment; tokComment; tokB] 0 in
  TokenStream.getHiddenTokensToLeft 3 2 (VNum (-1)) s
    = Done (Documented.hidden_to_left (TokenStream.tokens s) 2 (VNum (-1))) s /\
  Documented.hidden_to_left (TokenStream.tokens s) 2 (VNum (-1))
    = Some [Token.set_tokenIndex tokComment 0;
            Token.set_tokenIndex tokComment 1].
Proof. split; reflexivity. Qed.

(** *** Single steps of a stream *)

Lemma fetch_one_token (s : TokenStream.t) :
  TokenStream.fetchedEOF s = false ->
  (Token.type (TokenStream.tokenSource s (TokenStream.pulled s)) =? Token.EOF)
    = false ->
  TokenStream.fetch 1 s = Done 1 (snd (TokenStream.pull s)).
Proof.
  intros Hfetched Htype. unfold TokenStream.fetch.
  unfold St.bind at 1, St.get at 1. rewrite Hfetched.
  change (Z.to_nat 1) with 1%nat. cbn [TokenStream.fetch_loop].
  unfold TokenStream.pull. run.
  change (Token.type (Token.set_tokenIndex ?tk ?n)) with (Token.type tk).
  rewrite Htype. reflexivity.
Qed.

Lemma fetch_EOF_next (n : Z) (s : TokenStream.t) :
  TokenStream.fetchedEOF s = false ->
  (Token.type (TokenStream.tokenSource s (TokenStream.pulled s)) =? Token.EOF)
    = true ->
  1 <= n ->
  TokenStream.fetch n s
  = Done 1 (TokenStream.set_fetchedEOF true (snd (TokenStream.pull s))).
Proof.
  intros Hfetched Htype Hn. unfold TokenStream.fetch.
  unfold St.bind at 1, St.get at 1. rewrite Hfetched.
  destruct (Z.to_nat n) as [|todo] eqn:Hto; [lia|].
  cbn [TokenStream.fetch_loop].
  unfold TokenStream.pull. run.
  change (Token.type (Token.set_tokenIndex ?tk ?k)) with (Token.type tk).
  rewrite Htype. reflexivity.
Qed.

(** [sync] at the first index past the buffer fetches one token. *)
Lemma sync_one_more (i : Z) (s : TokenStream.t) :
  i = len (TokenStream.tokens s) ->
  TokenStream.fetchedEOF s = false ->
  (Token.type (TokenStream.tokenSource s (TokenStream.pulled s)) =? Token.EOF)
    = false ->
  TokenStream.sync i s = Done true (snd (TokenStream.pull s)).
Proof.
  intros -> Hfetched Htype. unfold TokenStream.sync.
  unfold St.bind at 1, St.get at 1.
  replace (len (TokenStream.tokens s) - len (TokenStream.tokens s) + 1)
    with 1 by lia.
  cbn [Z.ltb Z.compare]. unfold St.bind at 1.
  rewrite fetch_one_token by assumption. reflexivity.
Qed.

(** [nextTokenOnChannel] stays on a resident token of the stream's
    channel. *)
Lemma nextTokenOnChannel_here (fuel : nat) (i : Z) (chan : Val)
    (s : TokenStream.t) (tk : Token.t) :
  at_index (TokenStream.tokens s) i = Some tk ->
  Token.channel tk = TokenStream.channel s ->
  TokenStream.nextTokenOnChannel (S fuel) i chan s = Done i s.
Proof.
  intros Hat Hchan. pose proof (at_index_range _ _ _ Hat) as [Hlo Hhi].
  unfold TokenStream.nextTokenOnChannel.
  unfold St.bind at 1. rewrite sync_resident by lia.
  unfold St.bind at 1, St.get at 1.
  replace (len (TokenStream.tokens s) <=? i) with false
    by (symmetry; apply Z.leb_gt; lia).
  cbn [TokenStream.nextTokenOnChannel_loop]. unfold TokenStream.slot_at.
  rewrite Hat. cbn [TokenStream.deref]. run. rewrite Hchan.
  unfold strict_eq. rewrite bool_decide_eq_true_2 by reflexivity.
  reflexivity.
Qed.

(** It steps over a resident token that is off the channel and is not
    the end-of-file token. *)
Lemma nextTokenOnChannel_loop_skip (fuel : nat) (i : Z) (s : TokenStream.t)
    (tk : Token.t) :
  Token.channel tk <> TokenStream.channel s ->
  (Token.type tk =? Token.EOF) = false ->
  TokenStream.nextTokenOnChannel_loop (S fuel) i (TokenStream.STok tk) s
  = match TokenStream.sync (i + 1) s with
    | Done _ s' =>
        TokenStream.nextTokenOnChannel_loop fuel (i + 1)
          (TokenStream.slot_at (TokenStream.tokens s') (i + 1)) s'
    | Thrown e s' => Thrown e s'
    | OutOfFuel => OutOfFuel
    end.
Proof.
  intros Hchan Htype. cbn [TokenStream.nextTokenOnChannel_loop
                             TokenStream.deref].
  run. unfold strict_eq. rewrite bool_decide_eq_false_2 by assumption.
  cbn [negb]. rewrite Htype. reflexivity.
Qed.

Lemma nextTokenOnChannel_loop_here (fuel : nat) (i : Z) (s : TokenStream.t)
    (tk : Token.t) :
  Token.channel tk = TokenStream.channel s ->
  TokenStream.nextTokenOnChannel_loop (S fuel) i (TokenStream.STok tk) s
  = Done i s.
Proof.
  intros Hchan. cbn [TokenStream.nextTokenOnChannel_loop TokenStream.deref].
  run. rewrite Hchan. unfold strict_eq.
  rewrite bool_decide_eq_true_2 by reflexivity. reflexivity.
Qed.

Lemma text_set_tokenIndex (tk : Token.t) (n : Z) :
  Token.text (Token.set_tokenIndex tk n) = Token.text tk.
Proof. reflexivity. Qed.

(** The first call on a stream starts it; the call then goes on as on a
    started stream. *)
Lemma LT_after_init (fuel : nat) (k : Z) (s s' : TokenStream.t) :
  TokenStream.lazyInit fuel s = Done tt s' ->
  TokenStream.index s' <> -1 ->
  TokenStream.LT fuel k s = TokenStream.LT fuel k s'.
Proof.
  intros Hinit Hstarted. unfold TokenStream.LT.
  unfold St.bind at 1. rewrite Hinit. symmetry.
  unfold St.bind at 1. now rewrite lazyInit_started.
Qed.

(** C4.  Let a token source return [a] on the default channel, then
    [c] on the hidden channel with text "#comment", then [b] on the default
    channel, then an end-of-file token.  A CommonTokenStream on the
    default channel answers [LT(1)] with [a] and [LT(2)] with [b], from
    the initial position and again after [LT(1)], each token carrying
    the index it was given in the buffer; and [getText()] over the whole
    buffer, which holds all four tokens, contains "#comment". *)
Theorem channel_filtering (src : nat -> Token.t) (a c b e : Token.t)
    (ta tb : option jsstring) (fuel : nat) :
  src 0%nat = a -> src 1%nat = c -> src 2%nat = b -> src 3%nat = e ->
  Token.channel a = VNum Token.DEFAULT_CHANNEL ->
  Token.channel c = VNum Token.HIDDEN_CHANNEL ->
  Token.channel b = VNum Token.DEFAULT_CHANNEL ->
  Token.type a <> Token.EOF -> Token.type c <> Token.EOF ->
  Token.type b <> Token.EOF -> Token.type e = Token.EOF ->
  Token.text a = Ok ta -> Token.text c = Ok (Some (lit "#comment")) ->
  Token.text b = Ok tb ->
  (2 <= fuel)%nat ->
  let s0 := TokenStream.CommonTokenStream src Token.DEFAULT_CHANNEL in
  let A := Token.set_tokenIndex a 0 in
  let B := Token.set_tokenIndex b 2 in
  exists s1 s2 s3 text,
    TokenStream.LT fuel 1 s0 = Done (TokenStream.STok A) s1 /\
    TokenStream.LT fuel 2 s0 = Done (TokenStream.STok B) s2 /\
    TokenStream.LT fuel 2 s1 = Done (TokenStream.STok B) s2 /\
    TokenStream.getText fuel None s2 = Done text s3 /\
    Documented.occurs_in (lit "#comment") text /\
    TokenStream.tokens s3
      = [A; Token.set_tokenIndex c 1; B; Token.set_tokenIndex e 3].
Proof.
  intros H0 H1 H2 H3 Hca Hcc Hcb Hta Htc Htb Hte Hxa Hxc Hxb Hfuel s0 A B.
  destruct fuel as [|[|fuel]]; [lia|lia|clear Hfuel].
  apply Z.eqb_neq in Hta, Htc, Htb. apply Z.eqb_eq in Hte.
  set (C := Token.set_tokenIndex c 1). set (E := Token.set_tokenIndex e 3).
  pose (cs := fun p toks idx f =>
          TokenStream.mk TokenStream.Common src p toks idx f
            (VNum Token.DEFAULT_CHANNEL)).
  (* the first use of the stream fetches [A] and rests on it *)
  assert (Hinit : TokenStream.lazyInit (S (S fuel)) s0
                  = Done tt (cs 1%nat [A] 0 false)).
  { unfold TokenStream.lazyInit. unfold St.bind at 1, St.get at 1.
    change (TokenStream.index s0 =? -1) with true. cbv iota.
    unfold TokenStream.setup. unfold St.bind at 1.
    rewrite (sync_one_more 0 s0)
      by (try reflexivity; cbn; rewrite H0; assumption).
    change (snd (TokenStream.pull s0))
      with (cs 1%nat [Token.set_tokenIndex (src 0%nat) 0] (-1) false).
    rewrite H0. fold A.
    unfold St.bind at 1, TokenStream.adjustSeekIndex at 1, St.bind at 1,
      St.get at 1.
    unfold cs at 1; cbn [TokenStream.kind].
    rewrite (nextTokenOnChannel_here _ 0 _ _ A) by (try reflexivity; exact Hca).
    reflexivity. }
  (* looking one on-channel token further fetches [#comment] and [B] *)
  assert (Hnext : TokenStream.LT_loop (S (S fuel)) 1 0 (cs 1%nat [A] 0 false)
                  = Done 2 (cs 3%nat [A; C; B] 0 false)).
  { cbn [TokenStream.LT_loop]. unfold St.bind at 1.
    rewrite (sync_one_more (0 + 1) (cs 1%nat [A] 0 false))
      by (try reflexivity; cbn; rewrite H1; assumption).
    change (snd (TokenStream.pull (cs 1%nat [A] 0 false)))
      with (cs 2%nat [A; Token.set_tokenIndex (src 1%nat) 1] 0 false).
    rewrite H1. fold C.
    unfold St.bind at 1, St.get at 1. unfold St.bind at 1.
    unfold TokenStream.nextTokenOnChannel.
    unfold St.bind at 1. rewrite sync_resident by (unfold cs, len; cbn [TokenStream.tokens TokenStream.index length]; lia).
    unfold St.bind at 1, St.get at 1.
    change (len (TokenStream.tokens (cs 2%nat [A; C] 0 false)) <=? 0 + 1)
      with false. cbv iota.
    change (TokenStream.slot_at (TokenStream.tokens (cs 2%nat [A; C] 0 false))
              (0 + 1)) with (TokenStream.STok C).
    rewrite nextTokenOnChannel_loop_skip
      by (try exact Htc; cbn; rewrite Hcc; discriminate).
    rewrite (sync_one_more (0 + 1 + 1) (cs 2%nat [A; C] 0 false))
      by (try reflexivity; cbn; rewrite H2; assumption).
    change (snd (TokenStream.pull (cs 2%nat [A; C] 0 false)))
      with (cs 3%nat [A; C; Token.set_tokenIndex (src 2%nat) 2] 0 false).
    rewrite H2. fold B.
    change (TokenStream.slot_at
              (TokenStream.tokens (cs 3%nat [A; C; B] 0 false)) (0 + 1 + 1))
      with (TokenStream.STok B).
    rewrite nextTokenOnChannel_loop_here by exact Hcb.
    reflexivity. }
  assert (HLT2 : TokenStream.LT (S (S fuel)) 2 (cs 1%nat [A] 0 false)
                 = Done (TokenStream.STok B) (cs 3%nat [A; C; B] 0 false)).
  { unfold TokenStream.LT. unfold St.bind at 1.
    rewrite lazyInit_started by (unfold cs, len; cbn [TokenStream.tokens TokenStream.index length]; lia).
    unfold St.bind at 1, St.get at 1. unfold cs at 1; cbn [TokenStream.kind].
    change (2 =? 0) with false. change (2 <? 0) with false. cbv iota.
    change (Z.to_nat (2 - 1)) with 1%nat.
    unfold St.bind at 1. change (TokenStream.index (cs 1%nat [A] 0 false)) with 0.
    rewrite Hnext. reflexivity. }
  (* filling the buffer fetches the end-of-file token *)
  assert (Hfill : TokenStream.fill (S (S fuel)) (cs 3%nat [A; C; B] 0 false)
                  = Done tt (cs 4%nat [A; C; B; E] 0 true)).
  { unfold TokenStream.fill. unfold St.bind at 1.
    rewrite lazyInit_started by (unfold cs, len; cbn [TokenStream.tokens TokenStream.index length]; lia).
    cbn [TokenStream.fill_loop]. unfold St.bind at 1.
    rewrite fetch_EOF_next
      by (try reflexivity; try lia; cbn; rewrite H3; assumption).
    change (TokenStream.set_fetchedEOF true
              (snd (TokenStream.pull (cs 3%nat [A; C; B] 0 false))))
      with (cs 4%nat [A; C; B; Token.set_tokenIndex (src 3%nat) 3] 0 true).
    rewrite H3. fold E. reflexivity. }
  exists (cs 1%nat [A] 0 false), (cs 3%nat [A; C; B] 0 false),
         (cs 4%nat [A; C; B; E] 0 true),
         (TokenStream.append_text
            (TokenStream.append_text (TokenStream.append_text [] ta)
               (Some (lit "#comment"))) tb).
  assert (Hstarted : TokenStream.index (cs 1%nat [A] 0 false) <> -1)
    by discriminate.
  split.
  { rewrite (LT_after_init _ _ _ _ Hinit Hstarted).
    rewrite LT_1_at_cursor; [reflexivity|].
    unfold cs, len; cbn [TokenStream.tokens TokenStream.index length]; lia. }
  split.
  { rewrite (LT_after_init _ _ _ _ Hinit Hstarted). exact HLT2. }
  split; [exact HLT2|].
  split.
  { unfold TokenStream.getText. unfold St.bind at 1.
    rewrite lazyInit_started by discriminate.
    unfold St.bind at 1. rewrite Hfill.
    unfold St.bind at 1, St.get at 1.
    change (len (TokenStream.tokens (cs 4%nat [A; C; B; E] 0 true)) - 1)
      with 3.
    cbv beta iota zeta.
    change ((0 <? 0) || (3 <? 0)) with false. cbv iota.
    change (len (TokenStream.tokens (cs 4%nat [A; C; B; E] 0 true)) <=? 3)
      with false. cbv iota.
    change (Z.to_nat (3 + 1 - 0)) with 4%nat.
    change (TokenStream.tokens (cs 4%nat [A; C; B; E] 0 true))
      with [A; C; B; E].
    cbn [TokenStream.getText_loop].
    change (at_index [A; C; B; E] 0) with (Some A).
    change (at_index [A; C; B; E] (0 + 1)) with (Some C).
    change (at_index [A; C; B; E] (0 + 1 + 1)) with (Some B).
    change (at_index [A; C; B; E] (0 + 1 + 1 + 1)) with (Some E).
    cbv iota.
    change (Token.type A) with (Token.type a).
    change (Token.type C) with (Token.type c).
    change (Token.type B) with (Token.type b).
    change (Token.type E) with (Token.type e).
    rewrite Hta, Htc, Htb, Hte.
    unfold A, B, C. rewrite !text_set_tokenIndex, Hxa, Hxc, Hxb.
    reflexivity. }
  split; [|reflexivity].
  exists (TokenStream.append_text [] ta), (TokenStream.append_text [] tb).
  unfold TokenStream.append_text. rewrite !app_nil_l.
  now rewrite <- app_assoc.
Qed.

Lemma channel_filtering_witness :
  exists s1 s2 s3 text,
    TokenStream.LT 2 1 (TokenStream.CommonTokenStream commented 0)
      = Done (TokenStream.STok (Token.set_tokenIndex tokA 0)) s1 /\
    TokenStream.LT 2 2 (TokenStream.CommonTokenStream commented 0)
      = Done (TokenStream.STok (Token.set_tokenIndex tokB 2)) s2 /\
    TokenStream.LT 2 2 s1
      = Done (TokenStream.STok (Token.set_tokenIndex tokB 2)) s2 /\
    TokenStream.getText 2 None s2 = Done text s3 /\
    Documented.occurs_in (lit "#comment") text /\
    TokenStream.tokens s3
      = [Token.set_tokenIndex tokA 0; Token.set_tokenIndex tokComment 1;
         Token.set_tokenIndex tokB 2; Token.set_tokenIndex tokEOF 3].
Proof.
  apply (channel_filtering commented tokA tokComment tokB tokEOF
           (Some (lit "A")) (Some (lit "B")) 2);
    first [reflexivity | discriminate | lia].
Defined.

(** ** The hash-consing Set *)

Section HashConsing.
Context {V : Type}.
Variable hashFunction : V -> Z.
Variable equalsFunction : V -> V -> bool.

(** What a caller owes the Set: the equality is symmetric and
    transitive, and equal values have equal hashes. *)
Hypothesis equals_sym :
  forall a b, equalsFunction a b = true -> equalsFunction b a = true.
Hypothesis equals_trans :
  forall a b c,
    equalsFunction a b = true -> equalsFunction b c = true ->
    equalsFunction a c = true.
Hypothesis hash_respects :
  forall a b, equalsFunction a b = true -> hashFunction a = hashFunction b.

Lemma scan_found (value found : V) (values : list V) :
  HashSet.scan equalsFunction value values = Some found ->
  exists i,
    values !! i = Some found /\ equalsFunction value found = true /\
    forall j x, (j < i)%nat -> values !! j = Some x ->
                equalsFunction value x = false.
Proof.
  induction values as [|x rest IH]; cbn [HashSet.scan]; [discriminate|].
  destruct (equalsFunction value x) eqn:Hx.
  - intros [= ->]. exists 0%nat. repeat split; [assumption|]. intros; lia.
  - intros Hrest. destruct (IH Hrest) as (i & Hi & Heq & Hmin).
    exists (S i). repeat split; [exact Hi|exact Heq|].
    intros [|j] y Hlt Hy; cbn in Hy.
    + now inversion Hy; subst.
    + apply (Hmin j); [lia|exact Hy].
Qed.

Lemma scan_none (value : V) (values : list V) :
  HashSet.scan equalsFunction value values = None <->
  forall x, x ∈ values -> equalsFunction value x = false.
Proof.
  induction values as [|x rest IH]; cbn [HashSet.scan].
  - split; [|reflexivity]. intros _ y Hy. inversion Hy.
  - destruct (equalsFunction value x) eqn:Hx.
    + split; [discriminate|]. intros H.
      rewrite (H x) in Hx by constructor. discriminate.
    + rewrite IH. split.
      * intros H y Hy. inversion Hy; subst; [exact Hx|now apply H].
      * intros H y Hy. apply H. now constructor.
Qed.

Lemma add_well_formed (value : V) (data : gmap string (list V)) :
  HashSet.well_formed hashFunction equalsFunction data ->
  HashSet.well_formed hashFunction equalsFunction
    (snd (HashSet.add hashFunction equalsFunction value data)).
Proof.
  intros Hwf. unfold HashSet.add.
  destruct (data !! HashSet.key hashFunction value) as [values|] eqn:Hlook.
  - destruct (HashSet.scan equalsFunction value values) as [found|] eqn:Hscan;
      [exact Hwf|].
    cbn [snd]. intros k l Hk.
    destruct (decide (k = HashSet.key hashFunction value)) as [->|Hne].
    + rewrite lookup_insert_eq in Hk. inversion Hk; subst l; clear Hk.
      destruct (Hwf _ _ Hlook) as [Hkeys Hdist]. split.
      * intros x Hx. apply elem_of_app in Hx as [Hx|Hx]; [now apply Hkeys|].
        apply list_elem_of_singleton in Hx. now subst.
      * intros i j x y Hij Hi Hj.
        destruct (decide (j < length values)%nat) as [Hj'|Hj'].
        -- rewrite lookup_app_l in Hi, Hj by lia. now apply (Hdist i j).
        -- rewrite lookup_app_r in Hj by lia.
           destruct (j - length values)%nat as [|n] eqn:Hdiff;
             [|now destruct n].
           inversion Hj; subst y.
           rewrite lookup_app_l in Hi by lia.
           apply (proj1 (scan_none value values) Hscan).
           apply list_elem_of_lookup. eauto.
    + rewrite lookup_insert_ne in Hk by congruence. now apply Hwf.
  - cbn [snd]. intros k l Hk.
    destruct (decide (k = HashSet.key hashFunction value)) as [->|Hne].
    + rewrite lookup_insert_eq in Hk. inversion Hk; subst l; clear Hk. split.
      * intros x Hx. apply list_elem_of_singleton in Hx. now subst.
      * intros i j x y Hij Hi Hj. destruct j as [|j]; [lia|]. discriminate.
    + rewrite lookup_insert_ne in Hk by congruence. now apply Hwf.
Qed.

(** Every Set built by [add] alone is well formed. *)
Lemma reachable_well_formed (data : gmap string (list V)) :
  HashSet.reachable hashFunction equalsFunction data ->
  HashSet.well_formed hashFunction equalsFunction data.
Proof.
  induction 1 as [|value data _ IH].
  - intros k l Hk. rewrite lookup_empty in Hk. discriminate.
  - now apply add_well_formed.
Qed.

(** C8.  In a Set built by [add] calls, with an equality that is
    symmetric and transitive and a hash that equal values share: adding
    a value [v2] equal to a stored instance [v1] returns [v1] and leaves
    every bucket as it was; adding a value equal to no stored instance
    appends it to the bucket of its hash and returns it. *)
Theorem add_returns_canonical_instance (data : gmap string (list V))
    (v1 v2 : V) :
  HashSet.reachable hashFunction equalsFunction data ->
  (HashSet.stored data v1 -> equalsFunction v2 v1 = true ->
   HashSet.add hashFunction equalsFunction v2 data = (v1, data)) /\
  ((forall x, HashSet.stored data x -> equalsFunction v2 x = false) ->
   HashSet.add hashFunction equalsFunction v2 data
   = (v2, <[HashSet.key hashFunction v2 :=
              HashSet.bucket hashFunction v2 data ++ [v2]]> data)).
Proof.
  intros Hreach. pose proof (reachable_well_formed data Hreach) as Hwf.
  split.
  - intros (k & values & Hk & Hin) Heq.
    destruct (Hwf _ _ Hk) as [Hkeys Hdist].
    assert (Hkey : HashSet.key hashFunction v2 = k).
    { rewrite <- (Hkeys v1 Hin). unfold HashSet.key.
      now rewrite (hash_respects v2 v1 Heq). }
    unfold HashSet.add. rewrite Hkey, Hk.
    destruct (HashSet.scan equalsFunction v2 values) as [found|] eqn:Hscan.
    + destruct (scan_found _ _ _ Hscan) as (i & Hi & Hfound & Hmin).
      apply list_elem_of_lookup in Hin as [j Hj].
      destruct (lt_eq_lt_dec i j) as [[Hlt|Heqij]|Hgt].
      * pose proof (Hdist i j found v1 Hlt Hi Hj) as Hne.
        rewrite (equals_trans v1 v2 found) in Hne; [discriminate| |exact Hfound].
        now apply equals_sym.
      * subst j. rewrite Hi in Hj. now inversion Hj.
      * rewrite (Hmin j v1 Hgt Hj) in Heq. discriminate.
    + rewrite (proj1 (scan_none v2 values) Hscan v1 Hin) in Heq. discriminate.
  - intros Hnone. unfold HashSet.add, HashSet.bucket.
    destruct (data !! HashSet.key hashFunction v2) as [values|] eqn:Hlook;
      [|reflexivity].
    cbn [default].
    destruct (HashSet.scan equalsFunction v2 values) as [found|] eqn:Hscan;
      [|reflexivity].
    destruct (scan_found _ _ _ Hscan) as (i & Hi & Hfound & _).
    rewrite Hnone in Hfound; [discriminate|].
    exists (HashSet.key hashFunction v2), values. split; [exact Hlook|].
    apply list_elem_of_lookup. eauto.
Qed.

End HashConsing.

Lemma add_returns_canonical_instance_witness :
  let first := (1, 7) in
  let second := (2, 7) in
  let other := (3, 8) in
  let data := snd (HashSet.add structure_hash same_structure first ∅) in
  HashSet.add structure_hash same_structure second data = (first, data) /\
  HashSet.add structure_hash same_structure other data
  = (other, <["hash_8"%string := [other]]> data).
Proof.
  intros first second other data.
  assert (Hsym : forall a b : Z * Z,
             same_structure a b = true -> same_structure b a = true).
  { unfold same_structure. intros a b H. apply Z.eqb_eq in H.
    apply Z.eqb_eq. lia. }
  assert (Htrans : forall a b c : Z * Z,
             same_structure a b = true -> same_structure b c = true ->
             same_structure a c = true).
  { unfold same_structure. intros a b c H1 H2.
    apply Z.eqb_eq in H1, H2. apply Z.eqb_eq. lia. }
  assert (Hhash : forall a b : Z * Z,
             same_structure a b = true ->
             structure_hash a = structure_hash b).
  { unfold same_structure, structure_hash. intros a b H.
    now apply Z.eqb_eq in H. }
  assert (Hreach : HashSet.reachable structure_hash same_structure data).
  { apply HashSet.reach_add, HashSet.reach_new. }
  split.
  - apply (add_returns_canonical_instance structure_hash same_structure
             Hsym Htrans Hhash data first second Hreach).
    + exists "hash_7"%string, [first]. split; [reflexivity|].
      apply list_elem_of_singleton. reflexivity.
    + reflexivity.
  - apply (proj2 (add_returns_canonical_instance structure_hash same_structure
                    Hsym Htrans Hhash data other other Hreach)).
    intros x (k & values & Hk & Hin).
    destruct (decide (k = "hash_7"%string)) as [->|Hne].
    + vm_compute in Hk. inversion Hk; subst values.
      apply list_elem_of_singleton in Hin. now subst x.
    + unfold data, HashSet.add in Hk. rewrite lookup_empty in Hk.
      cbn [snd] in Hk.
      change (HashSet.key structure_hash first) with "hash_7"%string in Hk.
      rewrite lookup_insert_ne in Hk by congruence.
      rewrite lookup_empty in Hk. discriminate.
Defined.

(** C8 as it is worded, for every Set and its supplied functions,
    fails where the functions break the contract of the theorem above.
    With a hash that equal values do not share, the equal instance sits
    in another bucket: [(2, 7)] is inserted although the equal
    [(1, 7)] is stored.  With one bucket and an equality that is not
    transitive, or not symmetric, two stored instances that differ both
    equal the value added, and [add] returns the first of them, not the
    other. *)
Lemma add_fails_without_the_contract :
  (let data := snd (HashSet.add identity_hash same_structure (1, 7) ∅) in
   HashSet.reachable identity_hash same_structure data /\
   HashSet.stored data (1, 7) /\
   same_structure (2, 7) (1, 7) = true /\
   HashSet.add identity_hash same_structure (2, 7) data
   = ((2, 7), <["hash_2"%string := [(2, 7)]]> data) /\
   HashSet.add identity_hash same_structure (2, 7) data <> ((1, 7), data)) /\
  (let data :=
     snd (HashSet.add constant_hash near 2
            (snd (HashSet.add constant_hash near 0 ∅))) in
   HashSet.reachable constant_hash near data /\
   HashSet.stored data 2 /\
   near 1 2 = true /\
   HashSet.add constant_hash near 1 data = (0, data) /\
   HashSet.add constant_hash near 1 data <> (2, data)) /\
  (let data :=
     snd (HashSet.add constant_hash at_most 7
            (snd (HashSet.add constant_hash at_most 5 ∅))) in
   HashSet.reachable constant_hash at_most data /\
   HashSet.stored data 7 /\
   at_most 3 7 = true /\
   HashSet.add constant_hash at_most 3 data = (5, data) /\
   HashSet.add constant_hash at_most 3 data <> (7, data)).
Proof.
  split; [|split]; intros data.
  - split; [apply HashSet.reach_add, HashSet.reach_new|].
    split.
    { exists "hash_1"%string, [(1, 7)]. split; [reflexivity|].
      apply list_elem_of_singleton. reflexivity. }
    split; [reflexivity|]. split; [reflexivity|].
    intros H. apply (f_equal fst) in H. vm_compute in H. discriminate.
  - split; [do 2 apply HashSet.reach_add; apply HashSet.reach_new|].
    split.
    { exists "hash_0"%string, [0; 2]. split; [reflexivity|].
      apply list_elem_of_lookup. now exists 1%nat. }
    split; [reflexivity|]. split; [reflexivity|].
    intros H. apply (f_equal fst) in H. vm_compute in H. discriminate.
  - split; [do 2 apply HashSet.reach_add; apply HashSet.reach_new|].
    split.
    { exists "hash_0"%string, [5; 7]. split; [reflexivity|].
      apply list_elem_of_lookup. now exists 1%nat. }
    split; [reflexivity|]. split; [reflexivity|].
    intros H. apply (f_equal fst) in H. vm_compute in H. discriminate.
Qed.

(** ** BitSet *)

Lemma add_element_slots (slot : bool) (s : BitSet.t) :
  BitSet.slots (BitSet.add (BitSet.element slot) s) = BitSet.slots s.
Proof. now destruct slot. Qed.

(** [or] never changes which integers [this] contains. *)
Lemma or_keeps_slots (this set : BitSet.t) :
  BitSet.slots (BitSet.or this set) = BitSet.slots this.
Proof.
  unfold BitSet.or. generalize (BitSet.slots set) as l. intros l.
  revert this. induction l as [|slot l IH]; intros this; [reflexivity|].
  cbn [fold_left]. now rewrite IH, add_element_slots.
Qed.

Lemma or_keeps_integers (this set : BitSet.t) (n : nat) :
  BitSet.contains (BitSet.or this set) (BitSet.ENum n)
  = BitSet.contains this (BitSet.ENum n).
Proof. unfold BitSet.contains. now rewrite or_keeps_slots. Qed.

(** C10.  With [a] empty and [b] holding 3, [a.or(b)] leaves [a] without
    3: it has added to [a] the properties named "undefined" and "true",
    the values the slots of [b] hold, not their indices. *)
Theorem or_misses_the_members_of_its_argument :
  let a := BitSet.new in
  let b := BitSet.add (BitSet.ENum 3) BitSet.new in
  BitSet.contains b (BitSet.ENum 3) = true /\
  BitSet.contains (BitSet.or a b) (BitSet.ENum 3) = false /\
  BitSet.values (BitSet.or a b) = ["undefined"%string; "true"%string].
Proof. repeat split. Qed.

(** * Further properties of the code *)

(** ** The character cursor *)

Lemma consume_ok (s : InputStream.t) :
  InputStream.index s < InputStream.size s ->
  exists s',
    InputStream.consume s = Ok s' /\
    InputStream.index s' = InputStream.index s + 1 /\
    InputStream.data s' = InputStream.data s /\
    InputStream.size s' = InputStream.size s /\
    InputStream.strdata s' = InputStream.strdata s.
Proof.
  intros Hlt. unfold InputStream.consume.
  replace (InputStream.size s <=? InputStream.index s) with false
    by (symmetry; apply Z.leb_gt; lia).
  eexists. split; [reflexivity|]. repeat split.
Qed.

(** X1.  On a well-formed cursor, [k] calls of [consume()] succeed when
    at least [k] symbols are left, and then the index has advanced by
    [k] and [LA(1)] is the symbol at the new index, or the end-of-file
    sentinel when none is left; with fewer than [k] symbols left the
    calls end in the error "cannot consume EOF". *)
Theorem cursor_traversal (k : nat) :
  forall s : InputStream.t,
    Shape.cursor_ok s ->
    (Z.of_nat k <= InputStream.size s - InputStream.index s ->
     exists s',
       InputStream.consume_times k s = Ok s' /\
       InputStream.index s' = InputStream.index s + Z.of_nat k /\
       Shape.cursor_ok s' /\
       InputStream.data s' = InputStream.data s /\
       InputStream.LA s' 1
       = default InputStream.EOF
           (at_index (InputStream.data s) (InputStream.index s + Z.of_nat k)))
    /\
    (InputStream.size s - InputStream.index s < Z.of_nat k ->
     InputStream.consume_times k s = Raise (Error "cannot consume EOF")).
Proof.
  induction k as [|k IH]; intros s [Hidx Hsize].
  - split; [|lia]. intros _. exists s. cbn [InputStream.consume_times].
    rewrite Z.add_0_r. repeat split; try assumption; try lia.
    unfold InputStream.LA. cbn [Z.eqb Z.ltb Z.compare].
    replace (InputStream.index s + 1 - 1) with (InputStream.index s) by lia.
    destruct (InputStream.size s <=? InputStream.index s) eqn:Hend.
    + apply Z.leb_le in Hend.
      replace (InputStream.index s <? 0) with false
        by (symmetry; apply Z.ltb_ge; lia).
      cbn [orb]. unfold at_index.
      replace (InputStream.index s <? 0) with false
        by (symmetry; apply Z.ltb_ge; lia).
      rewrite lookup_ge_None_2; [reflexivity|]. unfold len in Hsize. lia.
    + replace (InputStream.index s <? 0) with false
        by (symmetry; apply Z.ltb_ge; lia).
      cbn [orb]. now destruct (at_index _ _).
  - cbn [InputStream.consume_times].
    destruct (Z_lt_le_dec (InputStream.index s) (InputStream.size s))
      as [Hlt|Hge].
    + destruct (consume_ok s Hlt) as (s1 & Hc & Hi1 & Hd1 & Hs1 & _).
      rewrite Hc. cbn [rbind].
      assert (Hok1 : Shape.cursor_ok s1).
      { split; [lia|]. now rewrite Hs1, Hd1. }
      destruct (IH s1 Hok1) as [IHok IHfail]. split.
      * intros Hk. destruct IHok as (s' & Hrun & Hi & Hok & Hd & Hla); [lia|].
        exists s'. rewrite Hrun. split; [reflexivity|].
        split; [lia|]. split; [exact Hok|].
        split; [congruence|].
        rewrite Hla, Hd1. do 2 f_equal. lia.
      * intros Hk. apply IHfail. lia.
    + split; [lia|]. intros _. unfold InputStream.consume.
      replace (InputStream.size s <=? InputStream.index s) with true
        by (symmetry; apply Z.leb_le; lia).
      reflexivity.
Qed.

Lemma cursor_traversal_witness :
  (exists s',
     InputStream.consume_times 2 (cursor "ab" 0) = Ok s' /\
     InputStream.index s' = 2 /\ InputStream.LA s' 1 = InputStream.EOF) /\
  InputStream.consume_times 3 (cursor "ab" 0)
  = Raise (Error "cannot consume EOF").
Proof.
  assert (Hok : Shape.cursor_ok (cursor "ab" 0)).
  { split; [split; discriminate|reflexivity]. }
  destruct (cursor_traversal 2 (cursor "ab" 0) Hok) as [Hrun _].
  destruct (cursor_traversal 3 (cursor "ab" 0) Hok) as [_ Hfail].
  split.
  - destruct Hrun as (s' & Hc & Hi & _ & _ & Hla); [discriminate|].
    exists s'. repeat split; assumption.
  - apply Hfail. reflexivity.
Defined.

(** X2.  After a successful [consume()], [LA(-1)] is the symbol that
    [LA(1)] showed before it. *)
Theorem LA_minus_one_after_consume (s s' : InputStream.t) :
  InputStream.consume s = Ok s' ->
  InputStream.LA s' (-1) = InputStream.LA s 1.
Proof.
  unfold InputStream.consume.
  destruct (InputStream.size s <=? InputStream.index s); [discriminate|].
  intros [= <-]. unfold InputStream.LA, InputStream.index, InputStream.size.
  cbn. replace (InputStream._index s + 1 + (-1 + 1) - 1)
    with (InputStream._index s + 1 - 1) by lia.
  reflexivity.
Qed.

Lemma LA_minus_one_after_consume_witness :
  InputStream.LA (cursor "ab" 1) (-1) = InputStream.LA (cursor "ab" 0) 1.
Proof.
  apply (LA_minus_one_after_consume (cursor "ab" 0) (cursor "ab" 1)).
  reflexivity.
Defined.



Lemma getText_raw (s : InputStream.t) (start stop : Z) :
  Shape.raw_cursor s -> 0 <= start -> start <= stop + 1 ->
  InputStream.getText s start stop
  = Ok (take (Z.to_nat (Z.min (stop + 1) (InputStream.size s) - start))
          (drop (Z.to_nat start) (InputStream.strdata s))).
Proof.
  intros (Hraw & Hdata & Hsize) Hstart Hstop.
  rewrite Hdata in Hsize.
  unfold InputStream.getText. rewrite Hraw.
  destruct (InputStream.size s <=? start) eqn:Hout.
  - apply Z.leb_le in Hout.
    replace (Z.to_nat (Z.min (stop + 1) (InputStream.size s) - start))
      with 0%nat by lia.
    reflexivity.
  - apply Z.leb_gt in Hout. f_equal. unfold InputStream.slice.
    rewrite <- Hsize.
    set (n := InputStream.size s) in *.
    set (stop' := if n <=? stop then n - 1 else stop).
    assert (Hstop' : stop' + 1 = Z.min (stop + 1) n).
    { unfold stop'. destruct (n <=? stop) eqn:H;
        [apply Z.leb_le in H|apply Z.leb_gt in H]; lia. }
    cbv zeta.
    replace (start <? 0) with false by (symmetry; apply Z.ltb_ge; lia).
    replace (stop' + 1 <? 0) with false by (symmetry; apply Z.ltb_ge; lia).
    rewrite Hstop'. do 2 f_equal; lia.
Qed.

(** X4.  On a raw-unit cursor the texts of two adjacent ranges make up
    the text of the range they cover: [getText(a, b)] followed by
    [getText(b + 1, c)] is [getText(a, c)], bounds past the end being
    cut at the end. *)
Theorem getText_adjacent_ranges (s : InputStream.t) (a b c : Z) :
  Shape.raw_cursor s -> 0 <= a -> a <= b + 1 -> b <= c ->
  exists x y,
    InputStream.getText s a b = Ok x /\
    InputStream.getText s (b + 1) c = Ok y /\
    InputStream.getText s a c = Ok (x ++ y).
Proof.
  intros Hraw Ha Hb Hc.
  rewrite !getText_raw by (try assumption; lia).
  eexists _, _. split; [reflexivity|]. split; [reflexivity|]. f_equal.
  destruct Hraw as (_ & Hdata & Hsize). rewrite Hdata in Hsize.
  set (n := InputStream.size s) in *. set (l := InputStream.strdata s) in *.
  destruct (Z_lt_le_dec (b + 1) n) as [Hin|Hout].
  - replace (Z.to_nat (Z.min (c + 1) n - a))
      with (Z.to_nat (Z.min (b + 1) n - a)
            + Z.to_nat (Z.min (c + 1) n - (b + 1)))%nat by lia.
    rewrite <- take_take_drop, drop_drop.
    do 3 f_equal. lia.
  - replace (Z.to_nat (Z.min (c + 1) n - (b + 1))) with 0%nat by lia.
    cbn [take]. rewrite app_nil_r. do 2 f_equal. lia.
Qed.

Lemma getText_adjacent_ranges_witness :
  exists x y,
    InputStream.getText (cursor "abcde" 0) 1 2 = Ok x /\
    InputStream.getText (cursor "abcde" 0) 3 9 = Ok y /\
    InputStream.getText (cursor "abcde" 0) 1 9 = Ok (x ++ y).
Proof.
  apply (getText_adjacent_ranges (cursor "abcde" 0) 1 2 9);
    [repeat split|lia|lia|lia].
Defined.

(** ** Tokens and their factory *)

(** X5.  [create] returns a token exactly when no text is given and no
    text is to be copied from a cursor; it then returns the token that
    the constructor built, with the line and column set. *)
Theorem create_returns_iff (f : CommonTokenFactory.t)
    (source : Token.SourcePair) (type : Z) (text : option jsstring)
    (channel start stop line column : Z) :
  (exists tk,
     CommonTokenFactory.create f source type text channel start stop line
       column = Ok tk)
  <->
  text = None /\
  (CommonTokenFactory.copyText f = false \/ Token.pair_input source = None).
Proof.
  unfold CommonTokenFactory.create. split.
  - intros [tk Hrun]. destruct text as [t|]; [discriminate|].
    split; [reflexivity|].
    destruct (CommonTokenFactory.copyText f); [|now left].
    destruct (Token.pair_input source) as [input|]; [|now right].
    exfalso. revert Hrun.
    destruct (InputStream.getText input start stop); discriminate.
  - intros [-> Hcopy]. cbv zeta.
    destruct (CommonTokenFactory.copyText f) eqn:Hf.
    + destruct Hcopy as [Hc|Hin]; [discriminate|]. rewrite Hin. eauto.
    + eauto.
Qed.

Lemma create_returns_iff_witness :
  exists tk,
    CommonTokenFactory.create CommonTokenFactory.DEFAULT Token.EMPTY_SOURCE
      5 None 1 3 7 1 0 = Ok tk.
Proof.
  apply (proj2 (create_returns_iff CommonTokenFactory.DEFAULT
                  Token.EMPTY_SOURCE 5 None 1 3 7 1 0)).
  split; [reflexivity|left; reflexivity].
Defined.

(** X6.  [clone()] never returns a token, and neither does
    [createThin(type, text)]: both end in an exception. *)
Theorem clone_and_createThin_throw :
  (forall tk : Token.t, exists e, Token.clone tk = Raise e) /\
  (forall (f : CommonTokenFactory.t) (type : Z) (text : option jsstring),
     exists e, CommonTokenFactory.createThin f type text = Raise e).
Proof.
  split.
  - intros tk. unfold Token.clone.
    destruct (Token.text tk) as [text|e]; cbn; eauto.
  - intros f type text. cbn. eauto.
Qed.

(** ** The lexer *)

(** X7.  On a lexer with its matcher set, [pushMode(m)] makes [m] the
    current mode and pushes the former one; [popMode()] right after
    returns the former mode and leaves the lexer exactly as it was
    before the push; [popMode()] on an empty mode stack throws
    "Empty Stack" and changes nothing. *)
Theorem pushMode_popMode (m : Z) (l : Lexer.t) :
  St.bind (Lexer.pushMode m) (fun _ => Lexer.popMode) l
    = Done (Lexer._mode l) l /\
  (exists l1,
     Lexer.pushMode m l = Done tt l1 /\ Lexer._mode l1 = m /\
     Lexer._modeStack l1 = Lexer._modeStack l ++ [Lexer._mode l]) /\
  (Lexer._modeStack l = [] ->
   Lexer.popMode l = Thrown (Error "Empty Stack") l).
Proof.
  destruct l as [i f ln col tk si sl sc hit ch ty stack md txt rep].
  split; [|split].
  - unfold Lexer.pushMode, Lexer.popMode, Lexer.mode. run.
    cbn [Lexer.set_modes Lexer._modeStack Lexer._mode].
    replace (len (stack ++ [md]) =? 0) with false.
    2:{ symmetry. apply Z.eqb_neq. unfold len. rewrite length_app.
        cbn [length]. lia. }
    rewrite last_snoc. cbn [Lexer.set_modes Lexer._modeStack Lexer._mode].
    now rewrite removelast_last.
  - eexists. split; [reflexivity|]. split; reflexivity.
  - cbn [Lexer._modeStack]. intros ->. reflexivity.
Qed.

Lemma pushMode_popMode_witness :
  Lexer.popMode (lexer "ab") = Thrown (Error "Empty Stack") (lexer "ab").
Proof.
  apply (proj2 (proj2 (pushMode_popMode 3 (lexer "ab")))). reflexivity.
Defined.

(** X8.  Once the end of the input has been seen, [nextToken()] returns
    an end-of-file token without calling the matcher, for a factory
    that does not copy text: the token has type [EOF], index -1 and
    stops before the cursor; the lexer only records it as its current
    token, and a further call returns an equal token again. *)
Theorem nextToken_after_EOF_is_stable
    (interp_match : M Lexer.t Z) (interp_consume : M Lexer.t unit)
    (fuel : nat) (l : Lexer.t) (i : InputStream.t) :
  Lexer._hitEOF l = true ->
  Lexer._input l = Some i ->
  CommonTokenFactory.copyText (Lexer._factory l) = false ->
  exists eof,
    Lexer.nextToken interp_match interp_consume (S fuel) l
      = Done (Some eof) (Lexer.set_token (Some eof) l) /\
    Lexer.nextToken interp_match interp_consume (S fuel)
      (Lexer.set_token (Some eof) l)
      = Done (Some eof) (Lexer.set_token (Some eof) l) /\
    Token.type eof = Token.EOF /\ Token.tokenIndex eof = -1 /\
    Token.stop eof = InputStream.index i - 1.
Proof.
  intros Hhit Hin Hcopy.
  destruct l as [inp f ln col tk si sl sc hit ch ty stack md txt rep].
  cbn in Hhit, Hin, Hcopy. subst inp hit. destruct f as [copy].
  cbn in Hcopy. subst copy.
  eexists. split; [reflexivity|]. split; [reflexivity|].
  split; [reflexivity|]. split; reflexivity.
Qed.

Lemma nextToken_after_EOF_is_stable_witness :
  exists eof,
    Lexer.nextToken unterminated step_cursor 1
      (Lexer.set_hitEOF true (lexer "ab"))
      = Done (Some eof)
          (Lexer.set_token (Some eof) (Lexer.set_hitEOF true (lexer "ab"))) /\
    Token.type eof = Token.EOF.
Proof.
  destruct (nextToken_after_EOF_is_stable unterminated step_cursor 0
              (Lexer.set_hitEOF true (lexer "ab")) (cursor "ab" 0))
    as (eof & Hrun & _ & Htype & _); [reflexivity|reflexivity|reflexivity|].
  exists eof. split; assumption.
Defined.




Lemma getAllTokens_loop_never_returns
    (interp_match : M Lexer.t Z) (interp_consume : M Lexer.t unit)
    (fuel : nat) :
  forall tokens token l result l',
    Lexer.getAllTokens_loop interp_match interp_consume fuel tokens token l
    <> Done result l'.
Proof.
  induction fuel as [|fuel IH]; intros tokens token l result l';
    [discriminate|].
  cbn [Lexer.getAllTokens_loop]. destruct token as [tk|]; [|discriminate].
  unfold St.bind at 1, Lexer.not_EOF_test, St.ret at 1. cbv iota.
  unfold St.bind at 1.
  destruct (Lexer.nextToken interp_match interp_consume fuel l)
    as [next l1|e l1|]; [apply IH|discriminate|discriminate].
Qed.

(** X10.  [getAllTokens()] never returns its list: its loop test
    compares a property of the token with [Token.EOF] and holds for
    every token, so the call goes on until [nextToken()] throws, or for
    ever. *)
Theorem getAllTokens_never_returns
    (interp_match : M Lexer.t Z) (interp_consume : M Lexer.t unit)
    (fuel : nat) (l l' : Lexer.t) (result : list Token.t) :
  Lexer.getAllTokens interp_match interp_consume fuel l <> Done result l'.
Proof.
  unfold Lexer.getAllTokens. unfold St.bind.
  destruct (Lexer.nextToken interp_match interp_consume fuel l)
    as [token l1|e l1|]; [|discriminate|discriminate].
  apply getAllTokens_loop_never_returns.
Qed.

(** ** The containers of Utils.js *)

Lemma scan_app_self {V} (equalsFunction : V -> V -> bool) (value : V)
    (values : list V) :
  equalsFunction value value = true ->
  HashSet.scan equalsFunction value values = None ->
  HashSet.scan equalsFunction value (values ++ [value]) = Some value.
Proof.
  intros Hrefl. induction values as [|x rest IH]; cbn [HashSet.scan app].
  - now rewrite Hrefl.
  - destruct (equalsFunction value x); [discriminate|exact IH].
Qed.

(** X11.  After [add(value)] on a Set whose equality holds between a
    value and itself, [get(value)] returns what [add] returned,
    [contains(value)] is true, and adding the value again returns the
    same and leaves the data as they are. *)
Theorem add_then_get {V} (hashFunction : V -> Z)
    (equalsFunction : V -> V -> bool) (value : V)
    (data : gmap string (list V)) :
  equalsFunction value value = true ->
  let result := HashSet.add hashFunction equalsFunction value data in
  HashSet.get hashFunction equalsFunction value (snd result)
    = Some (fst result) /\
  HashSet.contains hashFunction equalsFunction value (snd result) = true /\
  HashSet.add hashFunction equalsFunction value (snd result) = result.
Proof.
  intros Hrefl result.
  assert (Hget : HashSet.get hashFunction equalsFunction value (snd result)
                 = Some (fst result)).
  { subst result. unfold HashSet.add, HashSet.get.
    destruct (data !! HashSet.key hashFunction value) as [values|] eqn:Hk.
    - destruct (HashSet.scan equalsFunction value values) as [found|] eqn:Hs;
        cbn [fst snd].
      + now rewrite Hk.
      + rewrite lookup_insert_eq. now apply scan_app_self.
    - cbn [fst snd]. rewrite lookup_insert_eq. cbn [HashSet.scan].
      now rewrite Hrefl. }
  split; [exact Hget|]. split.
  - unfold HashSet.contains. now rewrite Hget.
  - unfold HashSet.get in Hget. unfold HashSet.add at 1.
    destruct (snd result !! HashSet.key hashFunction value) as [values|];
      [|discriminate].
    rewrite Hget. now destruct result.
Qed.

Lemma add_then_get_witness :
  HashSet.get structure_hash same_structure (1, 7)
    (snd (HashSet.add structure_hash same_structure (1, 7) ∅))
  = Some (fst (HashSet.add structure_hash same_structure (1, 7) ∅)).
Proof.
  apply (proj1 (add_then_get structure_hash same_structure (1, 7) ∅
                  eq_refl)).
Defined.

Lemma replace_find {K V} (equalsFunction : K -> K -> bool) (key : K)
    (value : V) (entries : list (K * V)) :
  match HashMap.replace equalsFunction key value entries with
  | Some (old, entries') =>
      HashMap.find equalsFunction key entries = Some old /\
      HashMap.find equalsFunction key entries' = Some value /\
      map fst entries' = map fst entries
  | None => HashMap.find equalsFunction key entries = None
  end.
Proof.
  induction entries as [|[k v] rest IH];
    cbn [HashMap.replace HashMap.find]; [reflexivity|].
  destruct (equalsFunction key k) eqn:Hk.
  - cbn [HashMap.find]. rewrite Hk. auto.
  - destruct (HashMap.replace equalsFunction key value rest)
      as [[old rest']|].
    + destruct IH as (Hold & Hnew & Hkeys).
      cbn [HashMap.find map fst]. rewrite Hk, Hkeys. auto.
    + exact IH.
Qed.

Lemma find_app_self {K V} (equalsFunction : K -> K -> bool) (key : K)
    (value : V) (entries : list (K * V)) :
  equalsFunction key key = true ->
  HashMap.find equalsFunction key entries = None ->
  HashMap.find equalsFunction key (entries ++ [(key, value)]) = Some value.
Proof.
  intros Hrefl. induction entries as [|[k v] rest IH];
    cbn [HashMap.find app].
  - now rewrite Hrefl.
  - destruct (equalsFunction key k); [discriminate|exact IH].
Qed.

(** X12.  After [put(key, value)] on a Map whose equality holds between
    a key and itself, [get(key)] returns the value; [put] returns the
    value that was stored under the key before, or the new value when
    there was none; and keys of another hash read as before. *)
Theorem put_then_get {K V} (hashFunction : K -> Z)
    (equalsFunction : K -> K -> bool) (key : K) (value : V)
    (data : gmap string (list (K * V))) :
  equalsFunction key key = true ->
  let result := HashMap.put hashFunction equalsFunction key value data in
  HashMap.get hashFunction equalsFunction key (snd result) = Some value /\
  fst result
    = default value (HashMap.get hashFunction equalsFunction key data) /\
  forall other,
    hashFunction other <> hashFunction key ->
    HashMap.get hashFunction equalsFunction other (snd result)
    = HashMap.get hashFunction equalsFunction other data.
Proof.
  intros Hrefl result. subst result. unfold HashMap.put, HashMap.get.
  assert (Hkeys : forall other,
             hashFunction other <> hashFunction key ->
             HashMap.hashKey hashFunction key
             <> HashMap.hashKey hashFunction other).
  { intros other Hne Heq. apply Hne. unfold HashMap.hashKey in Heq.
    apply (inj (String.append "hash_")) in Heq.
    now apply (inj pretty) in Heq. }
  destruct (data !! HashMap.hashKey hashFunction key) as [entries|] eqn:Hk.
  - pose proof (replace_find equalsFunction key value entries) as Hrep.
    destruct (HashMap.replace equalsFunction key value entries)
      as [[old entries']|]; cbn [fst snd].
    + destruct Hrep as (Hold & Hnew & _).
      rewrite lookup_insert_eq, Hold, Hnew. repeat split.
      intros other Hne. now rewrite lookup_insert_ne by auto.
    + rewrite lookup_insert_eq, Hrep, find_app_self by assumption.
      repeat split. intros other Hne. now rewrite lookup_insert_ne by auto.
  - cbn [fst snd]. rewrite lookup_insert_eq. cbn [HashMap.find].
    rewrite Hrefl. repeat split.
    intros other Hne. now rewrite lookup_insert_ne by auto.
Qed.

Lemma put_then_get_witness :
  HashMap.get structure_hash same_structure (1, 7)
    (snd (HashMap.put structure_hash same_structure (1, 7) "x"%string ∅))
  = Some "x"%string.
Proof.
  apply (proj1 (put_then_get structure_hash same_structure (1, 7)
                  "x"%string ∅ eq_refl)).
Defined.

(** X13.  [containsKey] answers false for every key of every Map, also
    right after the key was put and while [get] finds it. *)
Theorem containsKey_is_always_false {K V} (hashFunction : K -> Z)
    (equalsFunction : K -> K -> bool) (key : K) (value : V)
    (data : gmap string (list (K * V))) :
  HashMap.containsKey hashFunction equalsFunction key data = false /\
  HashMap.containsKey hashFunction equalsFunction key
    (snd (HashMap.put hashFunction equalsFunction key value data)) = false.
Proof.
  assert (H : forall d : gmap string (list (K * V)),
             HashMap.containsKey hashFunction equalsFunction key d = false).
  { intros d. unfold HashMap.containsKey.
    now destruct (d !! HashMap.hashKey hashFunction key). }
  split; apply H.
Qed.

(** X14.  An AltDict does not return what was put: [get(key)] after
    [put(key, value)] is what it was before, because the value is
    stored under the bare key and read under the prefixed one; the
    value is found under the key that names the prefixed key. *)
Theorem AltDict_put_misses_get {V} (key : string) (value : V)
    (data : gmap string V) :
  AltDict.get key (AltDict.put key value data) = AltDict.get key data /\
  AltDict.get key (AltDict.put ("k-" ++ key) value data) = Some value.
Proof.
  unfold AltDict.get, AltDict.put. split.
  - apply lookup_insert_ne. intros Heq.
    apply (f_equal String.length) in Heq.
    simpl in Heq. change (String.append EmptyString key) with key in Heq.
    lia.
  - apply lookup_insert_eq.
Qed.

Lemma set_slot_lookup (n m : nat) (l : list bool) :
  default false (BitSet.set_slot n l !! m)
  = if decide (m = n) then true else default false (l !! m).
Proof.
  unfold BitSet.set_slot. destruct (decide (n < length l)%nat) as [Hin|Hout].
  - destruct (decide (m = n)) as [->|Hne].
    + now rewrite list_lookup_insert_eq.
    + now rewrite list_lookup_insert_ne by auto.
  - destruct (decide (m < length l)%nat) as [Hm|Hm].
    + rewrite lookup_app_l by exact Hm.
      destruct (decide (m = n)); [lia|reflexivity].
    + rewrite lookup_app_r by lia.
      rewrite (lookup_ge_None_2 l m) by lia.
      destruct (decide (m - length l < n - length l)%nat) as [Hr|Hr].
      * rewrite lookup_app_l by (rewrite length_replicate; exact Hr).
        rewrite lookup_replicate_2 by exact Hr.
        destruct (decide (m = n)); [lia|reflexivity].
      * rewrite lookup_app_r by (rewrite length_replicate; lia).
        rewrite length_replicate.
        destruct (decide (m = n)) as [->|Hne].
        -- now replace (n - length l - (n - length l))%nat with 0%nat by lia.
        -- destruct (m - length l - (n - length l))%nat eqn:Hd; [lia|].
           reflexivity.
Qed.

Lemma clear_slot_lookup (n m : nat) (l : list bool) :
  default false (<[n := false]> l !! m)
  = if decide (m = n) then false else default false (l !! m).
Proof.
  destruct (decide (m = n)) as [->|Hne].
  - destruct (decide (n < length l)%nat).
    + now rewrite list_lookup_insert_eq.
    + rewrite lookup_ge_None_2; [reflexivity|].
      rewrite length_insert. lia.
  - now rewrite list_lookup_insert_ne by auto.
Qed.

Lemma set_named_elem (x y : string) (l : list string) :
  y ∈ BitSet.set_named x l <-> y = x \/ y ∈ l.
Proof.
  unfold BitSet.set_named. destruct (decide (x ∈ l)) as [Hin|Hout].
  - split; [auto|]. intros [->|H]; assumption.
  - rewrite elem_of_app, list_elem_of_singleton. tauto.
Qed.

(** X15.  In a BitSet, [contains(v)] is true after [add(v)] and false
    after [remove(v)], and neither call changes what [contains]
    answers for any other value. *)
Theorem BitSet_add_remove_contains (s : BitSet.t) (v w : BitSet.Elt) :
  BitSet.contains (BitSet.add v s) w
    = (if decide (w = v) then true else BitSet.contains s w) /\
  BitSet.contains (BitSet.remove v s) w
    = (if decide (w = v) then false else BitSet.contains s w).
Proof.
  split.
  - destruct (decide (w = v)) as [->|Hne].
    + destruct v as [n| |];
        cbn [BitSet.add BitSet.contains BitSet.slots BitSet.named].
      * rewrite set_slot_lookup. now rewrite decide_True.
      * apply bool_decide_eq_true, set_named_elem. now left.
      * apply bool_decide_eq_true, set_named_elem. now left.
    + destruct v as [n| |], w as [m| |]; try congruence;
        cbn [BitSet.add BitSet.contains BitSet.slots BitSet.named];
        try reflexivity.
      * rewrite set_slot_lookup. rewrite decide_False by congruence.
        reflexivity.
      * apply bool_decide_ext. rewrite set_named_elem.
        split; [intros [?|?]; [discriminate|assumption]|now right].
      * apply bool_decide_ext. rewrite set_named_elem.
        split; [intros [?|?]; [discriminate|assumption]|now right].
  - destruct (decide (w = v)) as [->|Hne].
    + destruct v as [n| |];
        cbn [BitSet.remove BitSet.contains BitSet.slots BitSet.named].
      * rewrite clear_slot_lookup. now rewrite decide_True.
      * apply bool_decide_eq_false. rewrite list_elem_of_filter.
        intros [H _]. now apply H.
      * apply bool_decide_eq_false. rewrite list_elem_of_filter.
        intros [H _]. now apply H.
    + destruct v as [n| |], w as [m| |]; try congruence;
        cbn [BitSet.remove BitSet.contains BitSet.slots BitSet.named];
        try reflexivity.
      * rewrite clear_slot_lookup. rewrite decide_False by congruence.
        reflexivity.
      * apply bool_decide_ext. rewrite list_elem_of_filter.
        split; [now intros [_ ?]|intros ?; split; [discriminate|assumption]].
      * apply bool_decide_ext. rewrite list_elem_of_filter.
        split; [now intros [_ ?]|intros ?; split; [discriminate|assumption]].
Qed.

(** X16.  Every BitSet has the hash code 0, whatever it holds and
    whatever strings hash to, so [equals] is true between any two
    BitSets; a set holding 3 equals the empty one. *)
Theorem BitSet_equals_any_BitSet (string_hashCode : jsstring -> Z)
    (s other : BitSet.t) :
  BitSetHash.hashCode string_hashCode s = 0 /\
  BitSetHash.equals string_hashCode s (Some other) = true /\
  BitSetHash.equals string_hashCode
    (BitSet.add (BitSet.ENum 3) BitSet.new) (Some BitSet.new) = true /\
  BitSet.contains (BitSet.add (BitSet.ENum 3) BitSet.new) (BitSet.ENum 3)
    <> BitSet.contains BitSet.new (BitSet.ENum 3).
Proof.
  repeat split. discriminate.
Qed.

(** ** escapeWhitespace *)

Lemma replace_all_absent (c : Z) (by_ s : jsstring) :
  c ∉ s -> Text.replace_all c by_ s = s.
Proof.
  unfold Text.replace_all. induction s as [|u s IH]; [reflexivity|].
  intros Hc. cbn [flat_map].
  rewrite not_elem_of_cons in Hc. destruct Hc as [Hu Hs].
  rewrite (proj2 (Z.eqb_neq u c)) by auto. cbn [app]. now rewrite IH.
Qed.

Lemma replace_all_elem (c d : Z) (by_ s : jsstring) :
  d ∈ Text.replace_all c by_ s -> d ∈ by_ \/ (d ∈ s /\ d <> c).
Proof.
  unfold Text.replace_all. induction s as [|u s IH]; cbn [flat_map].
  - intros H. inversion H.
  - rewrite elem_of_app. intros [H|H].
    + destruct (u =? c) eqn:Hu; [now left|].
      apply list_elem_of_singleton in H. subst d. right.
      apply Z.eqb_neq in Hu. split; [constructor|exact Hu].
    + destruct (IH H) as [?|[? ?]]; [now left|right].
      split; [now constructor|assumption].
Qed.

(** X17.  The result of [escapeWhitespace] holds no tab, line feed or
    carriage return, and no space when spaces are escaped; the function
    returns such a string unchanged, so escaping twice is escaping
    once. *)
Theorem escapeWhitespace_escapes (s : jsstring) (escapeSpaces : bool) :
  let out := Text.escapeWhitespace s escapeSpaces in
  (9 ∉ out) /\ (10 ∉ out) /\ (13 ∉ out) /\
  (escapeSpaces = true -> 32 ∉ out) /\
  Text.escapeWhitespace out escapeSpaces = out.
Proof.
  intros out.
  assert (Hlit : forall d,
             (d ∈ lit "\t" \/ d ∈ lit "\n" \/ d ∈ lit "\r" \/ d ∈ [0xB7]) ->
             d <> 9 /\ d <> 10 /\ d <> 13 /\ d <> 32).
  { intros d H. cbn in H.
    repeat rewrite elem_of_cons in H. repeat rewrite elem_of_nil in H.
    lia. }
  assert (Hout : forall d, d ∈ out ->
             (d <> 9 /\ d <> 10 /\ d <> 13) /\
             (escapeSpaces = true -> d <> 32)).
  { intros d Hd. subst out. unfold Text.escapeWhitespace in Hd.
    assert (Hcore : forall d,
               d ∈ Text.replace_all 13 (lit "\r")
                     (Text.replace_all 10 (lit "\n")
                        (Text.replace_all 9 (lit "\t") s)) ->
               d <> 9 /\ d <> 10 /\ d <> 13).
    { intros x Hx.
      apply replace_all_elem in Hx as [Hx|[Hx H13]];
        [specialize (Hlit x); tauto|].
      apply replace_all_elem in Hx as [Hx|[Hx H10]];
        [specialize (Hlit x); tauto|].
      apply replace_all_elem in Hx as [Hx|[Hx H9]];
        [specialize (Hlit x); tauto|].
      auto. }
    destruct escapeSpaces.
    - apply replace_all_elem in Hd as [Hd|[Hd H32]].
      + specialize (Hlit d). tauto.
      + split; [now apply Hcore|auto].
    - split; [now apply Hcore|discriminate]. }
  assert (H9 : 9 ∉ out) by (intros H; apply Hout in H; lia).
  assert (H10 : 10 ∉ out) by (intros H; apply Hout in H; lia).
  assert (H13 : 13 ∉ out) by (intros H; apply Hout in H; lia).
  assert (H32 : escapeSpaces = true -> 32 ∉ out).
  { intros Hs H. apply Hout in H. destruct H as [_ H]. now apply H. }
  repeat split; try assumption.
  unfold Text.escapeWhitespace at 1.
  rewrite (replace_all_absent 9) by assumption.
  rewrite (replace_all_absent 10) by assumption.
  rewrite (replace_all_absent 13) by assumption.
  destruct escapeSpaces; [|reflexivity].
  apply replace_all_absent. now apply H32.
Qed.

Lemma escapeWhitespace_escapes_witness :
  32 ∉ Text.escapeWhitespace (lit "a b") true.
Proof.
  apply (proj1 (proj2 (proj2 (proj2
           (escapeWhitespace_escapes (lit "a b") true))))).
  reflexivity.
Defined.

(** ** What the token stream reads from its source *)

Lemma advance_zero (s : TokenStream.t) :
  Shape.advance s 0 (TokenStream.fetchedEOF s) = s.
Proof.
  destruct s. unfold Shape.advance, Shape.incoming. cbn.
  now rewrite Nat.add_0_r, app_nil_r.
Qed.

Lemma incoming_length (s : TokenStream.t) (n : nat) :
  length (Shape.incoming s n) = n.
Proof. unfold Shape.incoming. now rewrite length_map, length_seq. Qed.

Lemma incoming_succ (s : TokenStream.t) (n : nat) :
  Shape.incoming s (S n)
  = Token.set_tokenIndex
      (TokenStream.tokenSource s (TokenStream.pulled s))
      (len (TokenStream.tokens s))
    :: Shape.incoming (fst (snd (TokenStream.pull s), s)) n.
Proof.
  unfold Shape.incoming. cbn [seq map fst snd TokenStream.pull].
  rewrite Nat.add_0_r, Z.add_0_r. f_equal.
  rewrite <- seq_shift, map_map. apply map_ext. intros j.
  cbn [TokenStream.tokenSource TokenStream.pulled TokenStream.tokens].
  f_equal; [f_equal; lia|]. unfold len. rewrite length_app. cbn. lia.
Qed.

Lemma incoming_app (s : TokenStream.t) (a b : nat) (eof : bool) :
  Shape.incoming s (a + b)
  = Shape.incoming s a ++ Shape.incoming (Shape.advance s a eof) b.
Proof.
  unfold Shape.incoming. rewrite seq_app, map_app. f_equal.
  replace (0 + a)%nat with (a + 0)%nat by lia.
  rewrite <- (fmap_add_seq a 0 b).
  change (Nat.add a <$> seq 0 b) with (map (Nat.add a) (seq 0 b)).
  rewrite map_map. apply map_ext. intros j.
  cbn [Shape.advance TokenStream.tokenSource TokenStream.pulled
       TokenStream.tokens].
  f_equal; [f_equal; lia|].
  unfold len. rewrite length_app, incoming_length. lia.
Qed.

Lemma advance_advance (s : TokenStream.t) (a b : nat) (e e' : bool) :
  Shape.advance (Shape.advance s a e) b e' = Shape.advance s (a + b) e'.
Proof.
  pose proof (incoming_app s a b e) as H.
  unfold Shape.advance in *.
  cbn [TokenStream.kind TokenStream.tokenSource TokenStream.pulled
       TokenStream.tokens TokenStream.index TokenStream.channel].
  rewrite H, <- app_assoc. f_equal. lia.
Qed.

Lemma incoming_lookup (s : TokenStream.t) (n j : nat) :
  (j < n)%nat ->
  Shape.incoming s n !! j
  = Some (Token.set_tokenIndex
            (TokenStream.tokenSource s (TokenStream.pulled s + j))
            (len (TokenStream.tokens s) + Z.of_nat j)).
Proof.
  intros Hj. unfold Shape.incoming.
  change (map ?f ?l) with (f <$> l).
  rewrite list_lookup_fmap, lookup_seq_lt by exact Hj. reflexivity.
Qed.

(** The loop of [fetch] appends the next tokens of the source, stops
    right after the first end-of-file token among them, and touches no
    other field. *)
Lemma fetch_loop_exact (todo : nat) :
  forall (i : Z) (s : TokenStream.t),
    exists (n : nat) (r : option Z),
      (n <= todo)%nat /\
      TokenStream.fetch_loop todo i s
        = Done r (Shape.advance s n
                    (match r with
                     | Some _ => true
                     | None => TokenStream.fetchedEOF s
                     end)) /\
      (forall j, (S j < n)%nat ->
         Documented.is_EOF
           (TokenStream.tokenSource s (TokenStream.pulled s + j)) = false) /\
      match r with
      | Some k =>
          k = i + Z.of_nat n /\
          exists m, n = S m /\
            Documented.is_EOF
              (TokenStream.tokenSource s (TokenStream.pulled s + m)) = true
      | None =>
          n = todo /\
          forall j, (j < n)%nat ->
            Documented.is_EOF
              (TokenStream.tokenSource s (TokenStream.pulled s + j)) = false
      end.
Proof.
  induction todo as [|todo IH]; intros i s.
  - exists 0%nat, None. cbn [TokenStream.fetch_loop]. unfold St.ret.
    rewrite advance_zero. repeat split; intros; lia.
  - cbn [TokenStream.fetch_loop]. unfold St.bind at 1, St.get at 1.
    unfold TokenStream.pull.
    set (token := Token.set_tokenIndex _ _).
    unfold St.bind at 1, St.put at 1.
    set (s1 := TokenStream.mk _ _ _ _ _ _ _).
    assert (Htype : Documented.is_EOF token
                    = Documented.is_EOF
                        (TokenStream.tokenSource s (TokenStream.pulled s + 0)))
      by (rewrite Nat.add_0_r; reflexivity).
    assert (Hinc : forall n, Shape.incoming s (S n)
                             = token :: Shape.incoming s1 n)
      by (intros n; apply incoming_succ).
    destruct (Token.type token =? Token.EOF) eqn:Heof.
    + exists 1%nat, (Some (i + 1)). run.
      split; [lia|]. split.
      { unfold Shape.advance. rewrite Hinc, Nat.add_1_r. reflexivity. }
      split; [intros; lia|]. split; [lia|].
      exists 0%nat. split; [reflexivity|]. rewrite <- Htype. exact Heof.
    + destruct (IH (i + 1) s1) as (n & r & Hn & Hrun & Hbefore & Hr).
      exists (S n), r. split; [lia|]. split.
      { rewrite Hrun. f_equal. unfold Shape.advance. rewrite Hinc.
        cbn [s1 TokenStream.kind TokenStream.tokenSource TokenStream.pulled
             TokenStream.tokens TokenStream.index TokenStream.channel
             TokenStream.fetchedEOF].
        rewrite <- app_assoc. cbn [app]. f_equal. lia. }
      assert (Hshift : forall j,
                 TokenStream.tokenSource s1 (TokenStream.pulled s1 + j)
                 = TokenStream.tokenSource s (TokenStream.pulled s + S j)).
      { intros j. cbn. f_equal. lia. }
      split.
      { intros [|j] Hj; [rewrite <- Htype; exact Heof|].
        rewrite <- Hshift. apply Hbefore. lia. }
      destruct r as [k|].
      * destruct Hr as (Hk & m & Hm & Hlast). split; [lia|].
        exists (S m). split; [lia|]. now rewrite <- Hshift.
      * destruct Hr as (Hn' & Hall). split; [lia|].
        intros [|j] Hj; [rewrite <- Htype; exact Heof|].
        rewrite <- Hshift. apply Hall. lia.
Qed.

(** [fetch(n)] when the source returns its first end-of-file token
    after [d] other tokens. *)
Lemma fetch_exact (n : Z) (s : TokenStream.t) (d : nat) :
  TokenStream.fetchedEOF s = false ->
  Shape.first_EOF s d ->
  TokenStream.fetch n s
  = if decide (Z.to_nat n <= d)%nat
    then Done n (Shape.advance s (Z.to_nat n) false)
    else Done (Z.of_nat (S d)) (Shape.advance s (S d) true).
Proof.
  intros Hfetched [Hbefore Hat]. unfold TokenStream.fetch.
  unfold St.bind at 1, St.get at 1. rewrite Hfetched.
  destruct (fetch_loop_exact (Z.to_nat n) 0 s)
    as (m & r & Hm & Hrun & Hpre & Hr).
  unfold St.bind at 1. rewrite Hrun. rewrite Hfetched.
  destruct r as [k|].
  - destruct Hr as (Hk & m' & -> & Hlast).
    assert (m' = d).
    { destruct (lt_eq_lt_dec m' d) as [[Hlt|Heq]|Hgt]; [|exact Heq|].
      - rewrite Hbefore in Hlast by exact Hlt. discriminate.
      - rewrite Hpre in Hat by lia. discriminate. }
    subst m'. rewrite decide_False by lia. unfold St.ret. f_equal. lia.
  - destruct Hr as (-> & Hall).
    assert (Z.to_nat n <= d)%nat.
    { destruct (le_lt_dec (Z.to_nat n) d) as [Hle|Hgt]; [exact Hle|].
      rewrite Hall in Hat by exact Hgt. discriminate. }
    rewrite decide_True by assumption. reflexivity.
Qed.

Lemma first_EOF_advance (s : TokenStream.t) (d n : nat) (eof : bool) :
  Shape.first_EOF s d -> (n <= d)%nat ->
  Shape.first_EOF (Shape.advance s n eof) (d - n).
Proof.
  intros [Hbefore Hat] Hn. unfold Shape.first_EOF.
  cbn [Shape.advance TokenStream.tokenSource TokenStream.pulled]. split.
  - intros j Hj.
    replace (TokenStream.pulled s + n + j)%nat
      with (TokenStream.pulled s + (n + j))%nat by lia.
    apply Hbefore. lia.
  - replace (TokenStream.pulled s + n + (d - n))%nat
      with (TokenStream.pulled s + d)%nat by lia.
    exact Hat.
Qed.

Lemma indexed_advance (s : TokenStream.t) (n : nat) (eof : bool) :
  Shape.indexed (TokenStream.tokens s) ->
  Shape.indexed (TokenStream.tokens (Shape.advance s n eof)).
Proof.
  intros Hidx i tk. cbn [Shape.advance TokenStream.tokens].
  unfold at_index. destruct (i <? 0) eqn:Hneg; [discriminate|].
  apply Z.ltb_ge in Hneg.
  destruct (decide (Z.to_nat i < length (TokenStream.tokens s))%nat)
    as [Hin|Hout].
  - rewrite lookup_app_l by exact Hin. intros H. apply Hidx.
    unfold at_index. now rewrite (proj2 (Z.ltb_ge _ _) Hneg).
  - rewrite lookup_app_r by lia. intros H.
    pose proof (lookup_lt_Some _ _ _ H) as Hlt.
    rewrite incoming_length in Hlt.
    rewrite incoming_lookup in H by exact Hlt.
    injection H as <-. cbn [Token.set_tokenIndex Token.tokenIndex].
    unfold len. lia.
Qed.

(** [sync(i)] in full: what it appends and what it answers. *)
Lemma sync_exact (i : Z) (s : TokenStream.t) :
  exists (n : nat) (eof : bool),
    TokenStream.sync i s
      = Done (i <? len (TokenStream.tokens s) + Z.of_nat n)
             (Shape.advance s n eof) /\
    (len (TokenStream.tokens s) + Z.of_nat n <= i -> eof = true) /\
    (i < len (TokenStream.tokens s) \/ TokenStream.fetchedEOF s = true ->
     n = 0%nat /\ eof = TokenStream.fetchedEOF s) /\
    (eof = false -> TokenStream.fetchedEOF s = false) /\
    (Z.of_nat n <= Z.max 0 (i + 1 - len (TokenStream.tokens s))) /\
    (TokenStream.fetchedEOF s = false -> eof = true -> (0 < n)%nat).
Proof.
  unfold TokenStream.sync. unfold St.bind at 1, St.get at 1.
  destruct (0 <? i - len (TokenStream.tokens s) + 1) eqn:Hneed.
  - apply Z.ltb_lt in Hneed. unfold St.bind at 1.
    unfold TokenStream.fetch. unfold St.bind at 1, St.get at 1.
    destruct (TokenStream.fetchedEOF s) eqn:Hfetched.
    + exists 0%nat, true. unfold St.ret. rewrite <- Hfetched, advance_zero.
      rewrite Hfetched.
      replace (i - len (TokenStream.tokens s) + 1 <=? 0) with false
        by (symmetry; apply Z.leb_gt; lia).
      replace (i <? len (TokenStream.tokens s) + Z.of_nat 0) with false
        by (symmetry; apply Z.ltb_ge; lia).
      intuition (try lia; try congruence).
    + destruct (fetch_loop_exact
                  (Z.to_nat (i - len (TokenStream.tokens s) + 1)) 0 s)
        as (n & r & Hn & Hrun & _ & Hr).
      unfold St.bind at 1. rewrite Hrun, Hfetched.
      destruct r as [k|].
      * destruct Hr as (Hk & m & Hm & _). exists n, true. unfold St.ret.
        split.
        { f_equal. apply eq_true_iff_eq.
          rewrite Z.leb_le, Z.ltb_lt. lia. }
        intuition (try lia; try congruence).
      * destruct Hr as (-> & _).
        exists (Z.to_nat (i - len (TokenStream.tokens s) + 1)), false.
        unfold St.ret.
        split.
        { f_equal. apply eq_true_iff_eq.
          rewrite Z.leb_le, Z.ltb_lt. lia. }
        intuition (try lia; try congruence).
  - apply Z.ltb_ge in Hneed. exists 0%nat, (TokenStream.fetchedEOF s).
    unfold St.ret. rewrite advance_zero.
    replace (i <? len (TokenStream.tokens s) + Z.of_nat 0) with true
      by (symmetry; apply Z.ltb_lt; lia).
    intuition (try lia; try congruence).
Qed.

Lemma sync_loaded (i : Z) (s : TokenStream.t) :
  TokenStream.fetchedEOF s = true ->
  TokenStream.sync i s = Done (i <? len (TokenStream.tokens s)) s.
Proof.
  intros Hfetched.
  destruct (sync_exact i s) as (n & eof & Hrun & _ & Hhere & _).
  destruct Hhere as [-> ->]; [now right|].
  rewrite Hrun, advance_zero. do 2 f_equal. lia.
Qed.

(** [sync(i)] when the source returns its first end-of-file token
    after [d] other tokens. *)
Lemma sync_first_EOF (i : Z) (s : TokenStream.t) (d : nat) :
  TokenStream.fetchedEOF s = false ->
  Shape.first_EOF s d ->
  TokenStream.sync i s
  = let need := Z.to_nat (i + 1 - len (TokenStream.tokens s)) in
    if decide (need <= d)%nat
    then Done true (Shape.advance s need false)
    else Done (need <=? S d)%nat (Shape.advance s (S d) true).
Proof.
  intros Hfetched Hfirst. cbv zeta. unfold TokenStream.sync.
  unfold St.bind at 1, St.get at 1.
  destruct (0 <? i - len (TokenStream.tokens s) + 1) eqn:Hneed.
  - apply Z.ltb_lt in Hneed. unfold St.bind at 1.
    rewrite (fetch_exact _ s d Hfetched Hfirst).
    replace (i - len (TokenStream.tokens s) + 1)
      with (i + 1 - len (TokenStream.tokens s)) by lia.
    destruct (decide _) as [Hle|Hgt]; cbv beta iota; unfold St.ret; f_equal.
    + apply Z.leb_le. lia.
    + apply eq_true_iff_eq. rewrite Z.leb_le, Nat.leb_le. lia.
  - apply Z.ltb_ge in Hneed.
    replace (Z.to_nat (i + 1 - len (TokenStream.tokens s))) with 0%nat by lia.
    rewrite decide_True by lia. unfold St.ret.
    now rewrite <- Hfetched, advance_zero.
Qed.

Lemma synced_fields (s : TokenStream.t) (i : Z) (d : nat) :
  TokenStream.kind (Shape.synced s i d) = TokenStream.kind s /\
  TokenStream.index (Shape.synced s i d) = TokenStream.index s /\
  TokenStream.channel (Shape.synced s i d) = TokenStream.channel s.
Proof.
  unfold Shape.synced. now destruct (TokenStream.fetchedEOF s).
Qed.

Lemma synced_set_index (s : TokenStream.t) (j i : Z) (d : nat) :
  Shape.synced (TokenStream.set_index j s) i d
  = TokenStream.set_index j (Shape.synced s i d).
Proof.
  unfold Shape.synced.
  cbn [TokenStream.set_index TokenStream.tokens TokenStream.fetchedEOF].
  now destruct (TokenStream.fetchedEOF s).
Qed.

Lemma synced_length (s : TokenStream.t) (i : Z) (d : nat) :
  len (TokenStream.tokens (Shape.synced s i d))
  = len (TokenStream.tokens s)
    + (if TokenStream.fetchedEOF s then 0
       else Z.of_nat (Nat.min (Z.to_nat (i + 1 - len (TokenStream.tokens s)))
                        (S d))).
Proof.
  unfold Shape.synced. destruct (TokenStream.fetchedEOF s); [lia|].
  cbn [Shape.advance TokenStream.tokens]. unfold len.
  rewrite length_app, incoming_length. lia.
Qed.

(** Nothing is fetched for an index that is already buffered. *)
Lemma synced_resident (s : TokenStream.t) (i : Z) (d : nat) :
  i < len (TokenStream.tokens s) -> Shape.synced s i d = s.
Proof.
  intros Hi. unfold Shape.synced.
  destruct (TokenStream.fetchedEOF s) eqn:Hfetched; [reflexivity|].
  replace (Z.to_nat (i + 1 - len (TokenStream.tokens s))) with 0%nat by lia.
  rewrite Nat.min_0_l, bool_decide_eq_false_2 by lia.
  now rewrite <- Hfetched, advance_zero.
Qed.

(** An index still missing afterwards means that the end was
    fetched. *)
Lemma synced_short (s : TokenStream.t) (i : Z) (d : nat) :
  len (TokenStream.tokens (Shape.synced s i d)) <= i ->
  TokenStream.fetchedEOF (Shape.synced s i d) = true.
Proof.
  rewrite synced_length. unfold Shape.synced.
  destruct (TokenStream.fetchedEOF s) eqn:Hfetched; [now rewrite Hfetched|].
  intros Hshort. cbn [Shape.advance TokenStream.fetchedEOF].
  apply bool_decide_eq_true. lia.
Qed.

(** [sync(i)] when the calls it makes to the source return. *)
Lemma sync_known (i : Z) (s : TokenStream.t) (d : nat) :
  TokenStream.fetchedEOF s = true \/ Shape.first_EOF s d ->
  TokenStream.sync i s
  = Done (i <? len (TokenStream.tokens (Shape.synced s i d)))
         (Shape.synced s i d).
Proof.
  intros Hsource. rewrite synced_length. unfold Shape.synced.
  destruct (TokenStream.fetchedEOF s) eqn:Hfetched.
  - rewrite sync_loaded by exact Hfetched. now rewrite Z.add_0_r.
  - destruct Hsource as [Hno|Hfirst]; [discriminate|].
    rewrite (sync_first_EOF i s d Hfetched Hfirst). cbv zeta.
    set (need := Z.to_nat (i + 1 - len (TokenStream.tokens s))).
    destruct (decide (need <= d)%nat) as [Hle|Hgt].
    + rewrite Nat.min_l, bool_decide_eq_false_2 by lia.
      f_equal. symmetry. apply Z.ltb_lt. lia.
    + rewrite Nat.min_r, bool_decide_eq_true_2 by lia.
      f_equal. apply eq_true_iff_eq. rewrite Nat.leb_le, Z.ltb_lt. lia.
Qed.

(** Two calls of [sync] fetch what the one for the larger index
    fetches. *)
Lemma synced_again (s : TokenStream.t) (a b : Z) (d : nat) :
  a <= b ->
  TokenStream.fetchedEOF s = true \/ Shape.first_EOF s d ->
  exists d',
    (TokenStream.fetchedEOF (Shape.synced s a d) = true \/
     Shape.first_EOF (Shape.synced s a d) d') /\
    Shape.synced (Shape.synced s a d) b d' = Shape.synced s b d.
Proof.
  intros Hab Hsource.
  destruct (TokenStream.fetchedEOF s) eqn:Hfetched.
  - assert (Ha : Shape.synced s a d = s)
      by (unfold Shape.synced; now rewrite Hfetched).
    rewrite Ha. exists d. split; [now left|reflexivity].
  - destruct Hsource as [Hno|Hfirst]; [discriminate|].
    set (needa := Z.to_nat (a + 1 - len (TokenStream.tokens s))).
    destruct (decide (needa <= d)%nat) as [Hle|Hgt].
    + assert (Ha : Shape.synced s a d = Shape.advance s needa false).
      { unfold Shape.synced. rewrite Hfetched. fold needa.
        now rewrite Nat.min_l, bool_decide_eq_false_2 by lia. }
      rewrite Ha. exists (d - needa)%nat. split.
      * right. now apply first_EOF_advance.
      * unfold Shape.synced. rewrite Hfetched.
        cbn [Shape.advance TokenStream.fetchedEOF TokenStream.tokens].
        fold (Shape.advance s needa false). rewrite advance_advance.
        assert (Hlen : len (TokenStream.tokens s ++ Shape.incoming s needa)
                       = len (TokenStream.tokens s) + Z.of_nat needa).
        { unfold len. rewrite length_app, incoming_length. lia. }
        rewrite Hlen. f_equal; [lia|].
        apply bool_decide_ext. lia.
    + assert (Ha : Shape.synced s a d = Shape.advance s (S d) true).
      { unfold Shape.synced. rewrite Hfetched. fold needa.
        now rewrite Nat.min_r, bool_decide_eq_true_2 by lia. }
      rewrite Ha. exists 0%nat. split; [now left|].
      unfold Shape.synced. rewrite Hfetched.
      cbn [Shape.advance TokenStream.fetchedEOF].
      rewrite Nat.min_r, bool_decide_eq_true_2 by lia. reflexivity.
Qed.

Lemma indexed_synced (s : TokenStream.t) (i : Z) (d : nat) :
  Shape.indexed (TokenStream.tokens s) ->
  Shape.indexed (TokenStream.tokens (Shape.synced s i d)).
Proof.
  intros Hidx. unfold Shape.synced.
  destruct (TokenStream.fetchedEOF s); [exact Hidx|].
  now apply indexed_advance.
Qed.

(** X18.  Once the end-of-file token is fetched [sync(i)] calls the
    source no more and answers whether [i] is buffered.  Before that,
    when the calls it makes to the source return and the first
    end-of-file token comes after [d] other tokens, [sync(i)] fetches
    exactly the tokens missing up to index [i], or the [d + 1] tokens
    up to the end-of-file token when that comes first, each carrying
    its position in the buffer as its index, and records whether the
    end was fetched; it answers true exactly when [i] is buffered
    afterwards, and fetches nothing when [i] was buffered already. *)
Theorem sync_contract (i : Z) (s : TokenStream.t) (d : nat) :
  TokenStream.fetchedEOF s = true \/ Shape.first_EOF s d ->
  Shape.indexed (TokenStream.tokens s) ->
  let s' := Shape.synced s i d in
  TokenStream.sync i s = Done (i <? len (TokenStream.tokens s')) s' /\
  (TokenStream.fetchedEOF s = true -> s' = s) /\
  (TokenStream.fetchedEOF s = false ->
   s' = Shape.advance s
          (Nat.min (Z.to_nat (i + 1 - len (TokenStream.tokens s))) (S d))
          (bool_decide (d < Z.to_nat (i + 1 - len (TokenStream.tokens s)))%nat))
  /\
  (i < len (TokenStream.tokens s) -> s' = s) /\
  (len (TokenStream.tokens s') <= i -> TokenStream.fetchedEOF s' = true) /\
  Shape.indexed (TokenStream.tokens s').
Proof.
  intros Hsource Hidx s'. subst s'.
  split; [now apply sync_known|].
  split; [intros Hf; unfold Shape.synced; now rewrite Hf|].
  split; [intros Hf; unfold Shape.synced; now rewrite Hf|].
  split; [apply synced_resident|].
  split; [apply synced_short|].
  now apply indexed_synced.
Qed.

Lemma sync_contract_witness :
  TokenStream.sync 1 (TokenStream.BufferedTokenStream commented)
  = Done true
      (Shape.advance (TokenStream.BufferedTokenStream commented) 2 false) /\
  TokenStream.sync 7 (TokenStream.BufferedTokenStream commented)
  = Done false
      (Shape.advance (TokenStream.BufferedTokenStream commented) 4 true).
Proof.
  assert (Hsource : TokenStream.fetchedEOF
                      (TokenStream.BufferedTokenStream commented) = true \/
                    Shape.first_EOF
                      (TokenStream.BufferedTokenStream commented) 3).
  { right. split; [|reflexivity].
    intros [|[|[|j]]] Hj; try reflexivity. lia. }
  assert (Hidx : Shape.indexed
                   (TokenStream.tokens
                      (TokenStream.BufferedTokenStream commented))).
  { intros i tk H. unfold at_index in H. cbn in H.
    destruct (i <? 0); discriminate. }
  split.
  - exact (proj1 (sync_contract 1 (TokenStream.BufferedTokenStream commented)
                    3 Hsource Hidx)).
  - exact (proj1 (sync_contract 7 (TokenStream.BufferedTokenStream commented)
                    3 Hsource Hidx)).
Defined.

Lemma at_index_some {A} (l : list A) (i : Z) :
  0 <= i < len l -> exists x, at_index l i = Some x.
Proof.
  intros [Hlo Hhi]. unfold at_index.
  rewrite (proj2 (Z.ltb_ge i 0)) by lia.
  apply lookup_lt_is_Some_2. unfold len in Hhi. lia.
Qed.

Lemma at_index_app_l {A} (l r : list A) (i : Z) :
  i < len l -> at_index (l ++ r) i = at_index l i.
Proof.
  intros Hi. unfold at_index. destruct (i <? 0) eqn:Hneg; [reflexivity|].
  apply Z.ltb_ge in Hneg. apply lookup_app_l. unfold len in Hi. lia.
Qed.

Lemma at_index_end {A} (front : list A) (e : A) :
  at_index (front ++ [e]) (len (front ++ [e]) - 1) = Some e.
Proof.
  unfold at_index, len. rewrite length_app. cbn [length].
  rewrite (proj2 (Z.ltb_ge _ 0)) by lia.
  replace (Z.to_nat _) with (length front + 0)%nat by lia.
  now rewrite lookup_app_r, Nat.add_0_r, Nat.sub_diag by lia.
Qed.

(** In a buffer that satisfies the invariant the end-of-file token, if
    any, is the last token. *)
Lemma EOF_is_last (l : list Token.t) (fetched : bool) (i : Z)
    (tk : Token.t) :
  Documented.buffer_ok l fetched ->
  at_index l i = Some tk ->
  (Documented.is_EOF tk = true -> fetched = true /\ i = len l - 1) /\
  (Documented.is_EOF tk = false -> fetched = true -> i < len l - 1).
Proof.
  intros Hok Hat. pose proof (at_index_range _ _ _ Hat) as Hrange.
  assert (Hfront : forall front,
             forallb (fun tk => negb (Documented.is_EOF tk)) front = true ->
             i < len front -> at_index front i = Some tk ->
             Documented.is_EOF tk = false).
  { intros front Hall Hi Hfr. unfold at_index in Hfr.
    rewrite (proj2 (Z.ltb_ge i 0)) in Hfr by lia.
    apply list_elem_of_lookup_2 in Hfr.
    rewrite forallb_forall in Hall. apply negb_true_iff, Hall.
    now apply list_elem_of_In. }
  unfold Documented.buffer_ok in Hok. destruct fetched.
  - destruct Hok as (front & e & -> & He & Hall).
    assert (Hlen : len (front ++ [e]) = len front + 1)
      by (unfold len; rewrite length_app; cbn; lia).
    destruct (decide (i < len front)) as [Hin|Hout].
    + rewrite at_index_app_l in Hat by exact Hin.
      rewrite (Hfront front Hall Hin Hat). split; [discriminate|lia].
    + assert (i = len (front ++ [e]) - 1) by lia. subst i.
      rewrite at_index_end in Hat. injection Hat as <-.
      rewrite He. split; [auto|discriminate].
  - rewrite (Hfront l Hok) by (lia || assumption).
    split; discriminate.
Qed.

(** [LT(k)] of a started BufferedTokenStream, for [k] at least 1. *)
Lemma LT_buffered_started (fuel : nat) (k : Z) (s : TokenStream.t)
    (d : nat) :
  TokenStream.kind s = TokenStream.Buffered ->
  Documented.stream_ok s ->
  0 <= TokenStream.index s ->
  1 <= k ->
  TokenStream.fetchedEOF s = true \/ Shape.first_EOF s d ->
  let target := TokenStream.index s + k - 1 in
  let s' := Shape.synced s target d in
  exists tk,
    TokenStream.LT fuel k s = Done (TokenStream.STok tk) s' /\
    Documented.stream_ok s' /\
    (at_index (TokenStream.tokens s') target = Some tk \/
     (len (TokenStream.tokens s') <= target /\
      TokenStream.fetchedEOF s' = true /\
      Documented.is_EOF tk = true /\
      last (TokenStream.tokens s') = Some tk)).
Proof.
  intros Hkind Hok Hidx Hk Hsource target s'.
  pose proof (keeps_sync target s Hok) as Hok'.
  rewrite (sync_known target s d Hsource) in Hok'. fold s' in Hok'.
  unfold TokenStream.LT. unfold St.bind at 1.
  rewrite lazyInit_started by lia.
  unfold St.bind at 1, St.get at 1. rewrite Hkind.
  rewrite (proj2 (Z.eqb_neq k 0)) by lia. fold target.
  unfold St.bind at 1. rewrite (sync_known target s d Hsource). fold s'.
  unfold St.bind at 1, St.get at 1.
  destruct (len (TokenStream.tokens s') <=? target) eqn:Hpast.
  - apply Z.leb_le in Hpast.
    pose proof (synced_short s target d Hpast) as Heof. fold s' in Heof.
    pose proof Hok' as Hshape. unfold Documented.stream_ok in Hshape.
    rewrite Heof in Hshape. destruct Hshape as (front & e & Htok & He & Hall).
    exists e. unfold St.ret, TokenStream.slot_at.
    rewrite Htok, at_index_end. split; [reflexivity|].
    split; [exact Hok'|]. right. rewrite <- Htok.
    split; [exact Hpast|]. split; [exact Heof|]. split; [exact He|].
    rewrite Htok. apply last_snoc.
  - apply Z.leb_gt in Hpast.
    destruct (at_index_some (TokenStream.tokens s') target) as [tk Htk];
      [unfold target; lia|].
    exists tk. unfold St.ret, TokenStream.slot_at. rewrite Htk.
    split; [reflexivity|]. split; [exact Hok'|]. now left.
Qed.

(** X19.  On a BufferedTokenStream that keeps the buffer invariant and
    whose cursor is -1, as before the first use, or not negative,
    [LT(k)] with [k] at least 1 yields a token whenever the end-of-file
    token is already fetched or the calls made to the source return,
    the first end-of-file token coming after [d] other tokens.  It
    fetches what [sync] fetches for the place [k - 1] right of the
    cursor, a cursor of -1 moving to 0 first, and yields the token at
    that place when the source reaches that far, and otherwise the
    end-of-file token, the last of the buffer. *)
Theorem LT_buffered_yields_a_token (fuel : nat) (k : Z) (s : TokenStream.t)
    (d : nat) :
  TokenStream.kind s = TokenStream.Buffered ->
  Documented.stream_ok s ->
  -1 <= TokenStream.index s ->
  1 <= k ->
  TokenStream.fetchedEOF s = true \/ Shape.first_EOF s d ->
  let cursor := Z.max 0 (TokenStream.index s) in
  let target := cursor + k - 1 in
  let s' := TokenStream.set_index cursor (Shape.synced s target d) in
  exists tk,
    TokenStream.LT fuel k s = Done (TokenStream.STok tk) s' /\
    Documented.stream_ok s' /\
    (at_index (TokenStream.tokens s') target = Some tk \/
     (len (TokenStream.tokens s') <= target /\
      TokenStream.fetchedEOF s' = true /\
      Documented.is_EOF tk = true /\
      last (TokenStream.tokens s') = Some tk)).
Proof.
  intros Hkind Hok Hidx Hk Hsource cursor target s'. subst s' target.
  destruct (decide (TokenStream.index s = -1)) as [Hfresh|Hstarted].
  - assert (Hcursor : cursor = 0) by (unfold cursor; lia).
    clearbody cursor. subst cursor.
    set (s1 := TokenStream.set_index 0 (Shape.synced s 0 d)).
    assert (Hinit : TokenStream.lazyInit fuel s = Done tt s1).
    { unfold TokenStream.lazyInit. unfold St.bind at 1, St.get at 1.
      rewrite (proj2 (Z.eqb_eq _ _) Hfresh). unfold TokenStream.setup.
      unfold St.bind at 1. rewrite (sync_known 0 s d Hsource).
      unfold TokenStream.adjustSeekIndex. run.
      destruct (synced_fields s 0 d) as (-> & _). now rewrite Hkind. }
    pose proof (keeps_lazyInit fuel s Hok) as Hok1. rewrite Hinit in Hok1.
    destruct (synced_again s 0 (0 + k - 1) d) as (d' & Hsource' & Hagain);
      [lia|exact Hsource|].
    rewrite (LT_after_init fuel k s s1 Hinit) by discriminate.
    destruct (LT_buffered_started fuel k s1 d') as (tk & Hrun & Hok' & Htk).
    + unfold s1. cbn [TokenStream.set_index TokenStream.kind].
      now destruct (synced_fields s 0 d) as (-> & _).
    + exact Hok1.
    + cbn. lia.
    + exact Hk.
    + exact Hsource'.
    + change (TokenStream.index s1) with 0 in Hrun, Hok', Htk.
      assert (Hsame : Shape.synced s1 (0 + k - 1) d'
                      = TokenStream.set_index 0
                          (Shape.synced s (0 + k - 1) d)).
      { unfold s1. rewrite synced_set_index. now rewrite Hagain. }
      rewrite Hsame in Hrun, Hok', Htk.
      exists tk. auto.
  - assert (Hcursor : cursor = TokenStream.index s) by (unfold cursor; lia).
    clearbody cursor. subst cursor.
    destruct (LT_buffered_started fuel k s d Hkind Hok) as (tk & Hrun & Hrest);
      [lia|exact Hk|exact Hsource|].
    assert (Hsame : Shape.synced s (TokenStream.index s + k - 1) d
                    = TokenStream.set_index (TokenStream.index s)
                        (Shape.synced s (TokenStream.index s + k - 1) d)).
    { destruct (synced_fields s (TokenStream.index s + k - 1) d)
        as (_ & Hi & _).
      rewrite <- Hi at 2.
      now destruct (Shape.synced s (TokenStream.index s + k - 1) d). }
    rewrite Hsame in Hrun, Hrest.
    exists tk. auto.
Qed.

Lemma LT_buffered_yields_a_token_witness :
  exists tk,
    TokenStream.LT 1 5 (TokenStream.BufferedTokenStream commented)
      = Done (TokenStream.STok tk)
          (TokenStream.set_index 0
             (Shape.advance (TokenStream.BufferedTokenStream commented)
                4 true)) /\
    Documented.is_EOF tk = true.
Proof.
  destruct (LT_buffered_yields_a_token 1 5
              (TokenStream.BufferedTokenStream commented) 3)
    as (tk & Hrun & _).
  - reflexivity.
  - reflexivity.
  - cbn. lia.
  - lia.
  - right. split; [|reflexivity].
    intros [|[|[|j]]] Hj; try reflexivity. lia.
  - exists tk. split; [exact Hrun|].
    revert Hrun. cbn. intros [= <-]. reflexivity.
Defined.

(** X20.  On a BufferedTokenStream that keeps the buffer invariant and
    whose cursor rests on a token other than the end-of-file token,
    [consume()] moves the cursor one place to the right, onto a
    buffered token, whenever the end-of-file token is already fetched
    or the call made to the source returns, the first end-of-file token
    coming after [d] other tokens.  It calls the source once when the
    cursor was on the last buffered token, and not at all otherwise. *)
Theorem consume_buffered_advances (fuel : nat) (s : TokenStream.t)
    (tk : Token.t) (d : nat) :
  TokenStream.kind s = TokenStream.Buffered ->
  Documented.stream_ok s ->
  at_index (TokenStream.tokens s) (TokenStream.index s) = Some tk ->
  Documented.is_EOF tk = false ->
  TokenStream.fetchedEOF s = true \/ Shape.first_EOF s d ->
  let s' := TokenStream.set_index (TokenStream.index s + 1)
              (Shape.synced s (TokenStream.index s + 1) d) in
  TokenStream.consume fuel s = Done tt s' /\
  TokenStream.index s' < len (TokenStream.tokens s') /\
  (TokenStream.index s + 1 < len (TokenStream.tokens s) ->
   s' = TokenStream.set_index (TokenStream.index s + 1) s) /\
  (TokenStream.index s + 1 = len (TokenStream.tokens s) ->
   s' = TokenStream.set_index (TokenStream.index s + 1)
          (Shape.advance s 1 (bool_decide (d = 0%nat)))) /\
  Documented.stream_ok s'.
Proof.
  intros Hkind Hok Hat Hnot Hsource s'.
  pose proof (at_index_range _ _ _ Hat) as [Hlo Hhi].
  destruct (EOF_is_last _ _ _ _ Hok Hat) as [_ Hlast].
  specialize (Hlast Hnot).
  set (s1 := Shape.synced s (TokenStream.index s + 1) d) in *.
  pose proof (keeps_sync (TokenStream.index s + 1) s Hok) as Hok1.
  rewrite (sync_known _ s d Hsource) in Hok1. fold s1 in Hok1.
  assert (Hres : TokenStream.index s + 1 < len (TokenStream.tokens s1)).
  { unfold s1. rewrite synced_length.
    destruct (TokenStream.fetchedEOF s) eqn:Hf.
    - specialize (Hlast eq_refl). lia.
    - lia. }
  assert (Hrun : TokenStream.consume fuel s = Done tt s').
  { unfold TokenStream.consume. unfold St.bind at 1, St.get at 1.
    rewrite (proj2 (Z.leb_le 0 _)) by lia.
    rewrite (proj2 (Z.ltb_lt _ _) Hhi).
    assert (Hcheck :
      St.bind
        (if negb (truthy (if TokenStream.fetchedEOF s
                          then VNum ((if true then 1 else 0) - 1)
                          else VBool true))
         then St.bind (TokenStream.LA fuel 1)
                (fun la => St.ret (la =? Token.EOF))
         else St.ret false)
        (fun atEOF : bool =>
           if atEOF then St.throw (Error "cannot consume EOF")
           else
             St.bind St.get (fun s0 =>
               St.bind (TokenStream.sync (TokenStream.index s0 + 1))
                 (fun resident : bool =>
                    if resident
                    then St.bind St.get (fun s1 =>
                           St.bind (TokenStream.adjustSeekIndex fuel
                                      (TokenStream.index s1 + 1))
                             (fun i => St.modify (TokenStream.set_index i)))
                    else St.ret tt))) s
      = St.bind St.get (fun s0 =>
          St.bind (TokenStream.sync (TokenStream.index s0 + 1))
            (fun resident : bool =>
               if resident
               then St.bind St.get (fun s1 =>
                      St.bind (TokenStream.adjustSeekIndex fuel
                                 (TokenStream.index s1 + 1))
                        (fun i => St.modify (TokenStream.set_index i)))
               else St.ret tt)) s).
    { destruct (TokenStream.fetchedEOF s).
      - cbv iota. change (negb (truthy (VNum (1 - 1)))) with true.
        cbv iota. unfold St.bind at 1, St.bind at 1, TokenStream.LA at 1.
        unfold St.bind at 1. rewrite LT_1_at_cursor by lia.
        unfold TokenStream.slot_at. rewrite Hat.
        cbn [TokenStream.deref]. unfold St.bind at 1, St.ret at 1.
        unfold St.ret at 1. unfold St.ret at 1.
        unfold Documented.is_EOF in Hnot. rewrite Hnot. reflexivity.
      - reflexivity. }
    etransitivity; [exact Hcheck|].
    unfold St.bind at 1, St.get at 1. unfold St.bind at 1.
    rewrite (sync_known _ s d Hsource). fold s1.
    rewrite (proj2 (Z.ltb_lt _ _) Hres).
    unfold TokenStream.adjustSeekIndex. run.
    destruct (synced_fields s (TokenStream.index s + 1) d) as (Hk & Hi & _).
    fold s1 in Hk, Hi. rewrite Hk, Hkind, Hi. reflexivity. }
  split; [exact Hrun|]. split; [exact Hres|].
  split.
  { intros Hin. unfold s', s1. now rewrite synced_resident. }
  split.
  { intros Hend. unfold s', s1. f_equal. unfold Shape.synced.
    destruct (TokenStream.fetchedEOF s) eqn:Hf;
      [specialize (Hlast eq_refl); lia|].
    replace (Z.to_nat (TokenStream.index s + 1 + 1
                       - len (TokenStream.tokens s))) with 1%nat by lia.
    f_equal. apply bool_decide_ext. lia. }
  exact Hok1.
Qed.

Lemma consume_buffered_advances_witness :
  TokenStream.consume 1
    (TokenStream.set_index 0
       (Shape.advance (TokenStream.BufferedTokenStream commented) 1 false))
  = Done tt
      (TokenStream.set_index 1
         (Shape.advance (TokenStream.BufferedTokenStream commented) 2 false)).
Proof.
  refine (proj1 (consume_buffered_advances 1
                   (TokenStream.set_index 0
                      (Shape.advance
                         (TokenStream.BufferedTokenStream commented) 1 false))
                   (Token.set_tokenIndex tokA 0) 2 _ _ _ _ _)).
  - reflexivity.
  - reflexivity.
  - reflexivity.
  - reflexivity.
  - right. split; [|reflexivity].
    intros [|[|j]] Hj; try reflexivity. lia.
Defined.

Lemma advance_set_index (s : TokenStream.t) (i : Z) (n : nat) (eof : bool) :
  Shape.advance (TokenStream.set_index i s) n eof
  = TokenStream.set_index i (Shape.advance s n eof).
Proof. reflexivity. Qed.

Lemma first_EOF_set_index (s : TokenStream.t) (i : Z) (d : nat) :
  Shape.first_EOF s d -> Shape.first_EOF (TokenStream.set_index i s) d.
Proof. intros H. exact H. Qed.

(** The loop of [fill] reads up to the first end-of-file token of the
    source and stops. *)
Lemma fill_loop_exact (fuel : nat) :
  forall (s : TokenStream.t) (d : nat),
    TokenStream.fetchedEOF s = false ->
    Shape.first_EOF s d ->
    (S d < 1000 * fuel)%nat ->
    TokenStream.fill_loop fuel s = Done tt (Shape.advance s (S d) true).
Proof.
  induction fuel as [|fuel IH]; intros s d Hfetched Hfirst Hfuel; [lia|].
  cbn [TokenStream.fill_loop]. unfold St.bind at 1.
  rewrite (fetch_exact 1000 s d Hfetched Hfirst).
  destruct (decide (Z.to_nat 1000 <= d)%nat) as [Hmore|Hlast].
  - change (1000 =? 1000) with true. cbv iota.
    rewrite (IH (Shape.advance s (Z.to_nat 1000) false) (d - Z.to_nat 1000)%nat).
    + rewrite advance_advance. do 2 f_equal. lia.
    + reflexivity.
    + now apply first_EOF_advance.
    + lia.
  - destruct (Z.of_nat (S d) =? 1000) eqn:Hfull; [|reflexivity].
    apply Z.eqb_eq in Hfull.
    destruct fuel as [|fuel]; [lia|].
    cbn [TokenStream.fill_loop]. unfold St.bind at 1.
    rewrite fetch_after_EOF by reflexivity. reflexivity.
Qed.

Lemma fill_loop_loaded (fuel : nat) (s : TokenStream.t) :
  TokenStream.fetchedEOF s = true ->
  TokenStream.fill_loop (S fuel) s = Done tt s.
Proof.
  intros Hfetched. cbn [TokenStream.fill_loop]. unfold St.bind at 1.
  now rewrite fetch_after_EOF.
Qed.

(** X21.  [fill()] reads the source up to and including its first
    end-of-file token and no further: when that token comes after [d]
    others, the buffer gains these [d + 1] tokens, each carrying its
    position as its index, and the stream records that the end was
    fetched.  This holds for a BufferedTokenStream and for any stream
    already started; a stream not yet started gets its cursor on the
    first token. *)
Theorem fill_reads_to_EOF (fuel : nat) (s : TokenStream.t) (d : nat) :
  TokenStream.kind s = TokenStream.Buffered \/ TokenStream.index s <> -1 ->
  TokenStream.fetchedEOF s = false ->
  Shape.first_EOF s d ->
  (S d < 1000 * fuel)%nat ->
  TokenStream.fill fuel s
  = Done tt (TokenStream.set_index
               (if TokenStream.index s =? -1 then 0 else TokenStream.index s)
               (Shape.advance s (S d) true)).
Proof.
  intros Hstart Hfetched Hfirst Hfuel. unfold TokenStream.fill.
  unfold St.bind at 1.
  destruct (TokenStream.index s =? -1) eqn:Hidx.
  - destruct Hstart as [Hkind|Hne]; [|apply Z.eqb_eq in Hidx; contradiction].
    unfold TokenStream.lazyInit. unfold St.bind at 1, St.get at 1.
    rewrite Hidx. unfold TokenStream.setup. unfold St.bind at 1.
    rewrite (sync_first_EOF 0 s d Hfetched Hfirst). cbv zeta.
    set (need := Z.to_nat (0 + 1 - len (TokenStream.tokens s))).
    unfold TokenStream.adjustSeekIndex.
    destruct (decide (need <= d)%nat) as [Hle|Hgt].
    + run. cbn [Shape.advance TokenStream.kind]. rewrite Hkind.
      fold (Shape.advance s need false).
      change (TokenStream.set_index 0 (Shape.advance s need false))
        with (Shape.advance (TokenStream.set_index 0 s) need false).
      rewrite (fill_loop_exact fuel _ (d - need)%nat).
      * rewrite advance_advance.
        replace (need + S (d - need))%nat with (S d) by lia. reflexivity.
      * reflexivity.
      * apply (first_EOF_advance (TokenStream.set_index 0 s) d need false);
          [exact Hfirst|exact Hle].
      * lia.
    + run. cbn [Shape.advance TokenStream.kind]. rewrite Hkind.
      fold (Shape.advance s (S d) true).
      destruct fuel as [|fuel]; [lia|].
      now rewrite fill_loop_loaded.
  - apply Z.eqb_neq in Hidx. rewrite lazyInit_started by exact Hidx.
    rewrite (fill_loop_exact fuel s d Hfetched Hfirst Hfuel).
    reflexivity.
Qed.

Lemma fill_reads_to_EOF_witness :
  TokenStream.fill 1 (TokenStream.BufferedTokenStream commented)
  = Done tt (TokenStream.set_index 0
               (Shape.advance (TokenStream.BufferedTokenStream commented)
                  4 true)).
Proof.
  apply (fill_reads_to_EOF 1 (TokenStream.BufferedTokenStream commented) 3).
  - left. reflexivity.
  - reflexivity.
  - split; [|reflexivity].
    intros [|[|[|j]]] Hj; try reflexivity. lia.
  - lia.
Defined.

Lemma drop_at_index {A} (l : list A) (i : nat) (x : A) :
  at_index l (Z.of_nat i) = Some x -> drop i l = x :: drop (S i) l.
Proof.
  rewrite at_index_nat. intros H. now apply drop_S.
Qed.

Lemma getText_loop_spec (l : list Token.t) (todo : nat) :
  forallb Shape.readable l = true ->
  forall (i : nat) (acc : jsstring),
    (i + todo <= length l)%nat ->
    TokenStream.getText_loop todo l (Z.of_nat i) acc
    = Ok (acc ++ concat (map Shape.shown
                           (Documented.up_to_EOF (take todo (drop i l))))).
Proof.
  intros Hread. induction todo as [|todo IH]; intros i acc Hlen.
  - cbn. now rewrite app_nil_r.
  - cbn [TokenStream.getText_loop].
    destruct (at_index_some l (Z.of_nat i)) as [tk Htk];
      [unfold len; lia|].
    rewrite Htk, (drop_at_index l i tk Htk).
    cbn [take Documented.up_to_EOF]. unfold Documented.is_EOF.
    destruct (Token.type tk =? Token.EOF); [cbn; now rewrite app_nil_r|].
    assert (Hin : Shape.readable tk = true).
    { rewrite forallb_forall in Hread. apply Hread.
      rewrite at_index_nat in Htk. apply list_elem_of_In.
      now apply list_elem_of_lookup_2 in Htk. }
    unfold Shape.readable in Hin. cbn [map concat].
    unfold Shape.shown at 1.
    destruct (Token.text tk) as [r|e]; [|discriminate]. cbn [rbind].
    replace (Z.of_nat i + 1) with (Z.of_nat (S i)) by lia.
    rewrite IH by lia. unfold TokenStream.append_text.
    rewrite <- app_assoc. now destruct r.
Qed.

(** X22.  On a stream that has read its source to the end,
    [getText()] is the concatenation of the texts of the tokens before
    the end-of-file token, and [getText([start, stop])] that of the
    tokens at the places [start] to [stop] before it; the stream stays
    as it is. *)
Theorem getText_concatenates (fuel : nat) (s : TokenStream.t) :
  Shape.loaded_stream s ->
  TokenStream.index s <> -1 ->
  forallb Shape.readable (TokenStream.tokens s) = true ->
  TokenStream.getText (S fuel) None s
    = Done (concat (map Shape.shown
                      (Documented.up_to_EOF (TokenStream.tokens s)))) s /\
  forall start stop,
    0 <= start -> 0 <= stop ->
    TokenStream.getText (S fuel) (Some (start, stop)) s
    = Done (concat (map Shape.shown
                      (Documented.up_to_EOF
                         (take (Z.to_nat (stop + 1 - start))
                            (drop (Z.to_nat start) (TokenStream.tokens s))))))
           s.
Proof.
  intros [Hfetched Hok] Hidx Hread.
  assert (Hprefix : forall interval : option (Z * Z),
             TokenStream.getText (S fuel) interval s
             = (let (start, stop) return St.M TokenStream.t jsstring :=
                  match interval with
                  | Some p => p
                  | None => (0, len (TokenStream.tokens s) - 1)
                  end in
                if (start <? 0) || (stop <? 0) then St.ret []
                else
                  St.lift
                    (TokenStream.getText_loop
                       (Z.to_nat
                          ((if len (TokenStream.tokens s) <=? stop
                            then len (TokenStream.tokens s) - 1
                            else stop) + 1 - start))
                       (TokenStream.tokens s) start [])) s).
  { intros interval. unfold TokenStream.getText, TokenStream.fill.
    unfold St.bind at 1. rewrite lazyInit_started by exact Hidx.
    unfold St.bind at 1, St.bind at 1.
    rewrite lazyInit_started by exact Hidx.
    rewrite fill_loop_loaded by exact Hfetched.
    unfold St.bind at 1, St.get at 1. reflexivity. }
  assert (Hrange : forall start stop,
             0 <= start -> 0 <= stop ->
             TokenStream.getText (S fuel) (Some (start, stop)) s
             = Done (concat (map Shape.shown
                      (Documented.up_to_EOF
                         (take (Z.to_nat (stop + 1 - start))
                            (drop (Z.to_nat start) (TokenStream.tokens s))))))
                    s).
  { intros start stop Hstart Hstop. rewrite Hprefix.
    rewrite (proj2 (Z.ltb_ge start 0)), (proj2 (Z.ltb_ge stop 0)) by lia.
    cbn [orb]. set (l := TokenStream.tokens s) in *.
    set (stop' := if len l <=? stop then len l - 1 else stop).
    assert (Hstop' : stop' = Z.min stop (len l - 1)).
    { unfold stop'. destruct (len l <=? stop) eqn:E;
        [apply Z.leb_le in E|apply Z.leb_gt in E]; lia. }
    assert (Htake : take (Z.to_nat (stop + 1 - start)) (drop (Z.to_nat start) l)
                    = take (Z.to_nat (stop' + 1 - start))
                        (drop (Z.to_nat start) l)).
    { destruct (decide (stop < len l)) as [Hin|Hout].
      - replace stop' with stop by lia. reflexivity.
      - rewrite !take_ge; [reflexivity| |];
          rewrite length_drop; unfold len in *; lia. }
    rewrite Htake.
    destruct (decide (start <= stop' + 1)) as [Hle|Hgt].
    - replace start with (Z.of_nat (Z.to_nat start)) at 2 by lia.
      rewrite getText_loop_spec; [reflexivity|exact Hread|].
      unfold len in *. lia.
    - replace (Z.to_nat (stop' + 1 - start)) with 0%nat by lia.
      reflexivity. }
  split; [|exact Hrange].
  unfold Documented.stream_ok in Hok. rewrite Hfetched in Hok.
  destruct Hok as (front & e & Htok & He & Hall).
  assert (Hlen : 1 <= len (TokenStream.tokens s)).
  { rewrite Htok. unfold len. rewrite length_app. cbn. lia. }
  specialize (Hrange 0 (len (TokenStream.tokens s) - 1)).
  rewrite Hprefix. rewrite Hprefix in Hrange.
  rewrite Hrange by lia.
  replace (Z.to_nat (len (TokenStream.tokens s) - 1 + 1 - 0))
    with (length (TokenStream.tokens s)) by (unfold len; lia).
  now rewrite drop_0, firstn_all.
Qed.

Lemma getText_concatenates_witness :
  TokenStream.getText 1 None
    (loaded TokenStream.Common [tokA; tokComment; tokB] 0)
  = Done (lit "A#commentB")
      (loaded TokenStream.Common [tokA; tokComment; tokB] 0).
Proof.
  refine (proj1 (getText_concatenates 0
                   (loaded TokenStream.Common [tokA; tokComment; tokB] 0)
                   _ _ _)).
  - split; [reflexivity|].
    exists [Token.set_tokenIndex tokA 0; Token.set_tokenIndex tokComment 1;
            Token.set_tokenIndex tokB 2], (Token.set_tokenIndex tokEOF 3).
    repeat split.
  - discriminate.
  - reflexivity.
Defined.

(** The loop of [nextTokenOnChannel] on a stream that has read its
    source to the end. *)
Lemma nextTokenOnChannel_loop_loaded (s : TokenStream.t) (fuel : nat) :
  Shape.loaded_stream s ->
  forall (i : Z) (tk : Token.t),
    at_index (TokenStream.tokens s) i = Some tk ->
    len (TokenStream.tokens s) - i <= Z.of_nat fuel ->
    exists r,
      TokenStream.nextTokenOnChannel_loop fuel i (TokenStream.STok tk) s
        = Done r s /\
      (r = -1 \/
       (i <= r /\ exists found,
          at_index (TokenStream.tokens s) r = Some found /\
          Shape.on_channel s found = true)) /\
      forall j skipped,
        i <= j < (if r =? -1 then len (TokenStream.tokens s) else r) ->
        at_index (TokenStream.tokens s) j = Some skipped ->
        Shape.on_channel s skipped = false.
Proof.
  intros [Hfetched Hok]. induction fuel as [|fuel IH]; intros i tk Hat Hfuel.
  - apply at_index_range in Hat. lia.
  - pose proof (at_index_range _ _ _ Hat) as Hrange.
    destruct (EOF_is_last _ _ _ _ Hok Hat) as [Hlast Hinner].
    cbn [TokenStream.nextTokenOnChannel_loop TokenStream.deref].
    unfold St.bind at 1, St.ret at 1. unfold St.bind at 1, St.get at 1.
    fold (Shape.on_channel s tk).
    destruct (Shape.on_channel s tk) eqn:Hon; cbn [negb].
    + exists i. unfold St.ret. split; [reflexivity|]. split.
      * right. split; [lia|]. exists tk. auto.
      * intros j skipped Hj.
        rewrite (proj2 (Z.eqb_neq i (-1))) in Hj by lia. lia.
    + destruct (Token.type tk =? Token.EOF) eqn:Heof.
      * exists (-1). unfold St.ret. split; [reflexivity|].
        split; [now left|]. intros j skipped Hj Hsk. cbn in Hj.
        destruct (Hlast Heof) as [_ ->].
        assert (j = len (TokenStream.tokens s) - 1) by lia. subst j.
        rewrite Hat in Hsk. now injection Hsk as <-.
      * specialize (Hinner Heof Hfetched).
        unfold St.bind at 1. rewrite sync_loaded by exact Hfetched.
        unfold St.bind at 1, St.get at 1.
        destruct (at_index_some (TokenStream.tokens s) (i + 1)) as [next Hnext];
          [lia|].
        unfold TokenStream.slot_at. rewrite Hnext.
        destruct (IH (i + 1) next Hnext) as (r & Hrun & Hr & Hskip); [lia|].
        exists r. split; [exact Hrun|]. split.
        -- destruct Hr as [->|(Hle & found & Hfound & Hon')]; [now left|].
           right. split; [lia|]. eauto.
        -- intros j skipped Hj Hsk.
           destruct (decide (j = i)) as [->|Hne].
           ++ rewrite Hat in Hsk. now injection Hsk as <-.
           ++ apply (Hskip j); [lia|exact Hsk].
Qed.

(** X23.  On a CommonTokenStream that has read its source to the end,
    [seek(i)] puts the cursor on the first token at or right of [i]
    that is on the stream's channel: every token it passes over is off
    the channel.  When there is no such token the cursor becomes -1.
    The buffer is left as it is. *)
Theorem seek_lands_on_channel (fuel : nat) (i : Z) (s : TokenStream.t) :
  Shape.loaded_stream s ->
  TokenStream.kind s = TokenStream.Common ->
  TokenStream.index s <> -1 ->
  0 <= i ->
  len (TokenStream.tokens s) - i <= Z.of_nat fuel ->
  exists r,
    TokenStream.seek fuel i s = Done tt (TokenStream.set_index r s) /\
    (r = -1 \/
     (i <= r /\ exists found,
        at_index (TokenStream.tokens s) r = Some found /\
        Shape.on_channel s found = true)) /\
    forall j skipped,
      i <= j < (if r =? -1 then len (TokenStream.tokens s) else r) ->
      at_index (TokenStream.tokens s) j = Some skipped ->
      Shape.on_channel s skipped = false.
Proof.
  intros Hloaded Hkind Hidx Hi Hfuel. unfold TokenStream.seek.
  unfold St.bind at 1. rewrite lazyInit_started by exact Hidx.
  unfold TokenStream.adjustSeekIndex.
  unfold St.bind at 1, St.bind at 1, St.get at 1. rewrite Hkind.
  unfold TokenStream.nextTokenOnChannel. unfold St.bind at 1.
  rewrite sync_loaded by apply Hloaded.
  unfold St.bind at 1, St.get at 1.
  destruct (len (TokenStream.tokens s) <=? i) eqn:Hpast.
  - apply Z.leb_le in Hpast. exists (-1). unfold St.ret, St.modify.
    split; [reflexivity|]. split; [now left|].
    intros j skipped Hj. cbn in Hj. lia.
  - apply Z.leb_gt in Hpast.
    destruct (at_index_some (TokenStream.tokens s) i) as [tk Htk]; [lia|].
    unfold TokenStream.slot_at. rewrite Htk.
    destruct (nextTokenOnChannel_loop_loaded s fuel Hloaded i tk Htk Hfuel)
      as (r & Hrun & Hr & Hskip).
    exists r. rewrite Hrun. unfold St.modify.
    split; [reflexivity|]. split; assumption.
Qed.

Lemma seek_lands_on_channel_witness :
  TokenStream.seek 4 1 (loaded TokenStream.Common [tokA; tokComment; tokB] 0)
  = Done tt (loaded TokenStream.Common [tokA; tokComment; tokB] 2).
Proof.
  destruct (seek_lands_on_channel 4 1
              (loaded TokenStream.Common [tokA; tokComment; tokB] 0))
    as (r & Hrun & _).
  - split; [reflexivity|].
    exists [Token.set_tokenIndex tokA 0; Token.set_tokenIndex tokComment 1;
            Token.set_tokenIndex tokB 2], (Token.set_tokenIndex tokEOF 3).
    repeat split.
  - reflexivity.
  - discriminate.
  - lia.
  - vm_compute. discriminate.
  - rewrite Hrun. revert Hrun. cbn. intros [= <-]. reflexivity.
Defined.

Lemma count_loop_spec (l : list Token.t) (chan : Val) (todo : nat) :
  Documented.buffer_ok l true ->
  forall (i : nat) (n : Z),
    (i + todo = length l)%nat ->
    TokenStream.count_loop todo l (Z.of_nat i) chan n
    = Ok (n + len (filter (fun tk => strict_eq (Token.channel tk) chan = true)
                     (drop i l))).
Proof.
  intros Hok. induction todo as [|todo IH]; intros i n Hlen.
  - cbn [TokenStream.count_loop]. rewrite drop_ge by lia.
    unfold len. cbn. f_equal. lia.
  - cbn [TokenStream.count_loop].
    destruct (at_index_some l (Z.of_nat i)) as [tk Htk]; [unfold len; lia|].
    rewrite Htk, (drop_at_index l i tk Htk), filter_cons.
    destruct (EOF_is_last _ _ _ _ Hok Htk) as [Hlast Hinner].
    unfold Documented.is_EOF in Hlast, Hinner.
    destruct (Token.type tk =? Token.EOF) eqn:Heof.
    + destruct (Hlast eq_refl) as [_ Hi].
      rewrite (drop_ge l (S i)) by (unfold len in Hi; lia).
      rewrite filter_nil.
      destruct (strict_eq (Token.channel tk) chan) eqn:Hon.
      * rewrite decide_True by reflexivity. reflexivity.
      * rewrite decide_False by discriminate. unfold len. cbn [length].
        f_equal. lia.
    + replace (Z.of_nat i + 1) with (Z.of_nat (S i)) by lia.
      rewrite IH by lia.
      destruct (strict_eq (Token.channel tk) chan) eqn:Hon.
      * rewrite decide_True by reflexivity. unfold len. cbn [length].
        f_equal. lia.
      * rewrite decide_False by discriminate. reflexivity.
Qed.

(** X24.  On a stream that has read its source to the end,
    [getNumberOfOnChannelTokens()] is the number of buffered tokens on
    the stream's channel, the end-of-file token included when it is on
    that channel. *)
Theorem getNumberOfOnChannelTokens_counts (fuel : nat) (s : TokenStream.t) :
  Shape.loaded_stream s ->
  TokenStream.index s <> -1 ->
  TokenStream.getNumberOfOnChannelTokens (S fuel) s
  = Done (len (filter (fun tk => Shape.on_channel s tk = true)
                 (TokenStream.tokens s))) s.
Proof.
  intros [Hfetched Hok] Hidx.
  unfold TokenStream.getNumberOfOnChannelTokens, TokenStream.fill.
  unfold St.bind at 1, St.bind at 1.
  rewrite lazyInit_started by exact Hidx.
  rewrite fill_loop_loaded by exact Hfetched.
  unfold St.bind at 1, St.get at 1.
  unfold Documented.stream_ok in Hok. rewrite Hfetched in Hok.
  change 0 with (Z.of_nat 0) at 1.
  rewrite (count_loop_spec _ _ _ Hok) by lia.
  rewrite drop_0. reflexivity.
Qed.

Lemma getNumberOfOnChannelTokens_counts_witness :
  TokenStream.getNumberOfOnChannelTokens 1
    (loaded TokenStream.Common [tokA; tokComment; tokB] 0)
  = Done 3 (loaded TokenStream.Common [tokA; tokComment; tokB] 0).
Proof.
  refine (getNumberOfOnChannelTokens_counts 0
            (loaded TokenStream.Common [tokA; tokComment; tokB] 0) _ _).
  - split; [reflexivity|].
    exists [Token.set_tokenIndex tokA 0; Token.set_tokenIndex tokComment 1;
            Token.set_tokenIndex tokB 2], (Token.set_tokenIndex tokEOF 3).
    repeat split.
  - discriminate.
Defined.
